(** * AsBrand backend: EMI installments, penalty ledger and the reminder job

    A shallow embedding of the instalment core of the backend:
    - [EmiPlan.calculateEMI]               (model/emiPlan.js)
    - [EmiApplication.generateSchedule]    (model/emiApplication.js)
    - [PenaltyLedger.calculatePenalty]     (model/penaltyLedger.js)
    - the [/apply] and [/pay] handlers     (routes/emi.js)
    - the refund handler, from its writes on (routes/merchant.js)
    - the admin's KYC review handler       (PUT /verify/:kycId)
    - the three passes of the daily job    (cron/paymentReminder.js)

    Conventions of the embedding.
    - A JavaScript [Date] is its time value in milliseconds, read in the
      server's local zone (Asia/Kolkata, a fixed offset without daylight
      saving), so local calendar fields are functions of the time value.
    - JavaScript numbers are modelled exactly: integers as [Z], the
      fractional inputs of the two formulas (principal, rates) as [Q].
      Rounding of IEEE doubles is not modelled.
    - MongoDB collections are lists; the [_id] of a document is its
      position.  Documents are never deleted by the code under study.
    - One run of the job reads the clock once: every [new Date()] of a run
      yields the same instant [now].
    - Request bodies are well typed and the users a document refers to
      exist.  Saving an application or an order fails only on the
      schema's status enum; saving a ledger entry fails when the
      environment says so. *)

From Stdlib Require Import ZArith QArith Qround Lia Lqa String.
From stdpp Require Import base list option.

Local Open Scope Z_scope.

(** ** JavaScript dates *)

Module JsDate.

(** Time values: local-time milliseconds. *)
Abbreviation Date := Z (only parsing).

Definition msPerDay : Z := 24 * 60 * 60 * 1000.

Definition Day (t : Date) : Z := t / msPerDay.
Definition TimeWithinDay (t : Date) : Z := t mod msPerDay.

(** Day number of the civil date y-m-d (m in 1..12) and its inverse, for
    the proleptic Gregorian calendar; day 0 is 1970-01-01. *)
Definition daysFromCivil (y m d : Z) : Z :=
  let y' := if m <=? 2 then y - 1 else y in
  let era := y' / 400 in
  let yoe := y' - era * 400 in
  let mp := if 2 <? m then m - 3 else m + 9 in
  let doy := (153 * mp + 2) / 5 + d - 1 in
  let doe := yoe * 365 + yoe / 4 - yoe / 100 + doy in
  era * 146097 + doe - 719468.

Definition civilFromDays (z : Z) : Z * Z * Z :=
  let z' := z + 719468 in
  let era := z' / 146097 in
  let doe := z' - era * 146097 in
  let yoe := (doe - doe / 1460 + doe / 36524 - doe / 146096) / 365 in
  let y := yoe + era * 400 in
  let doy := doe - (365 * yoe + yoe / 4 - yoe / 100) in
  let mp := (5 * doy + 2) / 153 in
  let d := doy - (153 * mp + 2) / 5 + 1 in
  let m := if mp <? 10 then mp + 3 else mp - 9 in
  (if m <=? 2 then y + 1 else y, m, d).

Definition getFullYear (t : Date) : Z := fst (fst (civilFromDays (Day t))).
(** [getMonth] is 0-based, as in JavaScript. *)
Definition getMonth (t : Date) : Z := snd (fst (civilFromDays (Day t))) - 1.
Definition getDate (t : Date) : Z := snd (civilFromDays (Day t)).

(** ECMAScript MakeDay: the month may lie outside 0..11 and the date
    outside the month; both overflow into the neighbouring months. *)
Definition MakeDay (year month date : Z) : Z :=
  daysFromCivil (year + month / 12) (month mod 12 + 1) 1 + date - 1.

Definition MakeDate (day time : Z) : Date := day * msPerDay + time.

Definition setMonth (t : Date) (month : Z) : Date :=
  MakeDate (MakeDay (getFullYear t) month (getDate t)) (TimeWithinDay t).

Definition setDate (t : Date) (date : Z) : Date :=
  MakeDate (MakeDay (getFullYear t) (getMonth t) date) (TimeWithinDay t).

(** [d.setHours(0, 0, 0, 0)] *)
Definition setHoursZero (t : Date) : Date := MakeDate (Day t) 0.

(** [d.setDate(d.getDate() + k)] *)
Definition addDays (t : Date) (k : Z) : Date := setDate t (getDate t + k).

(** A date given by its local calendar fields, for examples. *)
Definition ofCivil (y m d : Z) (timeOfDay : Z) : Date :=
  MakeDate (daysFromCivil y m d) timeOfDay.

Definition civil (t : Date) : Z * Z * Z := civilFromDays (Day t).

End JsDate.

Import JsDate.

(** ** Data model *)

(** A document identifier: the position in its collection. *)
Abbreviation ObjectId := nat (only parsing).

Module EmiPlan.

Record t := mk {
  name : string;
  tenure : Z;
  interestRate : Q;
  processingFee : Q;
  minOrderAmount : Q;
  maxOrderAmount : option Q;
  isActive : bool
}.

(** [emiPlanSchema.methods.calculateEMI]; [Math.ceil] is [Qceiling].
    The no-cost branch is the code's [Math.ceil(P / N)].  The interest
    branch is the annuity formula over the rationals; the code evaluates
    it in IEEE doubles with [Math.pow], and its result can differ from the
    exact one, for rates close to zero by far more than a unit.  No
    property below depends on the value of that branch.  For [N = 0] the
    code yields [Infinity], which [/apply] never stores: it fails in
    [generateSchedule] first. *)
Definition calculateEMI (this : t) (principal : Q) : Z :=
  let P := principal in
  let R := (interestRate this / 12 / 100)%Q in
  let N := tenure this in
  if Qeq_bool R 0 then
    Qceiling (P / inject_Z N)
  else
    let emi := (P * R * (1 + R) ^ N / ((1 + R) ^ N - 1))%Q in
    Qceiling emi.

End EmiPlan.

Module Installment.

Inductive Status := pending | paid | overdue | failed.

Definition Status_eqb (a b : Status) : bool :=
  match a, b with
  | pending, pending | paid, paid | overdue, overdue | failed, failed => true
  | _, _ => false
  end.

Record t := mk {
  installmentNumber : Z;
  dueDate : Date;
  amount : Z;
  status : Status;
  paidDate : option Date;
  transactionId : option string;
  paymentMethod : option string
}.

End Installment.

Module EmiApplication.

(** The schema's enum, and [cancelled], which the refund handler assigns
    although the enum does not list it. *)
Inductive Status :=
  pending | approved | rejected | active | completed | defaulted | cancelled.

Definition Status_eqb (a b : Status) : bool :=
  match a, b with
  | pending, pending | approved, approved | rejected, rejected
  | active, active | completed, completed | defaulted, defaulted
  | cancelled, cancelled => true
  | _, _ => false
  end.

Definition inEnum (s : Status) : bool :=
  match s with cancelled => false | _ => true end.

Record t := mk {
  userId : ObjectId;
  orderId : ObjectId;
  emiPlanId : ObjectId;
  principalAmount : Q;
  totalInterest : Q;
  processingFee : Q;
  totalAmount : Q;
  tenure : Z;
  monthlyEmi : Z;
  status : Status;
  installments : list Installment.t;
  paidInstallments : Z;
  remainingInstallments : Z;
  nextDueDate : option Date;
  approvedAt : option Date;
  completedAt : option Date
}.

Definition set_status (s : Status) (a : t) : t :=
  mk (userId a) (orderId a) (emiPlanId a) (principalAmount a)
     (totalInterest a) (processingFee a) (totalAmount a) (tenure a)
     (monthlyEmi a) s (installments a) (paidInstallments a)
     (remainingInstallments a) (nextDueDate a) (approvedAt a)
     (completedAt a).

Definition set_approvedAt (d : option Date) (a : t) : t :=
  mk (userId a) (orderId a) (emiPlanId a) (principalAmount a)
     (totalInterest a) (processingFee a) (totalAmount a) (tenure a)
     (monthlyEmi a) (status a) (installments a) (paidInstallments a)
     (remainingInstallments a) (nextDueDate a) d (completedAt a).

Definition set_completedAt (d : option Date) (a : t) : t :=
  mk (userId a) (orderId a) (emiPlanId a) (principalAmount a)
     (totalInterest a) (processingFee a) (totalAmount a) (tenure a)
     (monthlyEmi a) (status a) (installments a) (paidInstallments a)
     (remainingInstallments a) (nextDueDate a) (approvedAt a) d.

(** The three assignments that end [generateSchedule]. *)
Definition set_schedule (insts : list Installment.t) (remaining : Z)
    (next : option Date) (a : t) : t :=
  mk (userId a) (orderId a) (emiPlanId a) (principalAmount a)
     (totalInterest a) (processingFee a) (totalAmount a) (tenure a)
     (monthlyEmi a) (status a) insts (paidInstallments a)
     remaining next (approvedAt a) (completedAt a).

(** The summary update of the pay handler. *)
Definition set_summary (insts : list Installment.t) (paidN remaining : Z)
    (next : option Date) (a : t) : t :=
  mk (userId a) (orderId a) (emiPlanId a) (principalAmount a)
     (totalInterest a) (processingFee a) (totalAmount a) (tenure a)
     (monthlyEmi a) (status a) insts paidN remaining next (approvedAt a)
     (completedAt a).

(** The due date the loop body computes for ordinal [i]:
    [new Date(startDate); setMonth(getMonth() + i); setDate(5)]. *)
Definition dueDateOf (startDate : Date) (i : Z) : Date :=
  let dueDate := startDate in
  let dueDate := setMonth dueDate (getMonth dueDate + i) in
  setDate dueDate 5.

(** The array built by [for (let i = 1; i <= this.tenure; i++)]. *)
Definition scheduleOf (this : t) (startDate : Date) : list Installment.t :=
  (fun i : nat =>
     Installment.mk (Z.of_nat i) (dueDateOf startDate (Z.of_nat i))
       (monthlyEmi this) Installment.pending None None None)
    <$> seq 1 (Z.to_nat (tenure this)).

(** [emiApplicationSchema.methods.generateSchedule]; [startDate] is the
    [new Date()] of the call.  [None] is the TypeError raised by
    [installments[0].dueDate] when the loop pushed nothing. *)
Definition generateSchedule (startDate : Date) (this : t) : option t :=
  let installments := scheduleOf this startDate in
  match installments with
  | [] => None
  | first :: _ =>
      Some (set_schedule installments (tenure this)
              (Some (Installment.dueDate first)) this)
  end.

End EmiApplication.

Module PenaltyLedger.

Inductive Status := pending | grace_period | overdue | paid | waived.

Definition Status_eqb (a b : Status) : bool :=
  match a, b with
  | pending, pending | grace_period, grace_period | overdue, overdue
  | paid, paid | waived, waived => true
  | _, _ => false
  end.

Inductive NotificationType :=
  | reminder_3_days | due_today | payment_failed
  | overdue_1_day | overdue_grace_ended | penalty_applied.

Definition NotificationType_eqb (a b : NotificationType) : bool :=
  match a, b with
  | reminder_3_days, reminder_3_days | due_today, due_today
  | payment_failed, payment_failed | overdue_1_day, overdue_1_day
  | overdue_grace_ended, overdue_grace_ended
  | penalty_applied, penalty_applied => true
  | _, _ => false
  end.

Inductive Channel := push | sms | email | whatsapp.
Inductive DeliveryStatus := sent | delivered | delivery_failed.

(** One element of the embedded [notifications] array. *)
Record Notification := mkNotification {
  type : NotificationType;
  sentAt : Date;
  channel : Channel;
  nstatus : DeliveryStatus
}.

Record t := mk {
  emiApplicationId : ObjectId;
  userId : ObjectId;
  installmentNo : Z;
  originalAmount : Z;
  dueDate : Date;
  missedDate : option Date;
  penaltyRate : Q;
  daysOverdue : Z;
  penaltyAmount : Z;
  totalPayable : option Z;
  gracePeriodDays : Z;
  isInGracePeriod : bool;
  status : Status;
  paidAmount : option Z;
  paidDate : option Date;
  paymentReference : option string;
  notifications : list Notification
}.

Definition set_status (s : Status) (l : t) : t :=
  mk (emiApplicationId l) (userId l) (installmentNo l) (originalAmount l)
     (dueDate l) (missedDate l) (penaltyRate l) (daysOverdue l)
     (penaltyAmount l) (totalPayable l) (gracePeriodDays l)
     (isInGracePeriod l) s (paidAmount l) (paidDate l)
     (paymentReference l) (notifications l).

Definition set_isInGracePeriod (b : bool) (l : t) : t :=
  mk (emiApplicationId l) (userId l) (installmentNo l) (originalAmount l)
     (dueDate l) (missedDate l) (penaltyRate l) (daysOverdue l)
     (penaltyAmount l) (totalPayable l) (gracePeriodDays l)
     b (status l) (paidAmount l) (paidDate l)
     (paymentReference l) (notifications l).

Definition set_missedDate (d : option Date) (l : t) : t :=
  mk (emiApplicationId l) (userId l) (installmentNo l) (originalAmount l)
     (dueDate l) d (penaltyRate l) (daysOverdue l)
     (penaltyAmount l) (totalPayable l) (gracePeriodDays l)
     (isInGracePeriod l) (status l) (paidAmount l) (paidDate l)
     (paymentReference l) (notifications l).

(** The assignments of the two branches of [calculatePenalty]. *)
Definition set_penalty (inGrace : bool) (days amount : Z)
    (total : option Z) (l : t) : t :=
  mk (emiApplicationId l) (userId l) (installmentNo l) (originalAmount l)
     (dueDate l) (missedDate l) (penaltyRate l) days
     amount total (gracePeriodDays l)
     inGrace (status l) (paidAmount l) (paidDate l)
     (paymentReference l) (notifications l).

(** [ledger.notifications.push({type, sentAt, channel: 'push',
    status: 'sent'})] *)
Definition push_notification (ty : NotificationType) (at_ : Date) (l : t)
    : t :=
  mk (emiApplicationId l) (userId l) (installmentNo l) (originalAmount l)
     (dueDate l) (missedDate l) (penaltyRate l) (daysOverdue l)
     (penaltyAmount l) (totalPayable l) (gracePeriodDays l)
     (isInGracePeriod l) (status l) (paidAmount l) (paidDate l)
     (paymentReference l)
     (notifications l ++ [mkNotification ty at_ push sent]).

(** [ledger.notifications.some(n => n.type === ty)] *)
Definition hasNotification (ty : NotificationType) (l : t) : bool :=
  existsb (fun n => NotificationType_eqb (type n) ty) (notifications l).

(** [new PenaltyLedger({...})] of the upcoming pass: the given fields and
    the schema defaults. *)
Definition create (app user : ObjectId) (no amount : Z) (due : Date) : t :=
  mk app user no amount due None (1 # 10) 0 0 None 3 true pending
     None None None [].

(** [Math.round]: the nearest integer, halves rounded up.  The code
    rounds the product as computed in doubles, which can lie on the other
    side of a half than the exact product; no property below depends on
    the unit that this decides. *)
Definition round (x : Q) : Z := Qfloor (x + (1 # 2)).

(** [penaltyLedgerSchema.methods.calculatePenalty], as the document it
    leaves behind; [now] is the method's [new Date()].  The callers
    ignore the returned number, which is [penaltyAmount] of the result
    (0 on the first return). *)
Definition calculatePenalty (now : Date) (this : t) : t :=
  match status this with
  | paid | waived => this
  | _ =>
      let gracePeriodEnd := addDays (dueDate this) (gracePeriodDays this) in
      if now <=? gracePeriodEnd then
        set_penalty true 0 0 (totalPayable this) this
      else
        let daysOverdue := (now - gracePeriodEnd) / msPerDay in
        let penaltyAmount :=
          round (inject_Z (originalAmount this)
                 * (penaltyRate this / 100) * inject_Z daysOverdue)%Q in
        set_penalty false daysOverdue penaltyAmount
          (Some (originalAmount this + penaltyAmount)) this
  end.

End PenaltyLedger.

Module UserKyc.

Inductive VerificationStatus := pending | under_review | verified | rejected.

Record t := mk {
  userId : ObjectId;
  verificationStatus : VerificationStatus;
  creditLimit : Q
}.

Definition isVerified (k : t) : bool :=
  match verificationStatus k with verified => true | _ => false end.

End UserKyc.

Module Order.

(** [orderStatus]: the schema's enum, and [refunded], which the refund
    handler assigns although the enum does not list it. *)
Inductive Status :=
  pending | processing | shipped | delivered | cancelled | refunded.

Definition inEnum (s : Status) : bool :=
  match s with refunded => false | _ => true end.

End Order.

(** ** The store, faults and handler effects *)

(** One call of [sendNotification]: the addressee, the template, and
    whether the [Notification] record was stored.  The function catches
    its own errors, so a failed store is reported here and nowhere else. *)
Record Sent := mkSent {
  to : ObjectId;
  template : PenaltyLedger.NotificationType;
  stored : bool
}.

(** The collections the core reads and writes, and the calls made to the
    notification sink so far. *)
Record World := mkWorld {
  plans : list EmiPlan.t;
  kycs : list UserKyc.t;
  apps : list EmiApplication.t;
  ledgers : list PenaltyLedger.t;
  outbox : list Sent
}.

Definition set_apps (f : list EmiApplication.t → list EmiApplication.t)
    (w : World) : World :=
  mkWorld (plans w) (kycs w) (f (apps w)) (ledgers w) (outbox w).

Definition set_ledgers (f : list PenaltyLedger.t → list PenaltyLedger.t)
    (w : World) : World :=
  mkWorld (plans w) (kycs w) (apps w) (f (ledgers w)) (outbox w).

Definition set_outbox (f : list Sent → list Sent) (w : World) : World :=
  mkWorld (plans w) (kycs w) (apps w) (ledgers w) (f (outbox w)).

(** What the environment does to a run: which notification stores fail and
    which ledger documents (by [_id]) cannot be saved. *)
Record Faults := mkFaults {
  sinkFails : ObjectId → PenaltyLedger.NotificationType → bool;
  ledgerSaveFails : nat → bool
}.

Definition noFaults : Faults := mkFaults (λ _ _, false) (λ _, false).

Inductive Error := TypeError | ValidationError | PersistenceError.

Inductive outcome (A : Type) :=
  | Done (a : A)
  | Thrown (e : Error).
Arguments Done {A} a.
Arguments Thrown {A} e.

(** Handlers and passes: a state transformer that returns or throws. *)
Definition M (A : Type) : Type := World → outcome A * World.

#[global] Instance M_ret : MRet M := λ A a w, (Done a, w).

#[global] Instance M_bind : MBind M := λ A B f m w,
  match m w with
  | (Done a, w') => f a w'
  | (Thrown e, w') => (Thrown e, w')
  end.

Definition throw {A} (e : Error) : M A := λ w, (Thrown e, w).
Definition gets {A} (f : World → A) : M A := λ w, (Done (f w), w).
Definition modify (f : World → World) : M unit := λ w, (Done tt, f w).

(** [try { body } catch (error) { console.error(...) }] *)
Definition tryCatch (body : M unit) : M unit := λ w,
  match body w with
  | (Done _, w') => (Done tt, w')
  | (Thrown _, w') => (Done tt, w')
  end.

(** [for (const x of xs) { body }] *)
Fixpoint forOf {A} (xs : list A) (body : A → M unit) : M unit :=
  match xs with
  | [] => mret tt
  | x :: rest => body x;; forOf rest body
  end.

(** Documents of a collection with their [_id]. *)
Definition documents {A} (coll : list A) : list (nat * A) := imap pair coll.

(** [Model.find(query)]: the matching documents, in collection order. *)
Definition find {A} (coll : World → list A) (query : A → bool)
    : M (list (nat * A)) :=
  gets (λ w, filter (λ d, query d.2) (documents (coll w))).

(** [Model.findOne(query)]: the first matching document, or null. *)
Definition findOne {A} (coll : World → list A) (query : A → bool)
    : M (option (nat * A)) :=
  gets (λ w, list_find (λ x, query x) (coll w)).

(** [Model.findById(id)] *)
Definition findById {A} (coll : World → list A) (id : ObjectId)
    : M (option A) :=
  gets (λ w, coll w !! id).

(** [ledger.save()] for a document read from the collection ([Some id])
    or built with [new] ([None]). *)
Definition saveLedger (env : Faults) (id : option nat)
    (doc : PenaltyLedger.t) : M unit := λ w,
  match id with
  | Some i =>
      if ledgerSaveFails env i then (Thrown PersistenceError, w)
      else (Done tt, set_ledgers (λ ls, <[i := doc]> ls) w)
  | None =>
      if ledgerSaveFails env (length (ledgers w))
      then (Thrown PersistenceError, w)
      else (Done tt, set_ledgers (λ ls, ls ++ [doc]) w)
  end.

(** [application.save()]: mongoose validates [status] against the enum. *)
Definition saveApplication (id : option nat) (doc : EmiApplication.t)
    : M unit :=
  if EmiApplication.inEnum (EmiApplication.status doc) then
    match id with
    | Some i => modify (set_apps (λ l, <[i := doc]> l))
    | None => modify (set_apps (λ l, l ++ [doc]))
    end
  else throw ValidationError.

(** [order.save()] after [order.orderStatus = orderStatus]: mongoose
    validates the status against the enum.  Orders are outside the
    store. *)
Definition saveOrder (orderStatus : Order.Status) : M unit :=
  if Order.inEnum orderStatus then mret tt else throw ValidationError.

(** ** routes/emi.js *)

Module Routes.

(** The status code of the response.  An error thrown inside
    [asyncHandler] reaches the error middleware; it is the [Thrown]
    outcome of the handler. *)
Abbreviation Response := Z (only parsing).

(** [new EmiApplication({...})] of the apply handler: the given fields and
    the schema defaults. *)
Definition newApplication (userId orderId emiPlanId : ObjectId)
    (principalAmount : Q) (plan : EmiPlan.t) : EmiApplication.t :=
  let monthlyEmi := EmiPlan.calculateEMI plan principalAmount in
  let totalAmount :=
    (inject_Z monthlyEmi * inject_Z (EmiPlan.tenure plan))%Q in
  let totalInterest := (totalAmount - principalAmount)%Q in
  EmiApplication.mk userId orderId emiPlanId principalAmount
    totalInterest (EmiPlan.processingFee plan)
    (totalAmount + EmiPlan.processingFee plan)%Q
    (EmiPlan.tenure plan) monthlyEmi EmiApplication.approved
    [] 0 0 None None None.

(** [POST /apply]; the body carries [orderId], [emiPlanId] and
    [principalAmount] and no tenure.  [now] is the clock of the request. *)
Definition apply (now : Date) (userId orderId emiPlanId : ObjectId)
    (principalAmount : Q) : M Response :=
  kyc ← findOne kycs (λ k, Nat.eqb (UserKyc.userId k) userId);
  match kyc with
  | None => mret 400
  | Some (_, kyc) =>
      if negb (UserKyc.isVerified kyc) then mret 400
      else if negb (Qle_bool principalAmount (UserKyc.creditLimit kyc))
      then mret 400
      else
        plan ← findById plans emiPlanId;
        match plan with
        | None => mret 404
        | Some plan =>
            let application :=
              newApplication userId orderId emiPlanId principalAmount plan in
            match EmiApplication.generateSchedule now application with
            | None => throw TypeError
            | Some application =>
                let application :=
                  EmiApplication.set_approvedAt (Some now) application in
                saveApplication None application;;
                mret 201
            end
        end
  end.

(** The installment object after the four assignments of the handler. *)
Definition markPaid (now : Date) (transactionId paymentMethod : option string)
    (i : Installment.t) : Installment.t :=
  Installment.mk (Installment.installmentNumber i) (Installment.dueDate i)
    (Installment.amount i) Installment.paid (Some now)
    transactionId paymentMethod.

(** [installments.find(i => i.status === 'pending')] and its due date. *)
Definition nextPendingDueDate (l : list Installment.t) : option Date :=
  Installment.dueDate <$>
    head (filter (λ i, Installment.Status_eqb (Installment.status i)
                         Installment.pending) l).

(** The application document after the handler's updates: the installment
    at position [k] marked paid, the summary counters, the next due date
    and the completion check. *)
Definition recordPayment (now : Date)
    (transactionId paymentMethod : option string) (k : nat)
    (installment : Installment.t) (application : EmiApplication.t)
    : EmiApplication.t :=
  let installments :=
    <[k := markPaid now transactionId paymentMethod installment]>
      (EmiApplication.installments application) in
  let application :=
    EmiApplication.set_summary installments
      (EmiApplication.paidInstallments application + 1)
      (EmiApplication.remainingInstallments application - 1)
      (nextPendingDueDate installments) application in
  if EmiApplication.remainingInstallments application =? 0
  then EmiApplication.set_completedAt (Some now)
         (EmiApplication.set_status EmiApplication.completed application)
  else application.

(** [POST /pay/:applicationId/:installmentNumber] *)
Definition pay (now : Date) (userId applicationId : ObjectId)
    (installmentNumber : Z) (transactionId paymentMethod : option string)
    : M Response :=
  application ← findById apps applicationId;
  match application with
  | None => mret 404
  | Some application =>
      if negb (Nat.eqb (EmiApplication.userId application) userId)
      then mret 404
      else
        match list_find
                (λ i, Installment.installmentNumber i = installmentNumber)
                (EmiApplication.installments application) with
        | None => mret 404
        | Some (k, installment) =>
            if Installment.Status_eqb (Installment.status installment)
                 Installment.paid
            then mret 400
            else
              saveApplication (Some applicationId)
                (recordPayment now transactionId paymentMethod k installment
                   application);;
              mret 200
        end
  end.

(** [try { ... } catch (error) { res.status(500)... }] of a handler. *)
Definition answering500 (body : M Response) : M Response := λ w,
  match body w with
  | (Done r, w') => (Done r, w')
  | (Thrown _, w') => (Done 500, w')
  end.

(** [POST /refund/:orderId] (routes/merchant.js) from the point where the
    order and its settlement have been found and the settlement, not yet
    refunded, refers to application [applicationId].  The handler reads
    the application, saves the settlement as refunded (settlements are
    outside the store) and assigns [orderStatus = 'refunded']; saving the
    order is rejected by the order schema, so the handler answers 500
    before it reaches the lines that assign [status = 'cancelled'] and
    save the application. *)
Definition refund (applicationId : ObjectId) : M Response :=
  answering500 (
    emiApplication ← findById apps applicationId;
    saveOrder Order.refunded;;
    match emiApplication with
    | None => mret 200
    | Some emiApplication =>
        saveApplication (Some applicationId)
          (EmiApplication.set_status EmiApplication.cancelled
             emiApplication);;
        mret 200
    end).

End Routes.

(** ** cron/paymentReminder.js *)

Module Cron.

Import PenaltyLedger.

(** [sendNotification]: every template used below exists; a failing
    store is caught inside the function. *)
Definition sendNotification (env : Faults) (userId : ObjectId)
    (ty : NotificationType) : M unit :=
  modify (set_outbox (λ o, o ++ [mkSent userId ty
                                   (negb (sinkFails env userId ty))])).

(** A query field compared with [emi.nextDueDate]. *)
Definition dateIs (d : option Date) (x : Date) : bool :=
  match d with Some d => x =? d | None => false end.

(** [{ $gte: lo, $lt: hi }] on a possibly null date. *)
Definition dateWithin (lo hi : Date) (d : option Date) : bool :=
  match d with Some d => (lo <=? d) && (d <? hi) | None => false end.

Definition isActive (a : EmiApplication.t) : bool :=
  EmiApplication.Status_eqb (EmiApplication.status a) EmiApplication.active.

(** [{ emiApplicationId: emi._id, dueDate: emi.nextDueDate }] *)
Definition ledgerOf (id : ObjectId) (due : option Date)
    (l : PenaltyLedger.t) : bool :=
  Nat.eqb (emiApplicationId l) id && dateIs due (dueDate l).

(** The loop body of [processUpcomingReminders]. *)
Definition upcomingEntry (env : Faults) (now : Date)
    (emi : nat * EmiApplication.t) : M unit :=
  let '(id, emi) := emi in
  existingLedger ← findOne ledgers (λ l,
    ledgerOf id (EmiApplication.nextDueDate emi) l
    && hasNotification reminder_3_days l);
  match existingLedger with
  | Some _ => mret tt
  | None =>
      ledger ← findOne ledgers
        (ledgerOf id (EmiApplication.nextDueDate emi));
      sendNotification env (EmiApplication.userId emi) reminder_3_days;;
      match ledger, EmiApplication.nextDueDate emi with
      | Some (lid, ledger), _ =>
          saveLedger env (Some lid)
            (push_notification reminder_3_days now ledger)
      | None, Some due =>
          saveLedger env None
            (push_notification reminder_3_days now
               (create id (EmiApplication.userId emi)
                  (EmiApplication.paidInstallments emi + 1)
                  (EmiApplication.monthlyEmi emi) due))
      | None, None =>
          (* a new ledger without its required [dueDate] *)
          throw ValidationError
      end
  end.

(** [{ status: 'active', nextDueDate: { $gte: lo, $lt: hi } }] *)
Definition activeDueWithin (lo hi : Date) (a : EmiApplication.t) : bool :=
  isActive a && dateWithin lo hi (EmiApplication.nextDueDate a).

Definition processUpcomingReminders (env : Faults) (now : Date) : M unit :=
  let threeDaysFromNow := setHoursZero (addDays now 3) in
  let nextDay := addDays threeDaysFromNow 1 in
  upcomingEmis ← find apps (activeDueWithin threeDaysFromNow nextDay);
  forOf upcomingEmis (upcomingEntry env now).

(** The loop body of [processDueDateReminders]. *)
Definition dueTodayEntry (env : Faults) (now : Date)
    (emi : nat * EmiApplication.t) : M unit :=
  let '(id, emi) := emi in
  ledger ← findOne ledgers (ledgerOf id (EmiApplication.nextDueDate emi));
  match ledger with
  | Some (lid, ledger) =>
      if hasNotification due_today ledger then mret tt
      else
        sendNotification env (EmiApplication.userId emi) due_today;;
        saveLedger env (Some lid) (push_notification due_today now ledger)
  | None =>
      sendNotification env (EmiApplication.userId emi) due_today
  end.

Definition processDueDateReminders (env : Faults) (now : Date) : M unit :=
  let today := setHoursZero now in
  let tomorrow := addDays today 1 in
  dueToday ← find apps (activeDueWithin today tomorrow);
  forOf dueToday (dueTodayEntry env now).

(** [status: { $in: ['pending', 'grace_period', 'overdue'] }] *)
Definition isOpen (s : Status) : bool :=
  match s with pending | grace_period | overdue => true | _ => false end.

(** [EmiApplication.findByIdAndUpdate(id, { status: 'defaulted' })],
    guarded by the populated reference being non-null. *)
Definition markDefaulted (applicationId : ObjectId) : M unit :=
  modify (set_apps (λ l,
    alter (EmiApplication.set_status EmiApplication.defaulted)
      applicationId l)).

(** The loop body of [processOverdueEmis]. *)
Definition overdueEntry (env : Faults) (today now : Date)
    (doc : nat * PenaltyLedger.t) : M unit :=
  let '(id, ledger) := doc in
  let dueDate := dueDate ledger in
  let daysSinceDue := (today - dueDate) / msPerDay in
  (* Day 1 after due date *)
  ledger ←
    (if (daysSinceDue =? 1) && negb (hasNotification overdue_1_day ledger)
     then
       let ledger := set_status grace_period ledger in
       sendNotification env (userId ledger) overdue_1_day;;
       mret (push_notification overdue_1_day now ledger)
     else mret ledger);
  (* Day 3+ (grace period ends) *)
  ledger ←
    (if (3 <=? daysSinceDue) && isInGracePeriod ledger then
       let ledger := set_isInGracePeriod false ledger in
       let ledger := set_status overdue ledger in
       let ledger := set_missedDate (Some dueDate) ledger in
       let ledger := calculatePenalty now ledger in
       match totalPayable ledger with
       | None =>
           (* [ledger.totalPayable.toLocaleString] on undefined *)
           throw TypeError
       | Some _ =>
           sendNotification env (userId ledger) overdue_grace_ended;;
           let ledger := push_notification overdue_grace_ended now ledger in
           markDefaulted (emiApplicationId ledger);;
           mret ledger
       end
     else mret ledger);
  (* penalty of entries past their grace period *)
  let ledger :=
    if negb (isInGracePeriod ledger) then calculatePenalty now ledger
    else ledger in
  saveLedger env (Some id) ledger.

(** [{ dueDate: { $lt: today }, status: { $in: [...] } }] *)
Definition overdueQuery (today : Date) (l : PenaltyLedger.t) : bool :=
  (dueDate l <? today) && isOpen (status l).

Definition processOverdueEmis (env : Faults) (now : Date) : M unit :=
  let today := setHoursZero now in
  overdueLedgers ← find ledgers (overdueQuery today);
  forOf overdueLedgers (overdueEntry env today now).

Definition runPaymentReminderJob (env : Faults) (now : Date) : M unit :=
  tryCatch (
    processUpcomingReminders env now;;
    processDueDateReminders env now;;
    processOverdueEmis env now).

End Cron.

(** ** The operations that write the store *)

(** One request or one run of the job.  Plans are created by the admin
    handler [POST /plans] from the request body, and KYC records are
    written by the KYC handlers; both are arbitrary here. *)
Inductive Step : World → World → Prop :=
  | step_plan (p : EmiPlan.t) (w : World) :
      Step w (mkWorld (plans w ++ [p]) (kycs w) (apps w) (ledgers w)
                (outbox w))
  | step_kyc (ks : list UserKyc.t) (w : World) :
      Step w (mkWorld (plans w) ks (apps w) (ledgers w) (outbox w))
  | step_apply (now : Date) (userId orderId emiPlanId : ObjectId)
      (principalAmount : Q) (w : World) :
      Step w (Routes.apply now userId orderId emiPlanId principalAmount w).2
  | step_pay (now : Date) (userId applicationId : ObjectId) (k : Z)
      (transactionId paymentMethod : option string) (w : World) :
      Step w (Routes.pay now userId applicationId k transactionId
                paymentMethod w).2
  | step_refund (applicationId : ObjectId) (w : World) :
      Step w (Routes.refund applicationId w).2
  | step_job (env : Faults) (now : Date) (w : World) :
      Step w (Cron.runPaymentReminderJob env now w).2.

(** The stores the system can be in, starting without applications and
    ledger entries. *)
Inductive Reachable : World → Prop :=
  | reach_init (w : World) :
      apps w = [] → ledgers w = [] → Reachable w
  | reach_step (w w' : World) :
      Reachable w → Step w w' → Reachable w'.

(** * Vocabulary of the properties *)

Section Vocabulary.

Import PenaltyLedger.

Definition preserves {A} (P : World → Prop) (m : M A) : Prop :=
  ∀ w, P w → P (m w).2.

(** The counters add up to the tenure and [nextDueDate] is the due date of
    the first pending installment, or null. *)
Definition summaryConsistent (a : EmiApplication.t) : Prop :=
  EmiApplication.paidInstallments a + EmiApplication.remainingInstallments a
  = EmiApplication.tenure a
  ∧ EmiApplication.nextDueDate a
    = Routes.nextPendingDueDate (EmiApplication.installments a).

Definition neverActive (a : EmiApplication.t) : Prop :=
  EmiApplication.status a ≠ EmiApplication.active.

Definition daysSinceDue (today : Date) (l : PenaltyLedger.t) : Z :=
  (today - dueDate l) / msPerDay.

(** The entry after the block "Day 1 after due date". *)
Definition dayOne (today now : Date) (l : PenaltyLedger.t) : PenaltyLedger.t :=
  if (daysSinceDue today l =? 1) && negb (hasNotification overdue_1_day l)
  then push_notification overdue_1_day now (set_status grace_period l)
  else l.

(** The guard of the block "Day 3+", read after the first block. *)
Definition graceEnds (today now : Date) (l : PenaltyLedger.t) : bool :=
  (3 <=? daysSinceDue today l) && isInGracePeriod (dayOne today now l).

(** The entry of that block when it calls [sendNotification]. *)
Definition graceEnded (today now : Date) (l : PenaltyLedger.t)
    : PenaltyLedger.t :=
  calculatePenalty now
    (set_missedDate (Some (dueDate l))
       (set_status overdue
          (set_isInGracePeriod false (dayOne today now l)))).

(** The entry as the pass saves it. *)
Definition afterOverdue (today now : Date) (l : PenaltyLedger.t)
    : PenaltyLedger.t :=
  let l2 :=
    if graceEnds today now l
    then push_notification overdue_grace_ended now (graceEnded today now l)
    else dayOne today now l in
  if negb (isInGracePeriod l2) then calculatePenalty now l2 else l2.

(** The notifications the pass sends for the entry. *)
Definition overdueSends (env : Faults) (today now : Date)
    (l : PenaltyLedger.t) : list Sent :=
  (if (daysSinceDue today l =? 1) && negb (hasNotification overdue_1_day l)
   then [mkSent (userId l) overdue_1_day
           (negb (sinkFails env (userId l) overdue_1_day))]
   else [])
  ++ (if graceEnds today now l
      then [mkSent (userId l) overdue_grace_ended
              (negb (sinkFails env (userId l) overdue_grace_ended))]
      else []).

(** The application collection after the entry. *)
Definition overdueApps (today now : Date) (l : PenaltyLedger.t)
    (coll : list EmiApplication.t) : list EmiApplication.t :=
  if graceEnds today now l
  then alter (EmiApplication.set_status EmiApplication.defaulted)
         (emiApplicationId l) coll
  else coll.

(** The entry does not run into [undefined.toLocaleString]. *)
Definition totalKnown (today now : Date) (l : PenaltyLedger.t) : Prop :=
  graceEnds today now l = true →
  is_Some (totalPayable (graceEnded today now l)).

(** What the pass leaves in the ledger collection. *)
Definition overdueUpdate (today now : Date) (l : PenaltyLedger.t)
    : PenaltyLedger.t :=
  if Cron.overdueQuery today l then afterOverdue today now l else l.

(** Every entry of the store is on the schema's three-day grace period,
    the only value the code ever stores. *)
Definition regular (w : World) : Prop :=
  Forall (λ l, PenaltyLedger.gracePeriodDays l = 3) (ledgers w).

(** The run does not start on the very millisecond of local midnight. *)
Definition afterMidnight (now : Date) : Prop := setHoursZero now < now.

(** Some entry of (application, due date) logs the 3-day reminder. *)
Definition Reminded (id : ObjectId) (due : option Date)
    (coll : list PenaltyLedger.t) : Prop :=
  ∃ l, l ∈ coll
       ∧ Cron.ledgerOf id due l && hasNotification reminder_3_days l = true.

(** The entry of (application, due date) exists ... *)
Definition HasLedger (id : ObjectId) (due : option Date)
    (coll : list PenaltyLedger.t) : Prop :=
  is_Some (list_find (λ l, Cron.ledgerOf id due l) coll).

(** ... and logs the due-today notification. *)
Definition DueNoted (id : ObjectId) (due : option Date)
    (coll : list PenaltyLedger.t) : Prop :=
  ∃ lid l, list_find (λ l, Cron.ledgerOf id due l) coll = Some (lid, l)
           ∧ hasNotification due_today l = true.

(** The due date the schedule is meant to give ordinal [i]: the 5th of
    the [i]-th calendar month after the month of [start]. *)
Definition intendedDue (start : Date) (i : Z) : Z * Z * Z :=
  let months := getFullYear start * 12 + getMonth start + i in
  (months / 12, months mod 12 + 1, 5).

(** The first [n] due dates computed from [start] are the intended ones. *)
Definition scheduleAsIntended (start : Date) (n : nat) : bool :=
  forallb
    (λ i : nat,
       let '(y, m, d) := civil (EmiApplication.dueDateOf start (Z.of_nat i)) in
       let '(y', m', d') := intendedDue start (Z.of_nat i) in
       (y =? y') && (m =? m') && (d =? d'))
    (seq 1 n).

(** The overdue pass run once a day at time of day [r], on each of the
    [k] days that follow the day starting at [D]. *)
Fixpoint dailyRuns (env : Faults) (D r : Z) (k : nat) (w : World) : World :=
  match k with
  | O => w
  | S k' =>
      (Cron.processOverdueEmis env (D + Z.of_nat k * msPerDay + r)
         (dailyRuns env D r k' w)).2
  end.

(** What those runs make of one entry. *)
Fixpoint entryAfter (D r : Z) (k : nat) (l : PenaltyLedger.t)
    : PenaltyLedger.t :=
  match k with
  | O => l
  | S k' =>
      overdueUpdate (D + Z.of_nat k * msPerDay)
        (D + Z.of_nat k * msPerDay + r) (entryAfter D r k' l)
  end.

End Vocabulary.

(** * Example stores *)

(** An application of tenure 3 and instalment 1000, not yet scheduled. *)
Definition demoApplication : EmiApplication.t :=
  EmiApplication.mk 1%nat 1%nat 0%nat 3000 0 0 3000 3 1000
    EmiApplication.approved [] 0 0 None None None.

(** An application whose first installment is settled. *)
Definition partlyPaid : EmiApplication.t :=
  EmiApplication.mk 1%nat 1%nat 0%nat 3000 0 0 3000 3 1000
    EmiApplication.approved
    [ Installment.mk 1 (ofCivil 2025 2 5 0) 1000 Installment.paid
        (Some (ofCivil 2025 2 3 0)) (Some "tx1"%string) (Some "upi"%string);
      Installment.mk 2 (ofCivil 2025 3 5 0) 1000 Installment.pending
        None None None;
      Installment.mk 3 (ofCivil 2025 4 5 0) 1000 Installment.pending
        None None None ]
    1 2 (Some (ofCivil 2025 3 5 0)) None None.

(** A no-cost plan for orders from 1000 to 50000. *)
Definition demoPlan : EmiPlan.t :=
  EmiPlan.mk "3 Month No-Cost EMI" 3 0 0 1000 (Some 50000%Q) true.

(** User 1, verified, with a credit limit of 100000. *)
Definition demoKyc : UserKyc.t := UserKyc.mk 1%nat UserKyc.verified 100000.

(** A store with that plan and that user, before any application. *)
Definition demoWorld : World := mkWorld [demoPlan] [demoKyc] [] [] [].

(** The ledger entry of installment 2 of [partlyPaid], three days past its
    grace period. *)
Definition overdueLedger : PenaltyLedger.t :=
  PenaltyLedger.mk 0%nat 1%nat 2 1000 (ofCivil 2025 3 5 0)
    (Some (ofCivil 2025 3 5 0)) (1 # 10) 3 3 (Some 1003) 3 false
    PenaltyLedger.overdue None None None
    [ PenaltyLedger.mkNotification PenaltyLedger.overdue_1_day
        (ofCivil 2025 3 6 (9 * 3600000)) PenaltyLedger.push
        PenaltyLedger.sent;
      PenaltyLedger.mkNotification PenaltyLedger.overdue_grace_ended
        (ofCivil 2025 3 8 (9 * 3600000)) PenaltyLedger.push
        PenaltyLedger.sent ].

(** The store holding [partlyPaid] and that entry. *)
Definition overdueWorld : World :=
  mkWorld [demoPlan] [demoKyc] [partlyPaid] [overdueLedger] [].

(** An application is filed on 10 January and its second installment is
    paid on 2 March. *)
Definition demoHistory : World :=
  (Routes.pay (ofCivil 2025 3 2 0) 1%nat 0%nat 2 (Some "tx9"%string)
     (Some "card"%string)
     (Routes.apply (ofCivil 2025 1 10 0) 1%nat 7%nat 0%nat 3000
        demoWorld).2).2.

(** An active application whose installment is due on 5 March at 10:00,
    without a ledger entry. *)
Definition activeApplication : EmiApplication.t :=
  EmiApplication.mk 1%nat 1%nat 0%nat 3000 0 0 3000 3 1000
    EmiApplication.active
    [ Installment.mk 1 (ofCivil 2025 3 5 36000000) 1000 Installment.pending
        None None None ]
    0 3 (Some (ofCivil 2025 3 5 36000000)) None None.

(** The store holding that application and no ledger entry. *)
Definition activeWorld : World :=
  mkWorld [demoPlan] [demoKyc] [activeApplication] [] [].

(** Two entries due on 5 March at local midnight, as the upcoming pass
    creates them. *)
Definition freshLedgers : World :=
  mkWorld [] [] []
    [ PenaltyLedger.create 0%nat 7%nat 1 1000 (ofCivil 2025 3 5 0);
      PenaltyLedger.create 1%nat 8%nat 1 2000 (ofCivil 2025 3 5 0) ]
    [].

(** The datastore refuses to save the ledger document with [_id] 0. *)
Definition firstSaveFails : Faults :=
  mkFaults (λ _ _, false) (λ i, Nat.eqb i 0).

(** The notification sink stores nothing. *)
Definition sinkDown : Faults := mkFaults (λ _ _, true) (λ _, false).

(** An entry whose due date carries the time of day of its schedule's
    generation, here 14:00. *)
Definition afternoonLedgers : World :=
  mkWorld [] [] []
    [ PenaltyLedger.create 0%nat 7%nat 1 1000
        (ofCivil 2025 3 5 (14 * 3600000)) ]
    [].

(** * Tactics *)

(** Unfolds the monad of handlers down to its state passing. *)
Ltac run_M :=
  unfold findOne, findById, find in *;
  unfold mbind, M_bind, mret, M_ret, gets, modify, throw in *;
  cbv beta iota in *.

(** * Further handlers and vocabulary *)

(** ** The KYC review handler *)

Module Kyc.

(** The [status] of the request body: a value of the schema's enum or
    another string. *)
Inductive RequestStatus :=
  | known (s : UserKyc.VerificationStatus)
  | unknown.

(** [creditLimit || 50000] for a body whose [creditLimit] is a number or
    absent: zero is falsy and gives the default as well. *)
Definition orDefault (creditLimit : option Q) : Q :=
  match creditLimit with
  | Some c => if Qeq_bool c 0 then 50000 else c
  | None => 50000
  end.

(** [kyc.save()] *)
Definition saveKyc (id : nat) (doc : UserKyc.t) : M unit :=
  modify (λ w, mkWorld (plans w) (<[id := doc]> (kycs w)) (apps w)
                 (ledgers w) (outbox w)).

(** [PUT /verify/:kycId].  The assignment of a string outside the enum is
    rejected when the document is saved. *)
Definition verify (kycId : ObjectId) (status : RequestStatus)
    (creditLimit : option Q) : M Z :=
  kyc ← findById kycs kycId;
  match kyc with
  | None => mret 404
  | Some kyc =>
      match status with
      | known UserKyc.verified =>
          saveKyc kycId
            (UserKyc.mk (UserKyc.userId kyc) UserKyc.verified
               (orDefault creditLimit));;
          mret 200
      | known status =>
          saveKyc kycId
            (UserKyc.mk (UserKyc.userId kyc) status
               (UserKyc.creditLimit kyc));;
          mret 200
      | unknown => throw ValidationError
      end
  end.

End Kyc.

(** ** What the job keeps of an entry and of an application *)

(** The key by which the passes look an entry up. *)
Definition ledgerKey (l : PenaltyLedger.t) : ObjectId * Date :=
  (PenaltyLedger.emiApplicationId l, PenaltyLedger.dueDate l).

(** [l'] is [l] after some work of the job: the same installment, amount,
    terms and payment record, settled or not as before, and a notification
    log that has only grown. *)
Definition extends (l l' : PenaltyLedger.t) : Prop :=
  PenaltyLedger.emiApplicationId l' = PenaltyLedger.emiApplicationId l
  ∧ PenaltyLedger.userId l' = PenaltyLedger.userId l
  ∧ PenaltyLedger.installmentNo l' = PenaltyLedger.installmentNo l
  ∧ PenaltyLedger.originalAmount l' = PenaltyLedger.originalAmount l
  ∧ PenaltyLedger.dueDate l' = PenaltyLedger.dueDate l
  ∧ PenaltyLedger.penaltyRate l' = PenaltyLedger.penaltyRate l
  ∧ PenaltyLedger.gracePeriodDays l' = PenaltyLedger.gracePeriodDays l
  ∧ PenaltyLedger.paidAmount l' = PenaltyLedger.paidAmount l
  ∧ PenaltyLedger.paidDate l' = PenaltyLedger.paidDate l
  ∧ PenaltyLedger.paymentReference l' = PenaltyLedger.paymentReference l
  ∧ Cron.isOpen (PenaltyLedger.status l')
    = Cron.isOpen (PenaltyLedger.status l)
  ∧ PenaltyLedger.notifications l `prefix_of` PenaltyLedger.notifications l'.

(** Every entry of [ls] is still in [ls'], under its [_id], extended. *)
Definition ledgersExtend (ls ls' : list PenaltyLedger.t) : Prop :=
  ∀ j l, ls !! j = Some l → ∃ l', ls' !! j = Some l' ∧ extends l l'.

(** The one change the job makes to an application. *)
Definition sameOrDefaulted (a a' : EmiApplication.t) : Prop :=
  a' = a ∨ a' = EmiApplication.set_status EmiApplication.defaulted a.

(** Some selected entry of [docs] ends its grace period in this pass and
    refers to application [id]. *)
Definition endsGraceOf (today now : Date) (id : ObjectId)
    (docs : list (nat * PenaltyLedger.t)) : bool :=
  existsb (λ d, graceEnds today now d.2
                && Nat.eqb (PenaltyLedger.emiApplicationId d.2) id) docs.

(** The collection [cur] holds the entries of [ls], each extended, and
    keeps their keys distinct if they were. *)
Definition keeps (ls cur : list PenaltyLedger.t) : Prop :=
  ledgersExtend ls cur
  ∧ (NoDup (ledgerKey <$> ls) → NoDup (ledgerKey <$> cur)).

(** A collection of the same length that extends [ls] entry by entry. *)
Definition rewrites (ls cur : list PenaltyLedger.t) : Prop :=
  length cur = length ls ∧ ledgersExtend ls cur.

(** The job leaves plans and KYC records alone and at most marks
    applications defaulted. *)
Definition onlyDefaults (w w' : World) : Prop :=
  plans w' = plans w ∧ kycs w' = kycs w
  ∧ Forall2 sameOrDefaulted (apps w) (apps w').

(** ** What the counters of an application count *)

(** The number of installments of [l] in status [s]. *)
Definition countStatus (s : Installment.Status) (l : list Installment.t)
    : Z :=
  Z.of_nat (length (filter (λ i, Installment.Status_eqb
                                   (Installment.status i) s) l)).

(** The schedule holds the ordinals 1 to [tenure], every installment is
    pending or paid, and the two counters count them. *)
Definition accounted (a : EmiApplication.t) : Prop :=
  Installment.installmentNumber <$> EmiApplication.installments a
  = Z.of_nat <$> seq 1 (Z.to_nat (EmiApplication.tenure a))
  ∧ Forall (λ i, Installment.status i = Installment.pending
                 ∨ Installment.status i = Installment.paid)
      (EmiApplication.installments a)
  ∧ EmiApplication.paidInstallments a
    = countStatus Installment.paid (EmiApplication.installments a)
  ∧ EmiApplication.remainingInstallments a
    = countStatus Installment.pending (EmiApplication.installments a).

(** An application is approved with installments left, or completed with
    none. *)
Definition lifecycle (a : EmiApplication.t) : Prop :=
  (EmiApplication.status a = EmiApplication.approved
   ∧ 0 < EmiApplication.remainingInstallments a
   ∧ is_Some (EmiApplication.nextDueDate a)
   ∧ EmiApplication.completedAt a = None)
  ∨ (EmiApplication.status a = EmiApplication.completed
     ∧ EmiApplication.remainingInstallments a = 0
     ∧ EmiApplication.nextDueDate a = None
     ∧ is_Some (EmiApplication.completedAt a)).

(** Both at once. *)
Definition wellFormed (a : EmiApplication.t) : Prop :=
  accounted a ∧ lifecycle a.

(** ** Further example stores *)

(** The store holding [partlyPaid] and the entry of its second installment
    as the upcoming pass creates it. *)
Definition graceWorld : World :=
  mkWorld [demoPlan] [demoKyc] [partlyPaid]
    [ PenaltyLedger.create 0%nat 1%nat 2 1000 (ofCivil 2025 3 5 0) ] [].

(** Three active applications whose installment is due on 5 March at
    10:00.  The ledger holds an open entry of application 0 that was due
    on 5 February, the entry of application 0 for 5 March, and the entry
    of application 1 for 5 March, which logs the 3-day reminder already;
    application 2 has no entry. *)
Definition threeDue : World :=
  mkWorld [demoPlan] [demoKyc]
    [ activeApplication; activeApplication; activeApplication ]
    [ PenaltyLedger.create 0%nat 1%nat 1 1000 (ofCivil 2025 2 5 36000000);
      PenaltyLedger.create 0%nat 1%nat 2 1000 (ofCivil 2025 3 5 36000000);
      PenaltyLedger.push_notification PenaltyLedger.reminder_3_days
        (ofCivil 2025 3 2 (3 * 3600000))
        (PenaltyLedger.create 1%nat 1%nat 1 1000
           (ofCivil 2025 3 5 36000000)) ]
    [].

(** * Properties *)

(** ** Calendar arithmetic *)

Section DateFacts.

Lemma msPerDay_eq : msPerDay = 86400000.
Proof. reflexivity. Qed.

Lemma civil_month_range (z : Z) :
  1 <= snd (fst (civilFromDays z)) <= 12.
Proof.
  unfold civilFromDays. cbv zeta. cbn [fst snd].
  destruct (_ <? 10) eqn:E; Z.div_mod_to_equations; lia.
Qed.

(** The calendar fields of a day number rebuild that day number. *)
Lemma daysFromCivil_fields (z : Z) :
  daysFromCivil (fst (fst (civilFromDays z)))
    (snd (fst (civilFromDays z))) 1
  + snd (civilFromDays z) - 1 = z.
Proof.
  unfold civilFromDays, daysFromCivil. cbv zeta. cbn [fst snd].
  repeat match goal with
         | |- context [if ?b then _ else _] => destruct b eqn:?
         end;
    Z.div_mod_to_equations; lia.
Qed.

Lemma MakeDay_fields (t : Date) :
  MakeDay (getFullYear t) (getMonth t) (getDate t) = Day t.
Proof.
  unfold MakeDay, getFullYear, getMonth, getDate.
  pose proof (civil_month_range (Day t)) as Hm.
  pose proof (daysFromCivil_fields (Day t)) as Hd.
  set (m := snd (fst (civilFromDays (Day t)))) in *.
  replace ((m - 1) / 12) with 0 by (Z.div_mod_to_equations; lia).
  replace ((m - 1) mod 12 + 1) with m by (Z.div_mod_to_equations; lia).
  rewrite Z.add_0_r. exact Hd.
Qed.

(** In a zone without clock shifts, [setDate(getDate() + k)] moves the
    time value by [k] whole days. *)
Lemma addDays_eq (t : Date) (k : Z) : addDays t k = t + k * msPerDay.
Proof.
  unfold addDays, setDate.
  assert (H : MakeDay (getFullYear t) (getMonth t) (getDate t + k)
              = Day t + k).
  { rewrite <- (MakeDay_fields t). unfold MakeDay. lia. }
  rewrite H. unfold MakeDate, Day, TimeWithinDay.
  pose proof (Z.div_mod t msPerDay). rewrite msPerDay_eq in *. lia.
Qed.

Lemma setHoursZero_eq (t : Date) : setHoursZero t = t - t mod msPerDay.
Proof.
  unfold setHoursZero, MakeDate, Day.
  pose proof (Z.div_mod t msPerDay). rewrite msPerDay_eq in *. lia.
Qed.

Lemma setHoursZero_le (t : Date) : setHoursZero t <= t.
Proof.
  rewrite setHoursZero_eq.
  pose proof (Z.mod_pos_bound t msPerDay). rewrite msPerDay_eq in *. lia.
Qed.

(** The local midnight of an instant [r] milliseconds into day [d]. *)
Lemma setHoursZero_offset (d r : Z) :
  0 <= r < msPerDay →
  setHoursZero (d * msPerDay + r) = d * msPerDay.
Proof.
  intros Hr. rewrite setHoursZero_eq.
  replace ((d * msPerDay + r) mod msPerDay) with r; [lia|].
  rewrite Z.add_comm, Z.mod_add by (rewrite msPerDay_eq; lia).
  symmetry. apply Z.mod_small. lia.
Qed.

End DateFacts.

(** ** C10: the no-cost EMI *)

(** C10. For a positive principal [P] and a positive tenure [N], a plan
    whose annual interest rate is 0 yields [calculateEMI = ceil (P / N)],
    and that many units paid [N] times cover the principal:
    [ceil (P / N) * N >= P]. *)
Theorem calculateEMI_no_cost (plan : EmiPlan.t) (P : Q) :
  (0 < P)%Q →
  0 < EmiPlan.tenure plan →
  (EmiPlan.interestRate plan == 0)%Q →
  EmiPlan.calculateEMI plan P = Qceiling (P / inject_Z (EmiPlan.tenure plan))
  ∧ (P <= inject_Z (EmiPlan.calculateEMI plan P * EmiPlan.tenure plan))%Q.
Proof.
  intros HP HN HR.
  assert (Hc : EmiPlan.calculateEMI plan P
               = Qceiling (P / inject_Z (EmiPlan.tenure plan))).
  { unfold EmiPlan.calculateEMI.
    assert (Hz : (EmiPlan.interestRate plan / 12 / 100 == 0)%Q)
      by (rewrite HR; reflexivity).
    apply Qeq_bool_iff in Hz. cbv zeta. rewrite Hz. reflexivity. }
  split; [exact Hc|].
  rewrite Hc, inject_Z_mult.
  set (n := inject_Z (EmiPlan.tenure plan)).
  assert (Hn : (0 < n)%Q).
  { unfold n. change 0%Q with (inject_Z 0). rewrite <- Zlt_Qlt. exact HN. }
  assert (Hne : ¬ (n == 0)%Q).
  { intros E. rewrite E in Hn. exact (Qlt_irrefl _ Hn). }
  assert (E : (P == P / n * n)%Q) by (field; exact Hne).
  eapply Qle_trans;
    [| apply Qmult_le_compat_r; [apply Qle_ceiling | apply Qlt_le_weak, Hn]].
  rewrite <- E. apply Qle_refl.
Qed.

Lemma calculateEMI_no_cost_witness :
  EmiPlan.calculateEMI
    (EmiPlan.mk EmptyString 3 0 0 1000 None true) 3001 = 1001
  ∧ (3001 <= inject_Z (1001 * 3))%Q.
Proof.
  pose proof (calculateEMI_no_cost
                (EmiPlan.mk EmptyString 3 0 0 1000 None true) 3001) as H.
  destruct H as [H1 H2]; [reflexivity | reflexivity | reflexivity |].
  split; [rewrite H1; reflexivity | rewrite H1 in H2; exact H2].
Defined.

(** ** Schedule generation *)

Section Schedule.

Import EmiApplication.

Lemma scheduleOf_length (a : t) (start : Date) :
  length (scheduleOf a start) = Z.to_nat (tenure a).
Proof. unfold scheduleOf. by rewrite length_fmap, length_seq. Qed.

Lemma scheduleOf_lookup (a : t) (start : Date) (i : nat) :
  (i < Z.to_nat (tenure a))%nat →
  scheduleOf a start !! i
  = Some (Installment.mk (Z.of_nat (S i)) (dueDateOf start (Z.of_nat (S i)))
            (monthlyEmi a) Installment.pending None None None).
Proof.
  intros Hi. unfold scheduleOf.
  rewrite list_lookup_fmap, lookup_seq_lt by done. reflexivity.
Qed.

Lemma scheduleOf_pending (a : t) (start : Date) :
  Forall (λ i, Installment.status i = Installment.pending)
    (scheduleOf a start).
Proof.
  unfold scheduleOf. rewrite Forall_fmap. apply Forall_true. done.
Qed.

Lemma scheduleOf_cons (a : t) (start : Date) :
  1 <= tenure a →
  ∃ rest,
    scheduleOf a start
    = Installment.mk 1 (dueDateOf start 1) (monthlyEmi a)
        Installment.pending None None None :: rest.
Proof.
  intros Hn. unfold scheduleOf.
  destruct (Z.to_nat (tenure a)) as [|n] eqn:E; [lia|].
  cbn [seq fmap list_fmap]. eauto.
Qed.

(** On tenure 0 (or less) the loop pushes nothing and
    [installments[0].dueDate] throws. *)
Lemma generateSchedule_throws (a : t) (start : Date) :
  tenure a <= 0 → generateSchedule start a = None.
Proof.
  intros Hn. unfold generateSchedule, scheduleOf.
  replace (Z.to_nat (tenure a)) with 0%nat by lia. reflexivity.
Qed.

Lemma generateSchedule_runs (a : t) (start : Date) :
  1 <= tenure a →
  generateSchedule start a
  = Some (set_schedule (scheduleOf a start) (tenure a)
            (Some (dueDateOf start 1)) a).
Proof.
  intros Hn. unfold generateSchedule.
  destruct (scheduleOf_cons a start Hn) as [rest E].
  rewrite E. reflexivity.
Qed.

End Schedule.

(** C3. Generated at 10:00 on 31 January 2025, the schedule of a
    three-month application is due on 5 March, 5 March and 5 May: the
    month arithmetic of [setMonth] overflows out of the short month before
    the day is pinned to the 5th, so February and April get no installment
    and two ordinals share one due date. *)
Theorem generateSchedule_month_end :
  (λ a, (λ i, civil (Installment.dueDate i))
          <$> EmiApplication.installments a)
    <$> EmiApplication.generateSchedule
          (ofCivil 2025 1 31 (10 * 3600000)) demoApplication
  = Some [(2025, 3, 5); (2025, 3, 5); (2025, 5, 5)].
Proof. vm_compute. reflexivity. Qed.

(** The same application generated on the 10th gets the three consecutive
    months the schedule is meant to have. *)
Lemma generateSchedule_mid_month :
  (λ a, (λ i, civil (Installment.dueDate i))
          <$> EmiApplication.installments a)
    <$> EmiApplication.generateSchedule
          (ofCivil 2025 1 10 (10 * 3600000)) demoApplication
  = Some [(2025, 2, 5); (2025, 3, 5); (2025, 4, 5)].
Proof. vm_compute. reflexivity. Qed.

(** Over every generation day of 2024 and 2025 (at 10:00), a 24-month
    schedule has the intended due dates exactly when the day of the month
    is at most 28: the defect is confined to days 29 to 31. *)
Lemma generateSchedule_two_years :
  forallb
    (λ k : nat,
       let start := MakeDate (daysFromCivil 2024 1 1 + Z.of_nat k)
                      (10 * 3600000) in
       Bool.eqb (scheduleAsIntended start 24) (getDate start <=? 28))
    (seq 0 731)
  = true.
Proof. vm_compute. reflexivity. Qed.

(** ** C8: regenerating a schedule *)

(** C8, as stated, fails: regenerating over a paid installment is not
    rejected; the call returns, the paid installment is replaced by a
    pending one and the counters change. *)
Lemma generateSchedule_overwrites_paid :
  ∃ a',
    EmiApplication.generateSchedule (ofCivil 2025 3 10 0) partlyPaid = Some a'
    ∧ Installment.status <$> EmiApplication.installments a'
      = [Installment.pending; Installment.pending; Installment.pending]
    ∧ EmiApplication.remainingInstallments a' = 3
    ∧ EmiApplication.remainingInstallments partlyPaid = 2
    ∧ EmiApplication.nextDueDate a' ≠ EmiApplication.nextDueDate partlyPaid.
Proof.
  eexists. split; [vm_compute; reflexivity|].
  repeat split; try (vm_compute; reflexivity). vm_compute. discriminate.
Qed.

(** C8, amended. [generateSchedule] inspects no installment: on every
    application of tenure [N >= 1], whatever installments it already
    holds, the call returns, replaces them by the [N] fresh pending
    installments, sets [remainingInstallments] to [N] and [nextDueDate] to
    the first new due date, and leaves [paidInstallments] as it was. *)
Theorem generateSchedule_unguarded (start : Date) (a : EmiApplication.t) :
  1 <= EmiApplication.tenure a →
  ∃ a',
    EmiApplication.generateSchedule start a = Some a'
    ∧ EmiApplication.installments a' = EmiApplication.scheduleOf a start
    ∧ length (EmiApplication.installments a')
      = Z.to_nat (EmiApplication.tenure a)
    ∧ Forall (λ i, Installment.status i = Installment.pending)
        (EmiApplication.installments a')
    ∧ EmiApplication.remainingInstallments a' = EmiApplication.tenure a
    ∧ EmiApplication.nextDueDate a'
      = Some (EmiApplication.dueDateOf start 1)
    ∧ EmiApplication.paidInstallments a' = EmiApplication.paidInstallments a.
Proof.
  intros Hn. eexists. split; [apply generateSchedule_runs, Hn|].
  simpl. repeat split.
  - apply scheduleOf_length.
  - apply scheduleOf_pending.
Qed.

Lemma generateSchedule_unguarded_witness :
  ∃ a',
    EmiApplication.generateSchedule (ofCivil 2025 3 10 0) partlyPaid = Some a'
    ∧ EmiApplication.paidInstallments a' = 1.
Proof.
  destruct (generateSchedule_unguarded (ofCivil 2025 3 10 0) partlyPaid)
    as (a' & H1 & _ & _ & _ & _ & _ & H7).
  - vm_compute. discriminate.
  - exists a'. split; [exact H1 | exact H7].
Defined.

(** ** Running handlers *)

Lemma saveApplication_new (a : EmiApplication.t) (w : World) :
  EmiApplication.inEnum (EmiApplication.status a) = true →
  saveApplication None a w = (Done tt, set_apps (λ l, l ++ [a]) w).
Proof. intros H. unfold saveApplication. rewrite H. reflexivity. Qed.

Lemma saveApplication_at (i : nat) (a : EmiApplication.t) (w : World) :
  EmiApplication.inEnum (EmiApplication.status a) = true →
  saveApplication (Some i) a w = (Done tt, set_apps (λ l, <[i := a]> l) w).
Proof. intros H. unfold saveApplication. rewrite H. reflexivity. Qed.

Lemma saveApplication_invalid (i : option nat) (a : EmiApplication.t)
    (w : World) :
  EmiApplication.inEnum (EmiApplication.status a) = false →
  saveApplication i a w = (Thrown ValidationError, w).
Proof. intros H. unfold saveApplication. rewrite H. reflexivity. Qed.

(** ** C6: what [/apply] validates *)

(** C6, as stated, fails: a principal of 500 under a plan whose
    [minOrderAmount] is 1000 is accepted with 201 and the application is
    stored. *)
Lemma apply_below_minimum_accepted :
  (Qle_bool (EmiPlan.minOrderAmount demoPlan) 500 = false)
  ∧ ∃ w',
      Routes.apply (ofCivil 2025 1 10 0) 1%nat 7%nat 0%nat 500 demoWorld
      = (Done 201, w')
      ∧ EmiApplication.principalAmount <$> apps w' = [500%Q]
      ∧ EmiApplication.monthlyEmi <$> apps w' = [167].
Proof.
  split; [reflexivity|]. eexists. split; [vm_compute; reflexivity|].
  split; reflexivity.
Qed.

(** C6, amended. The request carries no tenure (the plan's is used), and
    [/apply] compares the principal with the user's credit limit only,
    never with the plan's [minOrderAmount]/[maxOrderAmount]. Whenever the
    handler does not answer 201 nothing is stored; and whenever the user's
    KYC is verified, the principal is within the credit limit, the plan
    exists and its tenure is at least 1, the handler answers 201 and stores
    one application carrying the requested principal unchanged, the plan's
    tenure and [calculateEMI] of the principal. *)
Theorem apply_validation (now : Date) (userId orderId emiPlanId : ObjectId)
    (principalAmount : Q) (w : World) :
  (fst (Routes.apply now userId orderId emiPlanId principalAmount w)
     ≠ Done 201 →
   snd (Routes.apply now userId orderId emiPlanId principalAmount w) = w)
  ∧ (∀ i kyc plan,
       list_find (λ k, Nat.eqb (UserKyc.userId k) userId) (kycs w)
       = Some (i, kyc) →
       UserKyc.isVerified kyc = true →
       (principalAmount <= UserKyc.creditLimit kyc)%Q →
       plans w !! emiPlanId = Some plan →
       1 <= EmiPlan.tenure plan →
       ∃ app,
         Routes.apply now userId orderId emiPlanId principalAmount w
         = (Done 201, set_apps (λ l, l ++ [app]) w)
         ∧ EmiApplication.principalAmount app = principalAmount
         ∧ EmiApplication.tenure app = EmiPlan.tenure plan
         ∧ EmiApplication.monthlyEmi app
           = EmiPlan.calculateEMI plan principalAmount).
Proof.
  split.
  - unfold Routes.apply. run_M.
    destruct (list_find _ (kycs w)) as [[i kyc]|]; [|done].
    destruct (negb (UserKyc.isVerified kyc)); [done|].
    destruct (negb (Qle_bool _ _)); [done|].
    destruct (plans w !! emiPlanId) as [plan|]; [|done].
    destruct (EmiApplication.generateSchedule _ _) as [a|] eqn:E; [|done].
    rewrite saveApplication_new; [simpl; done|].
    unfold EmiApplication.generateSchedule in E.
    destruct (EmiApplication.scheduleOf _ _); [done|].
    injection E as <-. reflexivity.
  - intros i kyc plan Hk Hv Hc Hp Hn.
    apply Qle_bool_iff in Hc.
    unfold Routes.apply. run_M. rewrite Hk, Hv, Hc.
    cbn [negb]. cbv beta iota. rewrite Hp.
    rewrite generateSchedule_runs by exact Hn.
    rewrite saveApplication_new by reflexivity.
    eexists. split; [reflexivity|]. done.
Qed.

Lemma apply_validation_witness :
  ∃ app,
    Routes.apply (ofCivil 2025 1 10 0) 1%nat 7%nat 0%nat 500 demoWorld
    = (Done 201, set_apps (λ l, l ++ [app]) demoWorld)
    ∧ EmiApplication.principalAmount app = 500%Q.
Proof.
  destruct (apply_validation (ofCivil 2025 1 10 0) 1%nat 7%nat 0%nat 500
              demoWorld) as [_ H].
  destruct (H 0%nat demoKyc demoPlan) as (app & H1 & H2 & _);
    [reflexivity | reflexivity | vm_compute; discriminate | reflexivity
    | vm_compute; discriminate |].
  exists app. split; [exact H1 | exact H2].
Defined.

(** ** C1: paying an installment and its ledger entry *)

(** C1, as stated, fails: the payment of installment 2 is recorded with
    200, and its ledger entry is still [overdue] with no payment fields;
    the overdue pass of the next morning raises its penalty from 3 to 4. *)
Lemma pay_ledger_stays_open :
  let paidAt := ofCivil 2025 3 11 (12 * 3600000) in
  let r := Routes.pay paidAt 1%nat 0%nat 2 (Some "tx2"%string)
             (Some "upi"%string) overdueWorld in
  fst r = Done 200
  ∧ ledgers (snd r) = [overdueLedger]
  ∧ PenaltyLedger.status overdueLedger = PenaltyLedger.overdue
  ∧ PenaltyLedger.paidAmount overdueLedger = None
  ∧ PenaltyLedger.penaltyAmount
      <$> ledgers (snd (Cron.processOverdueEmis noFaults
                          (ofCivil 2025 3 12 (9 * 3600000)) (snd r)))
    = [4].
Proof. vm_compute. repeat split; reflexivity. Qed.

(** C1, amended. Recording a payment for installment [k] touches the
    application only: when the handler answers 200 the installment with
    ordinal [k] is [paid] and carries the payment date, transaction id and
    payment method; the ledger collection is left exactly as it was, so a
    matching ledger entry keeps its status, penalty and empty payment
    fields. *)
Theorem pay_leaves_ledger (now : Date) (userId applicationId : ObjectId)
    (k : Z) (transactionId paymentMethod : option string) (w : World) :
  ledgers (snd (Routes.pay now userId applicationId k transactionId
                  paymentMethod w)) = ledgers w
  ∧ (fst (Routes.pay now userId applicationId k transactionId
            paymentMethod w) = Done 200 →
     ∃ app j inst,
       apps (snd (Routes.pay now userId applicationId k transactionId
                    paymentMethod w)) !! applicationId = Some app
       ∧ EmiApplication.installments app !! j = Some inst
       ∧ Installment.installmentNumber inst = k
       ∧ Installment.status inst = Installment.paid
       ∧ Installment.paidDate inst = Some now
       ∧ Installment.transactionId inst = transactionId
       ∧ Installment.paymentMethod inst = paymentMethod).
Proof.
  unfold Routes.pay. run_M.
  destruct (apps w !! applicationId) as [app|] eqn:Ha; [|done].
  destruct (negb _); [done|].
  destruct (list_find _ _) as [[j inst]|] eqn:Hf; [|done].
  destruct (Installment.Status_eqb _ _); [done|].
  apply list_find_Some in Hf as (Hj & Hk & _).
  pose proof (lookup_lt_Some _ _ _ Ha) as Hlt.
  pose proof (lookup_lt_Some _ _ _ Hj) as Hjlt.
  match goal with
  | |- context [saveApplication (Some applicationId) ?a w] =>
      set (app' := a)
  end.
  destruct (EmiApplication.inEnum (EmiApplication.status app')) eqn:Hs;
    [rewrite (saveApplication_at applicationId app' w Hs)
    |rewrite (saveApplication_invalid (Some applicationId) app' w Hs)];
    [|done].
  split; [reflexivity|]. intros _.
  eexists _, j, _. split; [apply list_lookup_insert_eq, Hlt|].
  split.
  { unfold app', Routes.recordPayment. destruct (_ =? 0); simpl;
      apply list_lookup_insert_eq, Hjlt. }
  simpl. done.
Qed.

Lemma pay_leaves_ledger_witness :
  ledgers (snd (Routes.pay (ofCivil 2025 3 11 0) 1%nat 0%nat 2
                  (Some "tx2"%string) (Some "upi"%string) overdueWorld))
  = [overdueLedger].
Proof.
  exact (proj1 (pay_leaves_ledger (ofCivil 2025 3 11 0) 1%nat 0%nat 2
                  (Some "tx2"%string) (Some "upi"%string) overdueWorld)).
Defined.

(** ** Invariants carried by handlers and passes *)

Section Preserves.

Context (P : World → Prop).

Lemma preserves_ret {A} (a : A) : preserves P (mret a).
Proof. intros w H. exact H. Qed.

Lemma preserves_throw {A} (e : Error) : preserves P (throw (A := A) e).
Proof. intros w H. exact H. Qed.

Lemma preserves_gets {A} (f : World → A) : preserves P (gets f).
Proof. intros w H. exact H. Qed.

Lemma preserves_modify (f : World → World) :
  (∀ w, P w → P (f w)) → preserves P (modify f).
Proof. intros Hf w H. apply Hf, H. Qed.

Lemma preserves_bind {A B} (m : M A) (f : A → M B) :
  preserves P m → (∀ a, preserves P (f a)) → preserves P (m ≫= f).
Proof.
  intros Hm Hf w H. unfold mbind, M_bind.
  specialize (Hm w H). destruct (m w) as [[a|e] w']; simpl in *.
  - apply Hf, Hm.
  - exact Hm.
Qed.

Lemma preserves_forOf {A} (xs : list A) (body : A → M unit) :
  (∀ x, preserves P (body x)) → preserves P (forOf xs body).
Proof.
  intros Hb. induction xs as [|x xs IH]; simpl.
  - apply preserves_ret.
  - apply preserves_bind; [apply Hb | intros _; exact IH].
Qed.

Lemma preserves_tryCatch (body : M unit) :
  preserves P body → preserves P (tryCatch body).
Proof.
  intros Hb w H. unfold tryCatch. specialize (Hb w H).
  destruct (body w) as [[a|e] w']; exact Hb.
Qed.

Lemma preserves_answering500 (body : M Z) :
  preserves P body → preserves P (Routes.answering500 body).
Proof.
  intros Hb w H. unfold Routes.answering500. specialize (Hb w H).
  destruct (body w) as [[a|e] w']; exact Hb.
Qed.

End Preserves.

(** Structural decomposition of a handler into its primitive effects. *)
Ltac preserve_step :=
  match goal with
  | |- preserves _ (mret _) => apply preserves_ret
  | |- preserves _ (throw _) => apply preserves_throw
  | |- preserves _ (gets _) => apply preserves_gets
  | |- preserves _ (find _ _) => apply preserves_gets
  | |- preserves _ (findOne _ _) => apply preserves_gets
  | |- preserves _ (findById _ _) => apply preserves_gets
  | |- preserves _ (_ ≫= _) => apply preserves_bind; [|intros ?]
  | |- preserves _ (forOf _ _) => apply preserves_forOf; intros ?
  | |- preserves _ (tryCatch _) => apply preserves_tryCatch
  | |- preserves _ (Routes.answering500 _) => apply preserves_answering500
  | |- preserves _ (match ?x with _ => _ end) => destruct x eqn:?
  end.

Section ApplicationInvariant.

(** A property of application documents that survives the only write of
    the job, [status := 'defaulted'], ... *)
Variable Q : EmiApplication.t → Prop.

Hypothesis Q_defaulted :
  ∀ a, Q a → Q (EmiApplication.set_status EmiApplication.defaulted a).

Let holds (w : World) : Prop := Forall Q (apps w).

Lemma holds_sendNotification env u ty :
  preserves holds (Cron.sendNotification env u ty).
Proof. intros w H. exact H. Qed.

Lemma holds_saveLedger env id doc : preserves holds (saveLedger env id doc).
Proof.
  intros w H. unfold saveLedger.
  destruct id; destruct (ledgerSaveFails _ _); exact H.
Qed.

Lemma holds_markDefaulted id : preserves holds (Cron.markDefaulted id).
Proof.
  intros w H. unfold holds, Cron.markDefaulted, modify. simpl.
  unfold holds in H. rewrite Forall_lookup in *.
  intros i a. rewrite list_lookup_alter.
  destruct (decide (id = i)) as [->|Hne].
  - destruct (apps w !! i) as [b|] eqn:E; simpl; [|done].
    intros [= <-]. apply Q_defaulted. eauto.
  - intros Hi. eauto.
Qed.

Lemma holds_saveApplication id a :
  Q a → preserves holds (saveApplication id a).
Proof.
  intros Ha w H. unfold saveApplication.
  destruct (EmiApplication.inEnum _); [|exact H].
  destruct id as [i|]; unfold holds, modify; simpl.
  - destruct (decide (i < length (apps w))%nat).
    + apply Forall_insert; assumption.
    + rewrite list_insert_ge by lia. exact H.
  - apply Forall_app. split; [exact H | by constructor].
Qed.

Ltac preserve :=
  repeat first
    [ apply holds_sendNotification | apply holds_saveLedger
    | apply holds_markDefaulted | preserve_step ].

Lemma holds_job env now :
  preserves holds (Cron.runPaymentReminderJob env now).
Proof.
  unfold Cron.runPaymentReminderJob, Cron.processUpcomingReminders,
    Cron.processDueDateReminders, Cron.processOverdueEmis,
    Cron.upcomingEntry, Cron.dueTodayEntry, Cron.overdueEntry.
  preserve.
Qed.

(** ... and that holds of what the two handlers store. *)
Hypothesis Q_created :
  ∀ now userId orderId emiPlanId principalAmount plan a,
    EmiApplication.generateSchedule now
      (Routes.newApplication userId orderId emiPlanId principalAmount plan)
    = Some a →
    Q (EmiApplication.set_approvedAt (Some now) a).

Hypothesis Q_paid :
  ∀ now transactionId paymentMethod k installment a,
    Q a →
    EmiApplication.installments a !! k = Some installment →
    Q (Routes.recordPayment now transactionId paymentMethod k installment a).

Lemma holds_apply now userId orderId emiPlanId principalAmount :
  preserves holds
    (Routes.apply now userId orderId emiPlanId principalAmount).
Proof.
  unfold Routes.apply. preserve.
  apply holds_saveApplication. eapply Q_created. eassumption.
Qed.

Lemma holds_pay now userId applicationId k transactionId paymentMethod :
  preserves holds
    (Routes.pay now userId applicationId k transactionId paymentMethod).
Proof.
  intros w H. unfold Routes.pay. run_M.
  destruct (apps w !! applicationId) as [app|] eqn:Ha; [|exact H].
  destruct (negb _); [exact H|].
  destruct (list_find _ _) as [[j inst]|] eqn:Hf; [|exact H].
  destruct (Installment.Status_eqb _ _); [exact H|].
  apply list_find_Some in Hf as (Hj & _ & _).
  assert (Ha' : Q app).
  { unfold holds in H. rewrite Forall_lookup in H. eauto. }
  pose proof (holds_saveApplication (Some applicationId) _
                (Q_paid now transactionId paymentMethod j inst app Ha' Hj)
                w H) as Hs.
  destruct (saveApplication _ _ w) as [[[]|e] w']; exact Hs.
Qed.

Lemma holds_refund applicationId :
  preserves holds (Routes.refund applicationId).
Proof.
  unfold Routes.refund, saveOrder. preserve.
  intros w H. rewrite saveApplication_invalid by reflexivity. exact H.
Qed.

Lemma holds_step (w w' : World) : Step w w' → holds w → holds w'.
Proof.
  intros Hs H. destruct Hs.
  - exact H.
  - exact H.
  - by apply holds_apply.
  - by apply holds_pay.
  - by apply holds_refund.
  - by apply holds_job.
Qed.

Lemma holds_reachable (w : World) : Reachable w → Forall Q (apps w).
Proof.
  induction 1 as [w Ha _|w w' _ IH Hs].
  - rewrite Ha. constructor.
  - exact (holds_step w w' Hs IH).
Qed.

End ApplicationInvariant.

(** Queries that no document satisfies select nothing. *)
Lemma find_nothing {A} (coll : list A) (query : A → bool) :
  Forall (λ a, query a = false) coll →
  filter (λ d : nat * A, query d.2) (documents coll) = [].
Proof.
  intros H. unfold documents.
  destruct (filter _ _) as [|[i a] rest] eqn:E; [reflexivity|].
  assert (Hin : (i, a) ∈ filter (λ d : nat * A, query d.2) (imap pair coll))
    by (rewrite E; left).
  apply list_elem_of_filter in Hin as [Hq Hin].
  apply elem_of_lookup_imap in Hin as (j & b & [= -> ->] & Hj).
  rewrite Forall_lookup in H. specialize (H _ _ Hj). simpl in Hq.
  rewrite H in Hq. done.
Qed.

(** ** C5: the payment summary of an application *)

Lemma summaryConsistent_defaulted (a : EmiApplication.t) :
  summaryConsistent a →
  summaryConsistent
    (EmiApplication.set_status EmiApplication.defaulted a).
Proof. intros H. exact H. Qed.

Lemma summaryConsistent_created now userId orderId emiPlanId principalAmount
    plan a :
  EmiApplication.generateSchedule now
    (Routes.newApplication userId orderId emiPlanId principalAmount plan)
  = Some a →
  summaryConsistent (EmiApplication.set_approvedAt (Some now) a).
Proof.
  unfold EmiApplication.generateSchedule.
  pose proof (scheduleOf_pending
                (Routes.newApplication userId orderId emiPlanId
                   principalAmount plan) now) as Hp.
  destruct (EmiApplication.scheduleOf _ _) as [|first rest]; [done|].
  intros [= <-]. split; simpl; [lia|].
  unfold Routes.nextPendingDueDate.
  apply Forall_cons_1 in Hp as [Hf _].
  rewrite filter_cons_True by (rewrite Hf; done). reflexivity.
Qed.

Lemma summaryConsistent_paid now transactionId paymentMethod k installment
    a :
  summaryConsistent a →
  summaryConsistent
    (Routes.recordPayment now transactionId paymentMethod k installment a).
Proof.
  intros [Hc _]. unfold Routes.recordPayment. cbv zeta.
  destruct (_ =? 0); split; simpl; try lia; reflexivity.
Qed.

(** C5. After schedule generation and after every recorded payment an
    application has [paidInstallments + remainingInstallments = tenure]
    and its [nextDueDate] is the due date of its first pending
    installment, or null when none is pending: the document [/apply]
    builds has both once [generateSchedule] has run, the update of [/pay]
    keeps the sum and recomputes [nextDueDate], and so both hold of every
    application in every store the handlers and the job can produce. *)
Theorem summary_invariant :
  (∀ now userId orderId emiPlanId principalAmount plan a,
     EmiApplication.generateSchedule now
       (Routes.newApplication userId orderId emiPlanId principalAmount plan)
     = Some a →
     summaryConsistent a)
  ∧ (∀ now transactionId paymentMethod k installment a,
       EmiApplication.paidInstallments a
       + EmiApplication.remainingInstallments a = EmiApplication.tenure a →
       summaryConsistent
         (Routes.recordPayment now transactionId paymentMethod k
            installment a))
  ∧ (∀ w, Reachable w → Forall summaryConsistent (apps w)).
Proof.
  split; [|split].
  - intros now u o p amt plan a Ha.
    exact (summaryConsistent_created now u o p amt plan a Ha).
  - intros now tx pm k inst a Hc. unfold Routes.recordPayment. cbv zeta.
    destruct (_ =? 0); split; simpl; try lia; reflexivity.
  - apply holds_reachable.
    + exact summaryConsistent_defaulted.
    + exact summaryConsistent_created.
    + intros. by apply summaryConsistent_paid.
Qed.

Lemma summary_invariant_witness :
  Forall summaryConsistent (apps demoHistory).
Proof.
  apply (proj2 (proj2 summary_invariant)). unfold demoHistory.
  apply reach_step with
    (w := (Routes.apply (ofCivil 2025 1 10 0) 1%nat 7%nat 0%nat 3000
             demoWorld).2);
    [|apply step_pay].
  apply reach_step with (w := demoWorld); [|apply step_apply].
  apply reach_init; reflexivity.
Defined.

(** ** C9: no application is ever active *)

Lemma neverActive_reachable (w : World) :
  Reachable w → Forall neverActive (apps w).
Proof.
  apply holds_reachable; unfold neverActive.
  - intros a _. simpl. discriminate.
  - intros now u o p amt plan a.
    unfold EmiApplication.generateSchedule.
    destruct (EmiApplication.scheduleOf _ _); [done|].
    intros [= <-]. simpl. discriminate.
  - intros now tx pm k inst a Ha _. unfold Routes.recordPayment.
    cbv zeta. destruct (_ =? 0); simpl; [discriminate | exact Ha].
Qed.

Lemma no_active_selected (w : World) (lo hi : Date) :
  Forall neverActive (apps w) →
  filter (λ d : nat * EmiApplication.t, Cron.activeDueWithin lo hi d.2)
    (documents (apps w)) = [].
Proof.
  intros H. apply (find_nothing (apps w) (Cron.activeDueWithin lo hi)).
  eapply List.Forall_impl; [|exact H]. intros a Ha.
  unfold neverActive in Ha.
  unfold Cron.activeDueWithin, Cron.isActive.
  destruct (EmiApplication.status a); done.
Qed.

(** C9. [/apply] stores applications as [approved], and no handler or job
    pass assigns [active]: in every reachable store no application is
    active.  The upcoming pass and the due-today pass select active
    applications only, so on such a store they return without selecting
    anything, sending any notification or touching the ledger. *)
Theorem no_application_becomes_active (w : World) :
  Reachable w →
  Forall (λ a, EmiApplication.status a ≠ EmiApplication.active) (apps w)
  ∧ (∀ now userId orderId emiPlanId principalAmount,
       (Routes.apply now userId orderId emiPlanId principalAmount w).1
       = Done 201 →
       ∃ a,
         apps (Routes.apply now userId orderId emiPlanId principalAmount
                 w).2 = apps w ++ [a]
         ∧ EmiApplication.status a = EmiApplication.approved)
  ∧ (∀ env now,
       Cron.processUpcomingReminders env now w = (Done tt, w)
       ∧ Cron.processDueDateReminders env now w = (Done tt, w)).
Proof.
  intros Hr. pose proof (neverActive_reachable w Hr) as Hn.
  split; [exact Hn|]. split.
  - intros now u o p amt. unfold Routes.apply. run_M.
    destruct (list_find _ (kycs w)) as [[i kyc]|]; [|done].
    destruct (negb (UserKyc.isVerified kyc)); [done|].
    destruct (negb (Qle_bool _ _)); [done|].
    destruct (plans w !! p) as [plan|]; [|done].
    destruct (EmiApplication.generateSchedule _ _) as [a|] eqn:E; [|done].
    rewrite saveApplication_new.
    + intros _. eexists. split; [reflexivity|].
      unfold EmiApplication.generateSchedule in E.
      destruct (EmiApplication.scheduleOf _ _); [done|].
      by injection E as <-.
    + unfold EmiApplication.generateSchedule in E.
      destruct (EmiApplication.scheduleOf _ _); [done|].
      by injection E as <-.
  - intros env now. split.
    + unfold Cron.processUpcomingReminders. run_M.
      rewrite (no_active_selected w _ _ Hn). reflexivity.
    + unfold Cron.processDueDateReminders. run_M.
      rewrite (no_active_selected w _ _ Hn). reflexivity.
Qed.

Lemma no_application_becomes_active_witness :
  EmiApplication.status <$> apps demoHistory
  = [EmiApplication.approved]
  ∧ Cron.processUpcomingReminders noFaults (ofCivil 2025 2 2 0) demoHistory
    = (Done tt, demoHistory).
Proof.
  assert (Hr : Reachable demoHistory).
  { unfold demoHistory.
    apply reach_step with
      (w := (Routes.apply (ofCivil 2025 1 10 0) 1%nat 7%nat 0%nat 3000
               demoWorld).2);
      [|apply step_pay].
    apply reach_step with (w := demoWorld); [|apply step_apply].
    apply reach_init; reflexivity. }
  destruct (no_application_becomes_active demoHistory Hr) as (_ & _ & H).
  split; [reflexivity | exact (proj1 (H noFaults (ofCivil 2025 2 2 0)))].
Defined.

(** ** The overdue pass, entry by entry *)

Section OverdueEntry.

Import PenaltyLedger.

Lemma dayOne_fields today now l :
  dueDate (dayOne today now l) = dueDate l
  ∧ userId (dayOne today now l) = userId l
  ∧ emiApplicationId (dayOne today now l) = emiApplicationId l
  ∧ gracePeriodDays (dayOne today now l) = gracePeriodDays l
  ∧ isInGracePeriod (dayOne today now l) = isInGracePeriod l.
Proof. unfold dayOne. destruct (_ && _); done. Qed.

Lemma calculatePenalty_fields now l :
  dueDate (calculatePenalty now l) = dueDate l
  ∧ userId (calculatePenalty now l) = userId l
  ∧ emiApplicationId (calculatePenalty now l) = emiApplicationId l
  ∧ gracePeriodDays (calculatePenalty now l) = gracePeriodDays l
  ∧ status (calculatePenalty now l) = status l
  ∧ missedDate (calculatePenalty now l) = missedDate l
  ∧ notifications (calculatePenalty now l) = notifications l.
Proof.
  unfold calculatePenalty. destruct (status l) eqn:E;
    try destruct (_ <=? _); rewrite ?E; done.
Qed.

Lemma overdueEntry_run env today now i l w :
  ledgerSaveFails env i = false →
  totalKnown today now l →
  Cron.overdueEntry env today now (i, l) w
  = (Done tt,
     mkWorld (plans w) (kycs w) (overdueApps today now l (apps w))
       (<[i := afterOverdue today now l]> (ledgers w))
       (outbox w ++ overdueSends env today now l)).
Proof.
  intros Hsave Hknown.
  unfold Cron.overdueEntry, afterOverdue, overdueSends, overdueApps.
  unfold totalKnown in Hknown. unfold graceEnds in *.
  unfold graceEnded in *. unfold dayOne in *.
  fold (daysSinceDue today l).
  destruct ((daysSinceDue today l =? 1)
            && negb (hasNotification overdue_1_day l)) eqn:E1;
    run_M; unfold Cron.sendNotification, Cron.markDefaulted; run_M;
    cbn [isInGracePeriod push_notification set_status dueDate userId
         emiApplicationId] in *.
  - destruct ((3 <=? daysSinceDue today l) && isInGracePeriod l) eqn:E2.
    + destruct (Hknown eq_refl) as [tp Htp]. rewrite Htp. run_M.
      unfold saveLedger. rewrite Hsave.
      destruct (calculatePenalty_fields now
        (set_missedDate (Some (dueDate l))
           (set_status overdue
              (set_isInGracePeriod false
                 (push_notification overdue_1_day now
                    (set_status grace_period l))))))
        as (_ & Hu & Ha & _).
      cbn [userId emiApplicationId set_missedDate set_status
           set_isInGracePeriod push_notification] in Hu, Ha.
      rewrite Hu, Ha. unfold set_ledgers, set_apps, set_outbox. simpl.
      rewrite <- ?app_assoc. reflexivity.
    + unfold saveLedger. rewrite Hsave.
      unfold set_ledgers, set_apps, set_outbox. simpl.
      rewrite ?app_nil_r. reflexivity.
  - destruct ((3 <=? daysSinceDue today l) && isInGracePeriod l) eqn:E2.
    + destruct (Hknown eq_refl) as [tp Htp]. rewrite Htp. run_M.
      unfold saveLedger. rewrite Hsave.
      destruct (calculatePenalty_fields now
        (set_missedDate (Some (dueDate l))
           (set_status overdue (set_isInGracePeriod false l))))
        as (_ & Hu & Ha & _).
      cbn [userId emiApplicationId set_missedDate set_status
           set_isInGracePeriod] in Hu, Ha.
      rewrite Hu, Ha. unfold set_ledgers, set_apps, set_outbox. simpl.
      rewrite ?app_nil_r. reflexivity.
    + unfold saveLedger. rewrite Hsave.
      unfold set_ledgers, set_apps, set_outbox. simpl.
      rewrite ?app_nil_r. reflexivity.
Qed.

End OverdueEntry.

Section PenaltyFacts.

Import PenaltyLedger.

Lemma calculatePenalty_within now l :
  Cron.isOpen (status l) = true →
  now <= dueDate l + gracePeriodDays l * msPerDay →
  calculatePenalty now l = set_penalty true 0 0 (totalPayable l) l.
Proof.
  intros Ho Hn. unfold calculatePenalty. rewrite addDays_eq.
  destruct (status l); try discriminate Ho;
    (destruct (now <=? _) eqn:E; [reflexivity | lia]).
Qed.

Lemma calculatePenalty_past now l :
  Cron.isOpen (status l) = true →
  dueDate l + gracePeriodDays l * msPerDay < now →
  calculatePenalty now l
  = let daysOverdue :=
      (now - (dueDate l + gracePeriodDays l * msPerDay)) / msPerDay in
    let penaltyAmount :=
      round (inject_Z (originalAmount l) * (penaltyRate l / 100)
             * inject_Z daysOverdue)%Q in
    set_penalty false daysOverdue penaltyAmount
      (Some (originalAmount l + penaltyAmount)) l.
Proof.
  intros Ho Hn. unfold calculatePenalty. rewrite addDays_eq.
  destruct (status l); try discriminate Ho;
    (destruct (now <=? _) eqn:E; [lia | reflexivity]).
Qed.

(** Recomputing at the same instant changes nothing: the penalty is a
    function of the entry's amount, rate, due date and [now]. *)
Lemma calculatePenalty_idempotent now l :
  calculatePenalty now (calculatePenalty now l) = calculatePenalty now l.
Proof.
  unfold calculatePenalty.
  destruct (status l) eqn:Es; rewrite ?Es; try reflexivity;
    (destruct (now <=? _) eqn:E; cbn [status set_penalty dueDate
       gracePeriodDays originalAmount penaltyRate totalPayable];
     rewrite ?Es, ?E; reflexivity).
Qed.

(** Three whole days after the due date, any later instant of the day lies
    past a three-day grace period. *)
Lemma past_grace today now l :
  today < now →
  gracePeriodDays l = 3 →
  3 <= daysSinceDue today l →
  dueDate l + gracePeriodDays l * msPerDay < now.
Proof.
  intros Hn Hg Hd. rewrite Hg. unfold daysSinceDue in Hd.
  rewrite msPerDay_eq in *. Z.div_mod_to_equations. lia.
Qed.

Lemma totalKnown_regular today now l :
  today < now → gracePeriodDays l = 3 → totalKnown today now l.
Proof.
  intros Hn Hg Hge. unfold graceEnds in Hge.
  apply andb_prop in Hge as [Hd Hi]. apply Z.leb_le in Hd.
  unfold graceEnded. rewrite calculatePenalty_past.
  - simpl. eauto.
  - reflexivity.
  - cbn [dueDate gracePeriodDays set_missedDate set_status
         set_isInGracePeriod].
    destruct (dayOne_fields today now l) as (-> & _ & _ & -> & _).
    by apply past_grace with today.
Qed.

End PenaltyFacts.

(** ** The overdue pass as a whole *)

(** Saving every selected document back under its own [_id] rewrites the
    collection pointwise. *)
Lemma update_documents_from {A} (query : A → bool) (f : A → A)
    (saved rest : list A) :
  foldl (λ acc (d : nat * A), <[d.1 := f d.2]> acc) (saved ++ rest)
    (filter (λ d : nat * A, query d.2)
       (imap (λ i x, (length saved + i, x)%nat) rest))
  = saved ++ ((λ x, if query x then f x else x) <$> rest).
Proof.
  revert saved. induction rest as [|x rest IH]; intros saved; [done|].
  rewrite imap_cons. cbn [fmap list_fmap].
  assert (Hrest :
    imap ((λ i x, (length saved + i, x)%nat) ∘ S) rest
    = imap (λ i y, (length (saved ++ [f x]) + i, y)%nat) rest).
  { apply imap_ext. intros i y _. simpl. rewrite length_app. simpl.
    f_equal. lia. }
  assert (Hrest' :
    imap ((λ i x, (length saved + i, x)%nat) ∘ S) rest
    = imap (λ i y, (length (saved ++ [x]) + i, y)%nat) rest).
  { apply imap_ext. intros i y _. simpl. rewrite length_app. simpl.
    f_equal. lia. }
  destruct (query x) eqn:Hq.
  - rewrite filter_cons_True by (simpl; rewrite Hq; done).
    cbn [foldl fst snd]. rewrite Nat.add_0_r.
    rewrite insert_app_r_alt by lia. rewrite Nat.sub_diag. cbn [insert
      list_insert].
    rewrite Hrest.
    replace (saved ++ f x :: rest) with ((saved ++ [f x]) ++ rest)
      by (by rewrite <- app_assoc).
    rewrite IH. by rewrite <- app_assoc.
  - rewrite filter_cons_False by (simpl; rewrite Hq; exact id).
    rewrite Hrest'.
    replace (saved ++ x :: rest) with ((saved ++ [x]) ++ rest)
      by (by rewrite <- app_assoc).
    rewrite IH. by rewrite <- app_assoc.
Qed.

Lemma update_documents {A} (query : A → bool) (f : A → A) (coll : list A) :
  foldl (λ acc (d : nat * A), <[d.1 := f d.2]> acc) coll
    (filter (λ d : nat * A, query d.2) (documents coll))
  = (λ x, if query x then f x else x) <$> coll.
Proof. exact (update_documents_from query f [] coll). Qed.

(** The selected documents are documents of the collection. *)
Lemma selected_document {A} (query : A → bool) (coll : list A) (d : nat * A) :
  d ∈ filter (λ d : nat * A, query d.2) (documents coll) →
  query d.2 = true ∧ coll !! d.1 = Some d.2.
Proof.
  intros Hin. apply list_elem_of_filter in Hin as [Hq Hin].
  apply elem_of_lookup_imap in Hin as (j & b & -> & Hj). simpl in *.
  split; [by destruct (query b) | exact Hj].
Qed.

Section OverduePass.

Import PenaltyLedger.

Variable env : Faults.
Variables today now : Date.

Hypothesis saves : ∀ i, ledgerSaveFails env i = false.

Lemma overdue_loop (docs : list (nat * PenaltyLedger.t)) (w : World) :
  Forall (λ d, totalKnown today now d.2) docs →
  forOf docs (Cron.overdueEntry env today now) w
  = (Done tt,
     mkWorld (plans w) (kycs w)
       (foldl (λ acc d, overdueApps today now d.2 acc) (apps w) docs)
       (foldl (λ acc d, <[d.1 := afterOverdue today now d.2]> acc)
          (ledgers w) docs)
       (outbox w ++ concat ((λ d, overdueSends env today now d.2) <$> docs))).
Proof.
  revert w. induction docs as [|[i l] docs IH]; intros w Hk.
  - simpl. rewrite app_nil_r. by destruct w.
  - apply Forall_cons_1 in Hk as [Hl Hk].
    cbn [forOf]. unfold mbind at 1, M_bind at 1.
    rewrite (overdueEntry_run env today now i l w (saves i) Hl).
    rewrite (IH _ Hk). simpl. by rewrite <- app_assoc.
Qed.

End OverduePass.

Section OverdueFacts.

Import PenaltyLedger.

Lemma hasNotification_push ty ty' at_ l :
  hasNotification ty (push_notification ty' at_ l)
  = hasNotification ty l || NotificationType_eqb ty' ty.
Proof.
  unfold hasNotification, push_notification. cbn [notifications].
  rewrite existsb_app. simpl. by rewrite orb_false_r.
Qed.

Lemma dayOne_status today now l :
  Cron.isOpen (status l) = true →
  Cron.isOpen (status (dayOne today now l)) = true.
Proof. intros H. unfold dayOne. destruct (_ && _); done. Qed.

Lemma dayOne_notified today now l :
  daysSinceDue today l = 1 →
  hasNotification overdue_1_day (dayOne today now l) = true.
Proof.
  intros Hd. unfold dayOne. rewrite Hd. simpl.
  destruct (hasNotification overdue_1_day l) eqn:E; simpl; [exact E|].
  rewrite hasNotification_push. by rewrite orb_true_r.
Qed.

Lemma afterOverdue_fields today now l :
  dueDate (afterOverdue today now l) = dueDate l
  ∧ userId (afterOverdue today now l) = userId l
  ∧ gracePeriodDays (afterOverdue today now l) = gracePeriodDays l.
Proof.
  unfold afterOverdue, graceEnded, dayOne, calculatePenalty.
  repeat case_match; done.
Qed.

Lemma afterOverdue_open today now l :
  Cron.isOpen (status l) = true →
  Cron.isOpen (status (afterOverdue today now l)) = true.
Proof.
  intros Ho. pose proof (dayOne_status today now l Ho) as Ho1.
  unfold afterOverdue, graceEnded.
  destruct (graceEnds today now l); cbv zeta; destruct (negb _);
    repeat match goal with
           | |- context [status (calculatePenalty ?n ?x)] =>
               destruct (calculatePenalty_fields n x)
                 as (_ & _ & _ & _ & -> & _)
           end;
    cbn [status push_notification set_missedDate set_status];
    repeat match goal with
           | |- context [status (calculatePenalty ?n ?x)] =>
               destruct (calculatePenalty_fields n x)
                 as (_ & _ & _ & _ & -> & _)
           end;
    cbn [status push_notification set_missedDate set_status]; done.
Qed.

Lemma afterOverdue_notified today now l :
  daysSinceDue today l = 1 →
  hasNotification overdue_1_day (afterOverdue today now l) = true.
Proof.
  intros Hd. pose proof (dayOne_notified today now l Hd) as Hn.
  unfold afterOverdue, graceEnds. rewrite Hd.
  change (3 <=? 1) with false. cbn [andb].
  cbv zeta. destruct (negb _); [|exact Hn].
  unfold hasNotification in *.
  destruct (calculatePenalty_fields now (dayOne today now l))
    as (_ & _ & _ & _ & _ & _ & ->).
  exact Hn.
Qed.

Lemma afterOverdue_out_of_grace today now l :
  today < now →
  gracePeriodDays l = 3 →
  3 <= daysSinceDue today l →
  Cron.isOpen (status l) = true →
  isInGracePeriod (afterOverdue today now l) = false.
Proof.
  intros Hn Hg Hd Ho.
  pose proof (past_grace today now l Hn Hg Hd) as Hp.
  destruct (dayOne_fields today now l) as (Hdd & _ & _ & Hdg & Hdi).
  pose proof (dayOne_status today now l Ho) as Ho1.
  unfold afterOverdue. destruct (graceEnds today now l) eqn:E; cbv zeta.
  - unfold graceEnded. rewrite calculatePenalty_past;
      [|reflexivity
       |cbn [dueDate gracePeriodDays set_missedDate set_status
             set_isInGracePeriod]; by rewrite Hdd, Hdg].
    cbv zeta.
    cbn [isInGracePeriod push_notification set_penalty negb].
    rewrite calculatePenalty_past;
      [reflexivity | reflexivity
      |cbn [dueDate gracePeriodDays set_missedDate set_status
            set_isInGracePeriod push_notification set_penalty];
       by rewrite Hdd, Hdg].
  - unfold graceEnds in E. apply andb_false_iff in E as [E|E];
      [apply Z.leb_gt in E; lia|].
    rewrite E. cbn [negb].
    rewrite calculatePenalty_past;
      [reflexivity | exact Ho1 | by rewrite Hdd, Hdg].
Qed.

(** Past its grace period an entry is only re-priced. *)
Lemma afterOverdue_accrues today now l :
  isInGracePeriod l = false →
  daysSinceDue today l ≠ 1 →
  afterOverdue today now l = calculatePenalty now l.
Proof.
  intros Hg Hd. apply Z.eqb_neq in Hd.
  unfold afterOverdue, graceEnds, dayOne. rewrite Hd. cbn [andb].
  rewrite Hg, andb_false_r. cbv beta iota zeta. rewrite Hg. reflexivity.
Qed.

(** After the pass has handled an entry, a second pass on the same day has
    nothing to send for it. *)
Lemma overdueSends_after env today now1 now2 l :
  today < now1 →
  gracePeriodDays l = 3 →
  Cron.overdueQuery today l = true →
  overdueSends env today now2 (afterOverdue today now1 l) = [].
Proof.
  intros Hn Hg Hq.
  apply andb_prop in Hq as [_ Ho].
  destruct (afterOverdue_fields today now1 l) as (Hd & Hu & Hgp).
  assert (Hdsd : daysSinceDue today (afterOverdue today now1 l)
                 = daysSinceDue today l)
    by (unfold daysSinceDue; by rewrite Hd).
  unfold overdueSends, graceEnds. rewrite Hdsd.
  destruct (dayOne_fields today now2 (afterOverdue today now1 l))
    as (_ & _ & _ & _ & ->).
  destruct (daysSinceDue today l =? 1) eqn:E1; cbn [andb].
  - apply Z.eqb_eq in E1.
    rewrite (afterOverdue_notified today now1 l E1). rewrite E1. reflexivity.
  - destruct (3 <=? daysSinceDue today l) eqn:E3; cbn [andb];
      [|reflexivity].
    apply Z.leb_le in E3.
    by rewrite (afterOverdue_out_of_grace today now1 l Hn Hg E3 Ho).
Qed.

End OverdueFacts.

(** With a working datastore the overdue pass handles every selected
    entry, whatever the notification sink does. *)
Lemma processOverdueEmis_run (env : Faults) (now : Date) (w : World) :
  (∀ i, ledgerSaveFails env i = false) →
  afterMidnight now →
  regular w →
  ∃ apps',
    Cron.processOverdueEmis env now w
    = (Done tt,
       mkWorld (plans w) (kycs w) apps'
         (overdueUpdate (setHoursZero now) now <$> ledgers w)
         (outbox w
          ++ concat ((λ d : nat * PenaltyLedger.t,
                        overdueSends env (setHoursZero now) now d.2)
                     <$> filter (λ d : nat * PenaltyLedger.t,
                                   Cron.overdueQuery (setHoursZero now) d.2)
                           (documents (ledgers w))))).
Proof.
  intros Hs Hn Hr. unfold Cron.processOverdueEmis. cbv zeta. run_M.
  rewrite overdue_loop.
  - rewrite update_documents. eexists. reflexivity.
  - exact Hs.
  - apply Forall_forall. intros d Hd. apply list_elem_of_In in Hd.
    apply selected_document in Hd as [_ Hd].
    apply totalKnown_regular; [exact Hn|].
    unfold regular in Hr. rewrite Forall_lookup in Hr. eauto.
Qed.

Lemma overdueUpdate_regular today now (coll : list PenaltyLedger.t) :
  Forall (λ l, PenaltyLedger.gracePeriodDays l = 3) coll →
  Forall (λ l, PenaltyLedger.gracePeriodDays l = 3)
    (overdueUpdate today now <$> coll).
Proof.
  intros H. rewrite Forall_fmap. eapply List.Forall_impl; [|exact H].
  intros l Hl. simpl. unfold overdueUpdate.
  destruct (Cron.overdueQuery today l); [|exact Hl].
  destruct (afterOverdue_fields today now l) as (_ & _ & ->). exact Hl.
Qed.

(** A second overdue pass on the same day sends nothing. *)
Lemma processOverdueEmis_twice (env : Faults) (now1 now2 : Date) (w : World) :
  (∀ i, ledgerSaveFails env i = false) →
  afterMidnight now1 → afterMidnight now2 →
  setHoursZero now2 = setHoursZero now1 →
  regular w →
  outbox (Cron.processOverdueEmis env now2
            (Cron.processOverdueEmis env now1 w).2).2
  = outbox (Cron.processOverdueEmis env now1 w).2.
Proof.
  intros Hs Hn1 Hn2 Hday Hr.
  destruct (processOverdueEmis_run env now1 w Hs Hn1 Hr) as [apps1 E1].
  rewrite E1. cbn [snd].
  set (w1 := mkWorld _ _ _ _ _).
  assert (Hr1 : regular w1) by (by apply overdueUpdate_regular).
  destruct (processOverdueEmis_run env now2 w1 Hs Hn2 Hr1) as [apps2 E2].
  rewrite E2. cbn [snd outbox].
  match goal with
  | |- _ ++ concat ?sends = _ =>
      assert (Hnone : Forall (λ s, s = []) sends)
  end.
  { rewrite Forall_fmap. apply Forall_forall. intros d Hd.
    apply list_elem_of_In in Hd.
    apply selected_document in Hd as [Hq Hd]. simpl.
    unfold w1 in Hd. cbn [ledgers] in Hd.
    rewrite list_lookup_fmap in Hd.
    destruct (ledgers w !! d.1) as [l|] eqn:El; [|done].
    injection Hd as Hd. rewrite <- Hd in *. rewrite Hday in *.
    unfold overdueUpdate in *.
    destruct (Cron.overdueQuery (setHoursZero now1) l) eqn:Hql;
      [|congruence].
    apply overdueSends_after; [exact Hn1 | | exact Hql].
    unfold regular in Hr. rewrite Forall_lookup in Hr. eauto. }
  match goal with
  | |- _ ++ concat ?sends = _ => generalize dependent sends
  end.
  intros sends _ Hnone.
  induction Hnone as [|s sends -> _ IH]; simpl; [by rewrite app_nil_r|].
  exact IH.
Qed.

(** ** The upcoming pass, twice *)

Section UpcomingPass.

Import PenaltyLedger.

Variable env : Faults.
Hypothesis saves : ∀ i, ledgerSaveFails env i = false.

Lemma ledgerOf_push id due ty at_ l :
  Cron.ledgerOf id due (push_notification ty at_ l) = Cron.ledgerOf id due l.
Proof. reflexivity. Qed.

Lemma Reminded_insert id due coll i l ty at_ :
  coll !! i = Some l →
  Reminded id due coll →
  Reminded id due (<[i := push_notification ty at_ l]> coll).
Proof.
  intros Hi (l0 & Hin & Hq).
  apply list_elem_of_lookup in Hin as [j Hj].
  destruct (decide (j = i)) as [->|Hne].
  - assert (l0 = l) as -> by congruence.
    exists (push_notification ty at_ l). split.
    + apply list_elem_of_lookup. exists i.
      apply list_lookup_insert_eq. by eapply lookup_lt_Some.
    + apply andb_prop in Hq as [Hk Hn].
      rewrite ledgerOf_push, Hk, hasNotification_push, Hn. reflexivity.
  - exists l0. split; [|exact Hq].
    apply list_elem_of_lookup. exists j.
    by rewrite list_lookup_insert_ne.
Qed.

Lemma upcomingEntry_skip now id emi w :
  Reminded id (EmiApplication.nextDueDate emi) (ledgers w) →
  Cron.upcomingEntry env now (id, emi) w = (Done tt, w).
Proof.
  intros (l & Hin & Hq). unfold Cron.upcomingEntry. run_M.
  destruct (list_find _ (ledgers w)) as [[j l']|] eqn:E; [reflexivity|].
  apply list_find_None in E. rewrite Forall_forall in E.
  apply list_elem_of_In in Hin.
  destruct (E l Hin). by rewrite Hq.
Qed.

Lemma upcomingEntry_run now id emi w :
  is_Some (EmiApplication.nextDueDate emi) →
  ∃ w',
    Cron.upcomingEntry env now (id, emi) w = (Done tt, w')
    ∧ apps w' = apps w
    ∧ Reminded id (EmiApplication.nextDueDate emi) (ledgers w')
    ∧ (∀ id' due', Reminded id' due' (ledgers w) →
                   Reminded id' due' (ledgers w')).
Proof.
  intros [due Hdue]. unfold Cron.upcomingEntry. run_M.
  destruct (list_find _ (ledgers w)) as [[j l']|] eqn:E.
  { exists w. split; [reflexivity|]. split; [reflexivity|].
    split; [|auto].
    apply list_find_Some in E as (Hj & Hq & _).
    exists l'. split; [by eapply list_elem_of_lookup_2|].
    by destruct (_ && _). }
  unfold Cron.sendNotification. run_M.
  destruct (list_find
              (λ x, Cron.ledgerOf id (EmiApplication.nextDueDate emi) x)
              (ledgers w)) as [[lid l]|] eqn:E2.
  - unfold saveLedger. rewrite saves. eexists. split; [reflexivity|].
    apply list_find_Some in E2 as (Hl & Hk & _).
    cbn [apps ledgers set_ledgers set_outbox].
    split; [reflexivity|]. split.
    + exists (push_notification reminder_3_days now l). split.
      * apply list_elem_of_lookup. exists lid.
        apply list_lookup_insert_eq. by eapply lookup_lt_Some.
      * rewrite ledgerOf_push, hasNotification_push.
        destruct (Cron.ledgerOf _ _ l); [|done].
        by rewrite orb_true_r.
    + intros id' due' Hr. by apply Reminded_insert.
  - rewrite Hdue. unfold saveLedger. rewrite saves.
    eexists. split; [reflexivity|].
    cbn [apps ledgers set_ledgers set_outbox length].
    split; [reflexivity|]. split.
    + eexists. split; [apply elem_of_app; right; apply list_elem_of_singleton;
                       reflexivity|].
      rewrite ledgerOf_push, hasNotification_push.
      unfold Cron.ledgerOf, create, Cron.dateIs.
      cbn [emiApplicationId dueDate]. rewrite Nat.eqb_refl, Z.eqb_refl.
      by rewrite orb_true_r.
    + intros id' due' (l0 & Hin & Hq). exists l0.
      split; [apply elem_of_app; by left | exact Hq].
Qed.

Lemma upcoming_loop_run now docs w :
  Forall (λ d : nat * EmiApplication.t,
            is_Some (EmiApplication.nextDueDate d.2)) docs →
  ∃ w',
    forOf docs (Cron.upcomingEntry env now) w = (Done tt, w')
    ∧ apps w' = apps w
    ∧ (∀ d, d ∈ docs →
            Reminded d.1 (EmiApplication.nextDueDate d.2) (ledgers w'))
    ∧ (∀ id' due', Reminded id' due' (ledgers w) →
                   Reminded id' due' (ledgers w')).
Proof.
  revert w. induction docs as [|[id emi] docs IH]; intros w Hd.
  - exists w. repeat split; [|auto]. intros d Hin. inversion Hin.
  - apply Forall_cons_1 in Hd as [He Hd].
    destruct (upcomingEntry_run now id emi w He) as (w1 & E1 & Ha1 & Hr1 & Hm1).
    destruct (IH w1 Hd) as (w2 & E2 & Ha2 & Hr2 & Hm2).
    exists w2. cbn [forOf]. unfold mbind at 1, M_bind at 1. rewrite E1.
    split; [exact E2|]. split; [congruence|]. split; [|auto].
    intros d Hin. apply elem_of_cons in Hin as [->|Hin]; [|auto].
    apply Hm2. exact Hr1.
Qed.

Lemma upcoming_loop_skip now docs w :
  (∀ d, d ∈ docs →
        Reminded d.1 (EmiApplication.nextDueDate d.2) (ledgers w)) →
  forOf docs (Cron.upcomingEntry env now) w = (Done tt, w).
Proof.
  induction docs as [|[id emi] docs IH]; intros Hr; [reflexivity|].
  cbn [forOf]. unfold mbind at 1, M_bind at 1.
  rewrite upcomingEntry_skip by (apply (Hr (id, emi)); left).
  apply IH. intros d Hin. apply Hr. by right.
Qed.

(** A second upcoming pass on the same day changes nothing and sends
    nothing. *)
Lemma processUpcomingReminders_twice (now1 now2 : Date) (w : World) :
  setHoursZero (addDays now2 3) = setHoursZero (addDays now1 3) →
  Cron.processUpcomingReminders env now2
    (Cron.processUpcomingReminders env now1 w).2
  = (Done tt, (Cron.processUpcomingReminders env now1 w).2).
Proof.
  intros Hday. unfold Cron.processUpcomingReminders. cbv zeta. run_M.
  rewrite Hday.
  set (docs := filter _ (documents (apps w))).
  destruct (upcoming_loop_run now1 docs w) as (w1 & E1 & Ha1 & Hr1 & _).
  { apply Forall_forall. intros d Hin. apply list_elem_of_In in Hin.
    apply selected_document in Hin as [Hq _].
    unfold Cron.activeDueWithin, Cron.dateWithin in Hq.
    destruct (EmiApplication.nextDueDate d.2); [eauto|].
    by rewrite andb_false_r in Hq. }
  rewrite E1. cbn [snd]. rewrite Ha1. fold docs.
  by apply upcoming_loop_skip.
Qed.

End UpcomingPass.

(** ** The due-today pass, twice *)

(** Replacing a document by one the query cannot tell apart does not move
    the first match. *)
Lemma list_find_insert_other {A} (P : A → Prop) `{!∀ x, Decision (P x)}
    (coll : list A) (i j : nat) (x y z : A) :
  coll !! i = Some y → (P x ↔ P y) → j ≠ i →
  list_find P coll = Some (j, z) →
  list_find P (<[i := x]> coll) = Some (j, z).
Proof.
  intros Hi Hxy Hne (Hj & Hz & Hleast)%list_find_Some.
  apply list_find_Some. rewrite list_lookup_insert_ne by done.
  split_and!; [done..|]. intros k u Hk Hlt.
  destruct (decide (k = i)) as [->|Hki].
  - rewrite list_lookup_insert_eq in Hk by (by eapply lookup_lt_Some).
    injection Hk as <-. rewrite Hxy. by eapply Hleast.
  - rewrite list_lookup_insert_ne in Hk by done. by eapply Hleast.
Qed.

Lemma list_find_insert_here {A} (P : A → Prop) `{!∀ x, Decision (P x)}
    (coll : list A) (i : nat) (x y : A) :
  (P x ↔ P y) →
  list_find P coll = Some (i, y) →
  list_find P (<[i := x]> coll) = Some (i, x).
Proof.
  intros Hxy (Hi & Hy & Hleast)%list_find_Some.
  apply list_find_Some.
  rewrite list_lookup_insert_eq by (by eapply lookup_lt_Some).
  split_and!; [done | by apply Hxy |]. intros k u Hk Hlt.
  rewrite list_lookup_insert_ne in Hk by lia. by eapply Hleast.
Qed.

Section DueTodayPass.

Import PenaltyLedger.

Variable env : Faults.
Hypothesis saves : ∀ i, ledgerSaveFails env i = false.

Lemma find_after_push id due coll i l ty at_ :
  coll !! i = Some l →
  ∀ j z,
    list_find (λ l, Cron.ledgerOf id due l) coll = Some (j, z) →
    list_find (λ l, Cron.ledgerOf id due l)
      (<[i := push_notification ty at_ l]> coll)
    = Some (j, if decide (j = i) then push_notification ty at_ l else z).
Proof.
  intros Hi j z Hf. destruct (decide (j = i)) as [->|Hne].
  - assert (z = l) as ->.
    { apply list_find_Some in Hf as (Hz & _). congruence. }
    by apply (list_find_insert_here _ coll i _ l).
  - by apply (list_find_insert_other _ coll i j _ l).
Qed.

Lemma HasLedger_insert id due coll i l ty at_ :
  coll !! i = Some l →
  HasLedger id due coll →
  HasLedger id due (<[i := push_notification ty at_ l]> coll).
Proof.
  intros Hi [[j z] Hf]. unfold HasLedger.
  rewrite (find_after_push id due coll i l ty at_ Hi j z Hf). eauto.
Qed.

Lemma DueNoted_insert id due coll i l ty at_ :
  coll !! i = Some l →
  DueNoted id due coll →
  DueNoted id due (<[i := push_notification ty at_ l]> coll).
Proof.
  intros Hi (j & z & Hf & Hn). unfold DueNoted.
  rewrite (find_after_push id due coll i l ty at_ Hi j z Hf).
  eexists _, _. split; [reflexivity|].
  destruct (decide (j = i)) as [->|_]; [|exact Hn].
  assert (z = l) as ->.
  { apply list_find_Some in Hf as (Hz & _). congruence. }
  by rewrite hasNotification_push, Hn.
Qed.

Lemma dueTodayEntry_skip now id emi w :
  DueNoted id (EmiApplication.nextDueDate emi) (ledgers w) →
  Cron.dueTodayEntry env now (id, emi) w = (Done tt, w).
Proof.
  intros (lid & l & Hf & Hn). unfold Cron.dueTodayEntry. run_M.
  rewrite Hf, Hn. reflexivity.
Qed.

Lemma dueTodayEntry_run now id emi w :
  HasLedger id (EmiApplication.nextDueDate emi) (ledgers w) →
  ∃ w',
    Cron.dueTodayEntry env now (id, emi) w = (Done tt, w')
    ∧ apps w' = apps w
    ∧ DueNoted id (EmiApplication.nextDueDate emi) (ledgers w')
    ∧ (∀ id' due', DueNoted id' due' (ledgers w) →
                   DueNoted id' due' (ledgers w'))
    ∧ (∀ id' due', HasLedger id' due' (ledgers w) →
                   HasLedger id' due' (ledgers w')).
Proof.
  intros [[lid l] Hf]. unfold Cron.dueTodayEntry. run_M. rewrite Hf.
  destruct (hasNotification due_today l) eqn:Hn.
  { exists w. repeat split; auto. by exists lid, l. }
  unfold Cron.sendNotification, saveLedger. run_M. rewrite saves.
  eexists. split; [reflexivity|].
  cbn [apps ledgers set_ledgers set_outbox].
  assert (Hl : ledgers w !! lid = Some l)
    by (by apply list_find_Some in Hf as (? & _)).
  split; [reflexivity|]. split; [|split].
  - exists lid, (push_notification due_today now l). split.
    + rewrite (find_after_push _ _ _ lid l due_today now Hl lid l Hf).
      by rewrite decide_True.
    + rewrite hasNotification_push. by rewrite orb_true_r.
  - intros id' due'. by apply DueNoted_insert.
  - intros id' due'. by apply HasLedger_insert.
Qed.

Lemma dueToday_loop_run now docs w :
  (∀ d : nat * EmiApplication.t, d ∈ docs →
     HasLedger d.1 (EmiApplication.nextDueDate d.2) (ledgers w)) →
  ∃ w',
    forOf docs (Cron.dueTodayEntry env now) w = (Done tt, w')
    ∧ apps w' = apps w
    ∧ (∀ d, d ∈ docs →
            DueNoted d.1 (EmiApplication.nextDueDate d.2) (ledgers w'))
    ∧ (∀ id' due', DueNoted id' due' (ledgers w) →
                   DueNoted id' due' (ledgers w')).
Proof.
  revert w. induction docs as [|[id emi] docs IH]; intros w Hd.
  - exists w. repeat split; [|auto]. intros d Hin. inversion Hin.
  - destruct (dueTodayEntry_run now id emi w) as (w1 & E1 & Ha1 & Hr1 & Hm1 & Hh1).
    { apply (Hd (id, emi)). left. }
    destruct (IH w1) as (w2 & E2 & Ha2 & Hr2 & Hm2).
    { intros d Hin. apply Hh1, Hd. by right. }
    exists w2. cbn [forOf]. unfold mbind at 1, M_bind at 1. rewrite E1.
    split; [exact E2|]. split; [congruence|]. split; [|auto].
    intros d Hin. apply elem_of_cons in Hin as [->|Hin]; [|auto].
    apply Hm2. exact Hr1.
Qed.

Lemma dueToday_loop_skip now docs w :
  (∀ d : nat * EmiApplication.t, d ∈ docs →
     DueNoted d.1 (EmiApplication.nextDueDate d.2) (ledgers w)) →
  forOf docs (Cron.dueTodayEntry env now) w = (Done tt, w).
Proof.
  induction docs as [|[id emi] docs IH]; intros Hr; [reflexivity|].
  cbn [forOf]. unfold mbind at 1, M_bind at 1.
  rewrite dueTodayEntry_skip by (apply (Hr (id, emi)); left).
  apply IH. intros d Hin. apply Hr. by right.
Qed.

(** When every application due today has its ledger entry, a second
    due-today pass on the same day changes nothing and sends nothing. *)
Lemma processDueDateReminders_twice (now1 now2 : Date) (w : World) :
  setHoursZero now2 = setHoursZero now1 →
  (∀ id a,
     apps w !! id = Some a →
     Cron.activeDueWithin (setHoursZero now1)
       (addDays (setHoursZero now1) 1) a = true →
     HasLedger id (EmiApplication.nextDueDate a) (ledgers w)) →
  Cron.processDueDateReminders env now2
    (Cron.processDueDateReminders env now1 w).2
  = (Done tt, (Cron.processDueDateReminders env now1 w).2).
Proof.
  intros Hday Hl. unfold Cron.processDueDateReminders. cbv zeta. run_M.
  rewrite Hday.
  set (docs := filter _ (documents (apps w))).
  destruct (dueToday_loop_run now1 docs w) as (w1 & E1 & Ha1 & Hr1 & _).
  { intros d Hin. apply selected_document in Hin as [Hq Hd]. eauto. }
  rewrite E1. cbn [snd]. rewrite Ha1. fold docs.
  by apply dueToday_loop_skip.
Qed.

End DueTodayPass.

Lemma same_day_window (now1 now2 : Date) :
  setHoursZero now2 = setHoursZero now1 →
  setHoursZero (addDays now2 3) = setHoursZero (addDays now1 3).
Proof.
  rewrite !addDays_eq, !setHoursZero_eq. intros H.
  rewrite !Z.mod_add by (rewrite msPerDay_eq; lia). lia.
Qed.

(** ** C4: notifications of a repeated pass *)

(** C4, as stated, fails for [due_today]: without a ledger entry the
    notification is sent and logged nowhere, and a second pass on the same
    morning sends it again. *)
Lemma due_today_sent_twice :
  let now := ofCivil 2025 3 5 (9 * 3600000) in
  let w2 := (Cron.processDueDateReminders noFaults now
               (Cron.processDueDateReminders noFaults now activeWorld).2).2 in
  outbox w2
  = [ mkSent 1%nat PenaltyLedger.due_today true;
      mkSent 1%nat PenaltyLedger.due_today true ]
  ∧ ledgers w2 = [].
Proof. vm_compute. split; reflexivity. Qed.

(** C4, amended. With a working datastore and every ledger entry on the
    three-day grace period, a pass repeated on the same day sends nothing
    the second time: the upcoming pass ([reminder_3_days]) and the overdue
    pass ([overdue_1_day], [overdue_grace_ended]; runs after local
    midnight) find their record, or the cleared grace flag, in the ledger
    entry; the due-today pass does so for every due application that has a
    ledger entry, the only place where [due_today] is logged. *)
Theorem notifications_sent_once (env : Faults) (now1 now2 : Date)
    (w : World) :
  (∀ i, ledgerSaveFails env i = false) →
  setHoursZero now2 = setHoursZero now1 →
  afterMidnight now1 → afterMidnight now2 →
  regular w →
  outbox (Cron.processUpcomingReminders env now2
            (Cron.processUpcomingReminders env now1 w).2).2
  = outbox (Cron.processUpcomingReminders env now1 w).2
  ∧ ((∀ id a,
        apps w !! id = Some a →
        Cron.activeDueWithin (setHoursZero now1)
          (addDays (setHoursZero now1) 1) a = true →
        HasLedger id (EmiApplication.nextDueDate a) (ledgers w)) →
     outbox (Cron.processDueDateReminders env now2
               (Cron.processDueDateReminders env now1 w).2).2
     = outbox (Cron.processDueDateReminders env now1 w).2)
  ∧ outbox (Cron.processOverdueEmis env now2
              (Cron.processOverdueEmis env now1 w).2).2
    = outbox (Cron.processOverdueEmis env now1 w).2.
Proof.
  intros Hs Hday Hn1 Hn2 Hr. split; [|split].
  - rewrite (processUpcomingReminders_twice env Hs now1 now2 w
               (same_day_window now1 now2 Hday)).
    reflexivity.
  - intros Hl.
    rewrite (processDueDateReminders_twice env Hs now1 now2 w Hday Hl).
    reflexivity.
  - by apply processOverdueEmis_twice.
Qed.

Lemma notifications_sent_once_witness :
  let morning := ofCivil 2025 3 6 (9 * 3600000) in
  let evening := ofCivil 2025 3 6 (18 * 3600000) in
  outbox (Cron.processOverdueEmis noFaults evening
            (Cron.processOverdueEmis noFaults morning freshLedgers).2).2
  = outbox (Cron.processOverdueEmis noFaults morning freshLedgers).2.
Proof.
  refine (proj2 (proj2 (notifications_sent_once noFaults
                          (ofCivil 2025 3 6 (9 * 3600000))
                          (ofCivil 2025 3 6 (18 * 3600000))
                          freshLedgers _ _ _ _ _))).
  - reflexivity.
  - reflexivity.
  - reflexivity.
  - reflexivity.
  - repeat constructor.
Defined.

(** ** C7: failures inside a run *)

(** C7, as stated, fails: when saving the first entry fails, the overdue
    pass throws and the second entry is never handled (it stays [pending]
    on its first overdue day, although the first entry's notification has
    gone out); only the run as a whole returns normally. *)
Lemma save_failure_aborts_pass :
  let now := ofCivil 2025 3 6 (9 * 3600000) in
  Cron.processOverdueEmis firstSaveFails now freshLedgers
  = (Thrown PersistenceError,
     mkWorld [] [] [] (ledgers freshLedgers)
       [mkSent 7%nat PenaltyLedger.overdue_1_day true])
  ∧ PenaltyLedger.status
      <$> ledgers (Cron.processOverdueEmis noFaults now freshLedgers).2
    = [PenaltyLedger.grace_period; PenaltyLedger.grace_period]
  ∧ (Cron.runPaymentReminderJob firstSaveFails now freshLedgers).1
    = Done tt.
Proof. vm_compute. repeat split; reflexivity. Qed.

(** C7, amended. No error leaves a run of the job: whatever is thrown
    inside is caught by the run's single try/catch.  A failure of the
    notification sink is swallowed by [sendNotification] and aborts
    nothing: with a working datastore (and a run after local midnight over
    entries on the three-day grace period) the overdue pass returns
    normally and has handled every selected entry, whatever the sink did.
    A failing save is not caught per entry. *)
Theorem run_never_throws (env : Faults) (now : Date) (w : World) :
  (Cron.runPaymentReminderJob env now w).1 = Done tt
  ∧ ((∀ i, ledgerSaveFails env i = false) →
     afterMidnight now →
     regular w →
     (Cron.processOverdueEmis env now w).1 = Done tt
     ∧ ledgers (Cron.processOverdueEmis env now w).2
       = overdueUpdate (setHoursZero now) now <$> ledgers w).
Proof.
  split.
  - unfold Cron.runPaymentReminderJob, tryCatch.
    match goal with
    | |- context [match ?r with _ => _ end] => destruct r as [[[]|e] w']
    end; reflexivity.
  - intros Hs Hn Hr.
    destruct (processOverdueEmis_run env now w Hs Hn Hr) as [apps' E].
    rewrite E. split; reflexivity.
Qed.

Lemma run_never_throws_witness :
  let now := ofCivil 2025 3 6 (9 * 3600000) in
  (Cron.processOverdueEmis sinkDown now freshLedgers).1 = Done tt
  ∧ ledgers (Cron.processOverdueEmis sinkDown now freshLedgers).2
    = overdueUpdate (setHoursZero now) now <$> ledgers freshLedgers.
Proof.
  refine (proj2 (run_never_throws sinkDown
                   (ofCivil 2025 3 6 (9 * 3600000)) freshLedgers) _ _ _).
  - reflexivity.
  - reflexivity.
  - repeat constructor.
Defined.

(** ** C2: an entry through its first days overdue *)

Section DailyRuns.

Import PenaltyLedger.

Variable env : Faults.
Variables D r : Z.

Hypothesis saves : ∀ i, ledgerSaveFails env i = false.
Hypothesis midnight : D mod msPerDay = 0.
Hypothesis daytime : 0 < r < msPerDay.

Lemma run_midnight (k : nat) :
  setHoursZero (D + Z.of_nat k * msPerDay + r) = D + Z.of_nat k * msPerDay.
Proof.
  pose proof (Z.div_mod D msPerDay) as HD. rewrite midnight in HD.
  replace (D + Z.of_nat k * msPerDay + r)
    with ((D / msPerDay + Z.of_nat k) * msPerDay + r)
    by (rewrite msPerDay_eq in *; lia).
  rewrite setHoursZero_offset by lia. rewrite msPerDay_eq in *. lia.
Qed.

Lemma dailyRuns_ledgers (k : nat) (w : World) :
  regular w →
  regular (dailyRuns env D r k w)
  ∧ ledgers (dailyRuns env D r k w) = entryAfter D r k <$> ledgers w.
Proof.
  intros Hr. induction k as [|k [IHr IHl]].
  - split; [exact Hr|]. simpl. by rewrite list_fmap_id.
  - cbn [dailyRuns entryAfter].
    destruct (processOverdueEmis_run env
                (D + Z.of_nat (S k) * msPerDay + r)
                (dailyRuns env D r k w)) as [apps' E].
    + exact saves.
    + unfold afterMidnight. rewrite run_midnight. lia.
    + exact IHr.
    + rewrite E. cbn [snd ledgers]. rewrite run_midnight. split.
      * by apply overdueUpdate_regular.
      * rewrite IHl, <- list_fmap_compose. reflexivity.
Qed.

Lemma days_since (k : nat) (l : PenaltyLedger.t) :
  dueDate l = D →
  daysSinceDue (D + Z.of_nat k * msPerDay) l = Z.of_nat k.
Proof.
  intros Hd. unfold daysSinceDue. rewrite Hd.
  replace (D + Z.of_nat k * msPerDay - D) with (Z.of_nat k * msPerDay) by lia.
  apply Z.div_mul. rewrite msPerDay_eq. lia.
Qed.

Lemma days_overdue (k : nat) :
  (3 <= k)%nat →
  (D + Z.of_nat k * msPerDay + r - (D + 3 * msPerDay)) / msPerDay
  = Z.of_nat k - 3.
Proof.
  intros Hk.
  replace (D + Z.of_nat k * msPerDay + r - (D + 3 * msPerDay))
    with ((Z.of_nat k - 3) * msPerDay + r) by lia.
  rewrite Z.div_add_l by (rewrite msPerDay_eq; lia).
  rewrite Z.div_small by lia. lia.
Qed.

Lemma query_open (k : nat) (l : PenaltyLedger.t) :
  (1 <= k)%nat → dueDate l = D → Cron.isOpen (status l) = true →
  Cron.overdueQuery (D + Z.of_nat k * msPerDay) l = true.
Proof.
  intros Hk Hd Ho. unfold Cron.overdueQuery. rewrite Hd, Ho.
  rewrite andb_true_r. apply Z.ltb_lt. rewrite msPerDay_eq. lia.
Qed.

(** Day 1: the entry enters its grace period and the reminder is logged. *)
Lemma entry_day_one (l : PenaltyLedger.t) :
  dueDate l = D → status l = pending → isInGracePeriod l = true →
  hasNotification overdue_1_day l = false →
  entryAfter D r 1 l
  = push_notification overdue_1_day (D + 1 * msPerDay + r)
      (set_status grace_period l).
Proof.
  intros Hd Hs Hg Hn. cbn [entryAfter]. unfold overdueUpdate.
  rewrite query_open by first [lia | exact Hd | by rewrite Hs].
  unfold afterOverdue, graceEnds, dayOne.
  rewrite (days_since 1 l Hd), Hn.
  change (Z.of_nat 1 =? 1) with true. change (3 <=? Z.of_nat 1) with false.
  cbn [andb negb isInGracePeriod push_notification set_status].
  rewrite Hg. reflexivity.
Qed.

(** Day 2: nothing changes. *)
Lemma entry_day_two (l : PenaltyLedger.t) :
  dueDate l = D → status l = pending → isInGracePeriod l = true →
  hasNotification overdue_1_day l = false →
  entryAfter D r 2 l = entryAfter D r 1 l.
Proof.
  intros Hd Hs Hg Hn.
  change (entryAfter D r 2 l)
    with (overdueUpdate (D + Z.of_nat 2 * msPerDay)
            (D + Z.of_nat 2 * msPerDay + r) (entryAfter D r 1 l)).
  rewrite (entry_day_one l Hd Hs Hg Hn). unfold overdueUpdate.
  rewrite query_open by first [lia | exact Hd | reflexivity].
  unfold afterOverdue, graceEnds, dayOne.
  rewrite (days_since 2) by exact Hd.
  change (Z.of_nat 2 =? 1) with false. change (3 <=? Z.of_nat 2) with false.
  cbn [andb negb isInGracePeriod push_notification set_status].
  rewrite Hg. reflexivity.
Qed.

(** From day 3 on the entry is overdue and its days are counted from the
    end of the third day. *)
Lemma entry_from_day_three (l : PenaltyLedger.t) (k : nat) :
  dueDate l = D → gracePeriodDays l = 3 → status l = pending →
  isInGracePeriod l = true →
  hasNotification overdue_1_day l = false →
  (3 <= k)%nat →
  dueDate (entryAfter D r k l) = D
  ∧ gracePeriodDays (entryAfter D r k l) = 3
  ∧ status (entryAfter D r k l) = overdue
  ∧ isInGracePeriod (entryAfter D r k l) = false
  ∧ missedDate (entryAfter D r k l) = Some D
  ∧ daysOverdue (entryAfter D r k l) = Z.of_nat k - 3.
Proof.
  intros Hd Hgp Hs Hg Hn Hk.
  induction k as [|k IH]; [lia|].
  assert (Hnow : D + 3 * msPerDay < D + Z.of_nat (S k) * msPerDay + r)
    by (rewrite msPerDay_eq in *; lia).
  destruct (decide (k = 2%nat)) as [->|Hk2].
  - (* the run of day 3 ends the grace period *)
    change (entryAfter D r 3 l)
      with (overdueUpdate (D + Z.of_nat 3 * msPerDay)
              (D + Z.of_nat 3 * msPerDay + r) (entryAfter D r 2 l)).
    rewrite (entry_day_two l Hd Hs Hg Hn), (entry_day_one l Hd Hs Hg Hn).
    unfold overdueUpdate.
    rewrite query_open by first [lia | exact Hd | reflexivity].
    unfold afterOverdue, graceEnds, graceEnded, dayOne.
    rewrite (days_since 3) by exact Hd.
    change (Z.of_nat 3 =? 1) with false. change (3 <=? Z.of_nat 3) with true.
    cbn [andb negb isInGracePeriod push_notification set_status dueDate].
    rewrite Hg. cbv zeta.
    rewrite calculatePenalty_past;
      [|reflexivity
       |cbn [dueDate gracePeriodDays set_missedDate set_status
             set_isInGracePeriod push_notification set_penalty];
        rewrite Hd, Hgp; exact Hnow].
    cbv zeta.
    cbn [isInGracePeriod push_notification set_penalty negb].
    rewrite calculatePenalty_past;
      [|reflexivity
       |cbn [dueDate gracePeriodDays set_missedDate set_status
             set_isInGracePeriod push_notification set_penalty];
        rewrite Hd, Hgp; exact Hnow].
    cbv zeta.
    cbn [dueDate gracePeriodDays status isInGracePeriod missedDate
         daysOverdue set_penalty set_missedDate set_status
         set_isInGracePeriod push_notification].
    rewrite Hd, Hgp. repeat split; try reflexivity.
    apply (days_overdue 3). lia.
  - (* later runs recompute the penalty *)
    destruct IH as (Id & Igp & Is & Ig & Im & _); [lia|].
    cbn [entryAfter]. unfold overdueUpdate.
    rewrite query_open by first [lia | exact Id | by rewrite Is].
    rewrite afterOverdue_accrues;
      [|exact Ig | rewrite (days_since (S k)) by exact Id; lia].
    rewrite calculatePenalty_past;
      [|by rewrite Is | rewrite Id, Igp; exact Hnow].
    cbv zeta.
    cbn [dueDate gracePeriodDays status isInGracePeriod missedDate
         daysOverdue set_penalty].
    rewrite Id, Igp. repeat split; try assumption.
    apply (days_overdue (S k)). lia.
Qed.

End DailyRuns.

(** The same runs for an entry whose due date falls at time [t] of its
    day, as the due dates of a schedule do. *)
Section DailyRunsAt.

Import PenaltyLedger.

Variables D t r : Z.

Hypothesis dueTime : 0 < t < msPerDay.
Hypothesis daytime : 0 < r < msPerDay.

Lemma days_since_at (k : nat) (l : PenaltyLedger.t) :
  (1 <= k)%nat →
  dueDate l = D + t →
  daysSinceDue (D + Z.of_nat k * msPerDay) l = Z.of_nat k - 1.
Proof.
  intros Hk Hd. unfold daysSinceDue. rewrite Hd.
  replace (D + Z.of_nat k * msPerDay - (D + t))
    with ((Z.of_nat k - 1) * msPerDay + (msPerDay - t)) by lia.
  rewrite Z.div_add_l by (rewrite msPerDay_eq; lia).
  rewrite Z.div_small by lia. lia.
Qed.

Lemma days_overdue_at (k : nat) :
  (4 <= k)%nat →
  (D + Z.of_nat k * msPerDay + r - (D + t + 3 * msPerDay)) / msPerDay
  = if r <? t then Z.of_nat k - 4 else Z.of_nat k - 3.
Proof.
  intros Hk. destruct (r <? t) eqn:E.
  - apply Z.ltb_lt in E.
    replace (D + Z.of_nat k * msPerDay + r - (D + t + 3 * msPerDay))
      with ((Z.of_nat k - 4) * msPerDay + (msPerDay + r - t)) by lia.
    rewrite Z.div_add_l by (rewrite msPerDay_eq; lia).
    rewrite Z.div_small by lia. lia.
  - apply Z.ltb_ge in E.
    replace (D + Z.of_nat k * msPerDay + r - (D + t + 3 * msPerDay))
      with ((Z.of_nat k - 3) * msPerDay + (r - t)) by lia.
    rewrite Z.div_add_l by (rewrite msPerDay_eq; lia).
    rewrite Z.div_small by lia. lia.
Qed.

Lemma query_open_at (k : nat) (l : PenaltyLedger.t) :
  (1 <= k)%nat → dueDate l = D + t → Cron.isOpen (status l) = true →
  Cron.overdueQuery (D + Z.of_nat k * msPerDay) l = true.
Proof.
  intros Hk Hd Ho. unfold Cron.overdueQuery. rewrite Hd, Ho.
  rewrite andb_true_r. apply Z.ltb_lt.
  assert (msPerDay <= Z.of_nat k * msPerDay) by (rewrite msPerDay_eq; lia).
  lia.
Qed.

(** Day 1: less than a whole day has passed; the entry is saved as it
    was. *)
Lemma entry_at_day_one (l : PenaltyLedger.t) :
  dueDate l = D + t → status l = pending → isInGracePeriod l = true →
  entryAfter D r 1 l = l.
Proof.
  intros Hd Hs Hg. cbn [entryAfter]. unfold overdueUpdate.
  rewrite query_open_at by first [lia | exact Hd | by rewrite Hs].
  unfold afterOverdue, graceEnds, dayOne.
  rewrite (days_since_at 1 l) by first [lia | exact Hd].
  change (Z.of_nat 1 - 1 =? 1) with false.
  change (3 <=? Z.of_nat 1 - 1) with false.
  cbn [andb negb]. rewrite Hg. reflexivity.
Qed.

(** Day 2: the entry enters its grace period and the reminder is logged. *)
Lemma entry_at_day_two (l : PenaltyLedger.t) :
  dueDate l = D + t → status l = pending → isInGracePeriod l = true →
  hasNotification overdue_1_day l = false →
  entryAfter D r 2 l
  = push_notification overdue_1_day (D + 2 * msPerDay + r)
      (set_status grace_period l).
Proof.
  intros Hd Hs Hg Hn.
  change (entryAfter D r 2 l)
    with (overdueUpdate (D + Z.of_nat 2 * msPerDay)
            (D + Z.of_nat 2 * msPerDay + r) (entryAfter D r 1 l)).
  rewrite (entry_at_day_one l Hd Hs Hg). unfold overdueUpdate.
  rewrite query_open_at by first [lia | exact Hd | by rewrite Hs].
  unfold afterOverdue, graceEnds, dayOne.
  rewrite (days_since_at 2 l) by first [lia | exact Hd]. rewrite Hn.
  change (Z.of_nat 2 - 1 =? 1) with true.
  change (3 <=? Z.of_nat 2 - 1) with false.
  cbn [andb negb isInGracePeriod push_notification set_status].
  rewrite Hg. reflexivity.
Qed.

(** Day 3: nothing changes. *)
Lemma entry_at_day_three (l : PenaltyLedger.t) :
  dueDate l = D + t → status l = pending → isInGracePeriod l = true →
  hasNotification overdue_1_day l = false →
  entryAfter D r 3 l = entryAfter D r 2 l.
Proof.
  intros Hd Hs Hg Hn.
  change (entryAfter D r 3 l)
    with (overdueUpdate (D + Z.of_nat 3 * msPerDay)
            (D + Z.of_nat 3 * msPerDay + r) (entryAfter D r 2 l)).
  rewrite (entry_at_day_two l Hd Hs Hg Hn). unfold overdueUpdate.
  rewrite query_open_at by first [lia | exact Hd | reflexivity].
  unfold afterOverdue, graceEnds, dayOne.
  rewrite (days_since_at 3) by first [lia | exact Hd].
  change (Z.of_nat 3 - 1 =? 1) with false.
  change (3 <=? Z.of_nat 3 - 1) with false.
  cbn [andb negb isInGracePeriod push_notification set_status].
  rewrite Hg. reflexivity.
Qed.

(** From day 4 on the entry is overdue; its days are counted from the
    due time three days later, so the run of a day counts that day only
    if it is not earlier in the day than the due time. *)
Lemma entry_from_day_four (l : PenaltyLedger.t) (k : nat) :
  dueDate l = D + t → gracePeriodDays l = 3 → status l = pending →
  isInGracePeriod l = true →
  hasNotification overdue_1_day l = false →
  (4 <= k)%nat →
  dueDate (entryAfter D r k l) = D + t
  ∧ gracePeriodDays (entryAfter D r k l) = 3
  ∧ status (entryAfter D r k l) = overdue
  ∧ isInGracePeriod (entryAfter D r k l) = false
  ∧ missedDate (entryAfter D r k l) = Some (D + t)
  ∧ daysOverdue (entryAfter D r k l)
    = if r <? t then Z.of_nat k - 4 else Z.of_nat k - 3.
Proof.
  intros Hd Hgp Hs Hg Hn Hk.
  induction k as [|k IH]; [lia|].
  assert (Hnow : D + t + 3 * msPerDay < D + Z.of_nat (S k) * msPerDay + r).
  { assert (4 * msPerDay <= Z.of_nat (S k) * msPerDay)
      by (rewrite msPerDay_eq; lia).
    lia. }
  destruct (decide (k = 3%nat)) as [->|Hk3].
  - (* the run of day 4 ends the grace period *)
    change (entryAfter D r 4 l)
      with (overdueUpdate (D + Z.of_nat 4 * msPerDay)
              (D + Z.of_nat 4 * msPerDay + r) (entryAfter D r 3 l)).
    rewrite (entry_at_day_three l Hd Hs Hg Hn),
      (entry_at_day_two l Hd Hs Hg Hn).
    unfold overdueUpdate.
    rewrite query_open_at by first [lia | exact Hd | reflexivity].
    unfold afterOverdue, graceEnds, graceEnded, dayOne.
    rewrite (days_since_at 4) by first [lia | exact Hd].
    change (Z.of_nat 4 - 1 =? 1) with false.
    change (3 <=? Z.of_nat 4 - 1) with true.
    cbn [andb negb isInGracePeriod push_notification set_status dueDate].
    rewrite Hg. cbv zeta.
    rewrite calculatePenalty_past;
      [|reflexivity
       |cbn [dueDate gracePeriodDays set_missedDate set_status
             set_isInGracePeriod push_notification set_penalty];
        rewrite Hd, Hgp; exact Hnow].
    cbv zeta.
    cbn [isInGracePeriod push_notification set_penalty negb].
    rewrite calculatePenalty_past;
      [|reflexivity
       |cbn [dueDate gracePeriodDays set_missedDate set_status
             set_isInGracePeriod push_notification set_penalty];
        rewrite Hd, Hgp; exact Hnow].
    cbv zeta.
    cbn [dueDate gracePeriodDays status isInGracePeriod missedDate
         daysOverdue set_penalty set_missedDate set_status
         set_isInGracePeriod push_notification].
    rewrite Hd, Hgp. repeat split; try reflexivity.
    apply (days_overdue_at 4). lia.
  - (* later runs recompute the penalty *)
    destruct IH as (Id & Igp & Is & Ig & Im & _); [lia|].
    cbn [entryAfter]. unfold overdueUpdate.
    rewrite query_open_at by first [lia | exact Id | by rewrite Is].
    rewrite afterOverdue_accrues;
      [|exact Ig
       |rewrite (days_since_at (S k)) by first [lia | exact Id]; lia].
    rewrite calculatePenalty_past;
      [|by rewrite Is | rewrite Id, Igp; exact Hnow].
    cbv zeta.
    cbn [dueDate gracePeriodDays status isInGracePeriod missedDate
         daysOverdue set_penalty].
    rewrite Id, Igp. repeat split; try assumption.
    apply (days_overdue_at (S k)). lia.
Qed.

End DailyRunsAt.

(** C2, as stated, fails.  Due dates keep the time of day at which the
    schedule was generated.  For an entry due on 5 March at 14:00 and runs
    at 09:00, the run of D+1 leaves the entry [pending], since at that
    day's midnight less than a whole day has passed; the entry is in
    [grace_period] after the runs of D+2 and D+3 and [overdue] from the run
    of D+4, with [daysOverdue] 0 at D+4 and 1 at D+5.  For a due date
    at local midnight the run of D+1 does give [grace_period], but then
    the entry is overdue from the run of D+3, with [daysOverdue] 1 at D+4
    and 2 at D+5. *)
Lemma overdue_timeline_differs :
  let D := ofCivil 2025 3 5 0 in
  let r := 9 * 3600000 in
  let fields (w : World) :=
    (λ l, (PenaltyLedger.status l, PenaltyLedger.daysOverdue l))
      <$> ledgers w in
  fields (dailyRuns noFaults D r 1 afternoonLedgers)
  = [(PenaltyLedger.pending, 0)]
  ∧ fields (dailyRuns noFaults D r 2 afternoonLedgers)
    = [(PenaltyLedger.grace_period, 0)]
  ∧ fields (dailyRuns noFaults D r 3 afternoonLedgers)
    = [(PenaltyLedger.grace_period, 0)]
  ∧ fields (dailyRuns noFaults D r 4 afternoonLedgers)
    = [(PenaltyLedger.overdue, 0)]
  ∧ fields (dailyRuns noFaults D r 5 afternoonLedgers)
    = [(PenaltyLedger.overdue, 1)]
  ∧ fields (dailyRuns noFaults D r 1 freshLedgers)
    = [(PenaltyLedger.grace_period, 0); (PenaltyLedger.grace_period, 0)]
  ∧ fields (dailyRuns noFaults D r 3 freshLedgers)
    = [(PenaltyLedger.overdue, 0); (PenaltyLedger.overdue, 0)]
  ∧ fields (dailyRuns noFaults D r 4 freshLedgers)
    = [(PenaltyLedger.overdue, 1); (PenaltyLedger.overdue, 1)]
  ∧ fields (dailyRuns noFaults D r 5 freshLedgers)
    = [(PenaltyLedger.overdue, 2); (PenaltyLedger.overdue, 2)].
Proof. vm_compute. repeat split; reflexivity. Qed.

(** C2, amended.  Take a ledger entry due at time [t] of the day that
    starts at [D], still pending and in grace, without penalty and without
    the day-1 notification, in a collection whose entries are all on the
    three-day grace period, and let the overdue pass run once on each
    following day at a fixed time [r] after midnight, with a working
    datastore.  The pass counts whole days from the due date to the
    midnight of the run.

    If the due date carries a time of day ([t > 0], as the due dates of
    a schedule do), the run of D+1 leaves the entry as it was, pending;
    after the runs of D+2 and D+3 it is in [grace_period] with
    [penaltyAmount = 0]; the run of D+4 makes it [overdue] with
    [isInGracePeriod = false] and [missedDate] the due date; and after
    the run of D+k, for every k >= 4, [daysOverdue] is k - 4 when the
    run is earlier in the day than the due time (0 at D+4, 1 at D+5) and
    k - 3 otherwise.

    If the due date is at local midnight ([t = 0]), all of this happens a
    day earlier: [grace_period] after the runs of D+1 and D+2, [overdue]
    from the run of D+3, and [daysOverdue = k - 3] after the run of
    D+k. *)
Theorem overdue_timeline (env : Faults) (D t r : Z) (w : World) (i : nat)
    (l : PenaltyLedger.t) :
  (∀ j, ledgerSaveFails env j = false) →
  D mod msPerDay = 0 →
  0 <= t < msPerDay →
  0 < r < msPerDay →
  regular w →
  ledgers w !! i = Some l →
  PenaltyLedger.dueDate l = D + t →
  PenaltyLedger.status l = PenaltyLedger.pending →
  PenaltyLedger.isInGracePeriod l = true →
  PenaltyLedger.hasNotification PenaltyLedger.overdue_1_day l = false →
  PenaltyLedger.penaltyAmount l = 0 →
  (0 < t →
   ledgers (dailyRuns env D r 1 w) !! i = Some l
   ∧ (∀ k, (k = 2 ∨ k = 3)%nat →
        ∃ lk,
          ledgers (dailyRuns env D r k w) !! i = Some lk
          ∧ PenaltyLedger.status lk = PenaltyLedger.grace_period
          ∧ PenaltyLedger.isInGracePeriod lk = true
          ∧ PenaltyLedger.penaltyAmount lk = 0)
   ∧ (∀ k, (4 <= k)%nat →
        ∃ lk,
          ledgers (dailyRuns env D r k w) !! i = Some lk
          ∧ PenaltyLedger.status lk = PenaltyLedger.overdue
          ∧ PenaltyLedger.isInGracePeriod lk = false
          ∧ PenaltyLedger.missedDate lk = Some (D + t)
          ∧ PenaltyLedger.daysOverdue lk
            = if r <? t then Z.of_nat k - 4 else Z.of_nat k - 3))
  ∧ (t = 0 →
     (∀ k, (k = 1 ∨ k = 2)%nat →
        ∃ lk,
          ledgers (dailyRuns env D r k w) !! i = Some lk
          ∧ PenaltyLedger.status lk = PenaltyLedger.grace_period
          ∧ PenaltyLedger.isInGracePeriod lk = true
          ∧ PenaltyLedger.penaltyAmount lk = 0)
     ∧ (∀ k, (3 <= k)%nat →
          ∃ lk,
            ledgers (dailyRuns env D r k w) !! i = Some lk
            ∧ PenaltyLedger.status lk = PenaltyLedger.overdue
            ∧ PenaltyLedger.isInGracePeriod lk = false
            ∧ PenaltyLedger.missedDate lk = Some D
            ∧ PenaltyLedger.daysOverdue lk = Z.of_nat k - 3)).
Proof.
  intros Hs Hm Ht Hr Hreg Hi Hd Hst Hg Hn Hp.
  assert (Hgp : PenaltyLedger.gracePeriodDays l = 3).
  { unfold regular in Hreg. rewrite Forall_lookup in Hreg. eauto. }
  assert (Hlk : ∀ k, ledgers (dailyRuns env D r k w) !! i
                     = Some (entryAfter D r k l)).
  { intros k.
    destruct (dailyRuns_ledgers env D r Hs Hm Hr k w Hreg) as [_ ->].
    by rewrite list_lookup_fmap, Hi. }
  split.
  - intros Hpos. assert (Ht' : 0 < t < msPerDay) by lia.
    split; [|split].
    + rewrite Hlk. f_equal. by apply (entry_at_day_one D t r Ht').
    + intros k Hk. exists (entryAfter D r k l). split; [apply Hlk|].
      assert (E : entryAfter D r k l = entryAfter D r 2 l).
      { destruct Hk as [->| ->]; [reflexivity|].
        by apply (entry_at_day_three D t r Ht'). }
      rewrite E, (entry_at_day_two D t r Ht' l Hd Hst Hg Hn). simpl. done.
    + intros k Hk. exists (entryAfter D r k l). split; [apply Hlk|].
      destruct (entry_from_day_four D t r Ht' Hr l k Hd Hgp Hst Hg Hn Hk)
        as (_ & _ & H3 & H4 & H5 & H6).
      done.
  - intros ->. rewrite Z.add_0_r in Hd. split.
    + intros k Hk. exists (entryAfter D r k l). split; [apply Hlk|].
      assert (E : entryAfter D r k l = entryAfter D r 1 l).
      { destruct Hk as [->| ->]; [reflexivity|].
        by apply entry_day_two. }
      rewrite E, (entry_day_one D r l Hd Hst Hg Hn). simpl. done.
    + intros k Hk. exists (entryAfter D r k l). split; [apply Hlk|].
      destruct (entry_from_day_three D r Hm Hr l k Hd Hgp Hst Hg Hn Hk)
        as (_ & _ & H3 & H4 & H5 & H6).
      done.
Qed.

Lemma overdue_timeline_witness :
  ledgers (dailyRuns noFaults (ofCivil 2025 3 5 0) (9 * 3600000) 1
             afternoonLedgers) !! 0%nat
  = Some (PenaltyLedger.create 0%nat 7%nat 1 1000
            (ofCivil 2025 3 5 (14 * 3600000)))
  ∧ ∃ l4,
      ledgers (dailyRuns noFaults (ofCivil 2025 3 5 0) (9 * 3600000) 4
                 afternoonLedgers) !! 0%nat = Some l4
      ∧ PenaltyLedger.status l4 = PenaltyLedger.overdue
      ∧ PenaltyLedger.daysOverdue l4 = 0.
Proof.
  destruct (overdue_timeline noFaults (ofCivil 2025 3 5 0) (14 * 3600000)
              (9 * 3600000) afternoonLedgers 0%nat
              (PenaltyLedger.create 0%nat 7%nat 1 1000
                 (ofCivil 2025 3 5 (14 * 3600000))))
    as [H _].
  - reflexivity.
  - reflexivity.
  - split; [discriminate | reflexivity].
  - split; reflexivity.
  - repeat constructor.
  - reflexivity.
  - reflexivity.
  - reflexivity.
  - reflexivity.
  - reflexivity.
  - reflexivity.
  - destruct H as (H1 & _ & H4); [reflexivity|].
    split; [exact H1|].
    destruct (H4 4%nat) as (l4 & Ha & Hb & _ & _ & He); [lia|].
    exists l4. split; [exact Ha|]. split; [exact Hb | exact He].
Defined.

(** * Further properties *)

(** ** The calendar, from day numbers and back *)

Section CalendarFacts.

Lemma month_day (mp d : Z) :
  0 <= mp <= 11 → 1 <= d <= 28 →
  (5 * ((153 * mp + 2) / 5 + d - 1) + 2) / 153 = mp.
Proof. intros. Z.div_mod_to_equations. lia. Qed.

Lemma year_of_era (yoe doy : Z) :
  0 <= yoe <= 399 → 0 <= doy <= 364 →
  let doe := yoe * 365 + yoe / 4 - yoe / 100 + doy in
  (doe - doe / 1460 + doe / 36524 - doe / 146096) / 365 = yoe
  ∧ 0 <= doe < 146097.
Proof.
  intros Hy Hd. cbv zeta.
  assert (H100 : yoe / 100 = 0 ∨ yoe / 100 = 1 ∨ yoe / 100 = 2
                 ∨ yoe / 100 = 3)
    by (Z.div_mod_to_equations; lia).
  set (doe := yoe * 365 + yoe / 4 - yoe / 100 + doy).
  assert (Hdoe : 0 <= doe < 146097)
    by (unfold doe; Z.div_mod_to_equations; lia).
  assert (H3 : doe / 146096 = 0)
    by (unfold doe in *; Z.div_mod_to_equations; lia).
  assert (H2 : doe / 36524 = yoe / 100).
  { unfold doe in *. destruct H100 as [H|[H|[H|H]]]; rewrite H in *;
      Z.div_mod_to_equations; lia. }
  assert (H1 : doe / 1460 = yoe / 4 ∨ doe / 1460 = yoe / 4 - 1
               ∨ doe / 1460 = yoe / 4 + 1).
  { unfold doe in *. destruct H100 as [H|[H|[H|H]]]; rewrite H in *;
      Z.div_mod_to_equations; lia. }
  split; [|lia].
  rewrite H3, H2. unfold doe in *.
  destruct H100 as [H|[H|[H|H]]]; rewrite H in *;
    destruct H1 as [H1|[H1|H1]]; rewrite H1; Z.div_mod_to_equations; lia.
Qed.

(** A civil date up to the 28th is recovered from its day number. *)
Lemma civil_of_days (y m d : Z) :
  1 <= m <= 12 → 1 <= d <= 28 →
  civilFromDays (daysFromCivil y m d) = (y, m, d).
Proof.
  intros Hm Hd. unfold daysFromCivil. cbv zeta.
  set (y' := if m <=? 2 then y - 1 else y).
  set (mp := if 2 <? m then m - 3 else m + 9).
  assert (Hmp : 0 <= mp <= 11) by (unfold mp; destruct (2 <? m) eqn:E; lia).
  set (era := y' / 400). set (yoe := y' - era * 400).
  assert (Hyoe : 0 <= yoe <= 399)
    by (unfold yoe, era; Z.div_mod_to_equations; lia).
  set (doy := (153 * mp + 2) / 5 + d - 1).
  assert (Hdoy : 0 <= doy <= 364)
    by (unfold doy; Z.div_mod_to_equations; lia).
  destruct (year_of_era yoe doy Hyoe Hdoy) as [Hy Hdoe].
  cbv zeta in Hy, Hdoe.
  set (doe := yoe * 365 + yoe / 4 - yoe / 100 + doy) in *.
  unfold civilFromDays. cbv zeta.
  replace (era * 146097 + doe - 719468 + 719468) with (doe + era * 146097)
    by lia.
  rewrite Z.div_add by lia. rewrite (Z.div_small doe) by lia.
  rewrite Z.add_0_l.
  replace (doe + era * 146097 - era * 146097) with doe by lia.
  rewrite Hy.
  replace (doe - (365 * yoe + yoe / 4 - yoe / 100)) with doy
    by (unfold doe; lia).
  assert (Hmd : (5 * doy + 2) / 153 = mp) by (apply month_day; assumption).
  rewrite !Hmd.
  replace (doy - (153 * mp + 2) / 5 + 1) with d by (unfold doy; lia).
  unfold mp, yoe, era, y'.
  destruct (2 <? m) eqn:E1; destruct (m <=? 2) eqn:E2; try lia;
    repeat match goal with
           | |- context [if ?b then _ else _] => destruct b eqn:?
           end;
    try lia; f_equal; try f_equal; Z.div_mod_to_equations; lia.
Qed.

Lemma civil_day_range (z : Z) : 1 <= snd (civilFromDays z) <= 31.
Proof.
  unfold civilFromDays. cbv zeta. cbn [fst snd].
  Z.div_mod_to_equations; lia.
Qed.

Lemma daysFromCivil_day (y m d : Z) :
  daysFromCivil y m d = daysFromCivil y m 1 + d - 1.
Proof. unfold daysFromCivil. cbv zeta. lia. Qed.

Lemma MakeDay_month (y m0 d : Z) :
  MakeDay y m0 d = daysFromCivil (y + m0 / 12) (m0 mod 12 + 1) d.
Proof. unfold MakeDay. rewrite (daysFromCivil_day _ _ d). lia. Qed.

Lemma TimeWithinDay_range (t : Z) : 0 <= TimeWithinDay t < msPerDay.
Proof. unfold TimeWithinDay. apply Z.mod_pos_bound. reflexivity. Qed.

Lemma Day_MakeDate (day time : Z) :
  0 <= time < msPerDay → Day (MakeDate day time) = day.
Proof.
  intros H. unfold Day, MakeDate.
  rewrite Z.add_comm, Z.div_add by (rewrite msPerDay_eq; lia).
  rewrite Z.div_small by lia. lia.
Qed.

Lemma TimeWithinDay_MakeDate (day time : Z) :
  0 <= time < msPerDay → TimeWithinDay (MakeDate day time) = time.
Proof.
  intros H. unfold TimeWithinDay, MakeDate.
  rewrite Z.add_comm, Z.mod_add by (rewrite msPerDay_eq; lia).
  apply Z.mod_small. lia.
Qed.

Lemma month_index_range (k : Z) : 1 <= k mod 12 + 1 <= 12.
Proof. Z.div_mod_to_equations. lia. Qed.

(** The same day of the next month comes later. *)
Lemma daysFromCivil_next_month (k d : Z) :
  daysFromCivil (k / 12) (k mod 12 + 1) d
  < daysFromCivil ((k + 1) / 12) ((k + 1) mod 12 + 1) d.
Proof.
  assert (Hc : (k mod 12 < 11 ∧ (k + 1) / 12 = k / 12
                ∧ (k + 1) mod 12 = k mod 12 + 1)
               ∨ (k mod 12 = 11 ∧ (k + 1) / 12 = k / 12 + 1
                  ∧ (k + 1) mod 12 = 0))
    by (Z.div_mod_to_equations; lia).
  pose proof (month_index_range k) as Hk.
  set (y := k / 12) in *. set (m := k mod 12) in *.
  destruct Hc as [(H1 & -> & ->)|(H1 & -> & ->)].
  - unfold daysFromCivil. cbv zeta.
    destruct (m + 1 <=? 2) eqn:E1; destruct (m + 1 + 1 <=? 2) eqn:E2;
      destruct (2 <? m + 1) eqn:E3; destruct (2 <? m + 1 + 1) eqn:E4;
      try lia; Z.div_mod_to_equations; lia.
  - rewrite H1. unfold daysFromCivil. cbv zeta.
    change (11 + 1 <=? 2) with false. change (0 + 1 <=? 2) with true.
    change (2 <? 11 + 1) with true. change (2 <? 0 + 1) with false.
    cbv iota. Z.div_mod_to_equations; lia.
Qed.

Lemma getMonth_range (t : Date) : 0 <= getMonth t <= 11.
Proof. unfold getMonth. pose proof (civil_month_range (Day t)). lia. Qed.

Lemma getDate_range (t : Date) : 1 <= getDate t <= 31.
Proof. unfold getDate. apply civil_day_range. Qed.

Lemma civil_fields (t : Date) :
  civil t = (getFullYear t, getMonth t + 1, getDate t).
Proof.
  unfold civil, getFullYear, getMonth, getDate.
  destruct (civilFromDays (Day t)) as [[y m] d]. simpl. f_equal. f_equal. lia.
Qed.

(** [setMonth] on a date up to the 28th lands in the month asked for,
    years carried, and keeps the day and the time of day. *)
Lemma setMonth_civil (t : Date) (k : Z) :
  getDate t <= 28 →
  civil (setMonth t k) = (getFullYear t + k / 12, k mod 12 + 1, getDate t)
  ∧ TimeWithinDay (setMonth t k) = TimeWithinDay t.
Proof.
  intros Hd. pose proof (getDate_range t) as Hr.
  pose proof (TimeWithinDay_range t) as Ht.
  unfold setMonth, civil.
  rewrite Day_MakeDate, TimeWithinDay_MakeDate by exact Ht.
  split; [|reflexivity].
  rewrite MakeDay_month. apply civil_of_days; [apply month_index_range | lia].
Qed.

(** [setDate] to a day up to the 28th stays in the month. *)
Lemma setDate_civil (t : Date) (d : Z) :
  1 <= d <= 28 →
  civil (setDate t d) = (getFullYear t, getMonth t + 1, d)
  ∧ TimeWithinDay (setDate t d) = TimeWithinDay t.
Proof.
  intros Hd. pose proof (getMonth_range t) as Hm.
  pose proof (TimeWithinDay_range t) as Ht.
  unfold setDate, civil.
  rewrite Day_MakeDate, TimeWithinDay_MakeDate by exact Ht.
  split; [|reflexivity].
  rewrite MakeDay_month.
  replace (getMonth t / 12) with 0 by (Z.div_mod_to_equations; lia).
  replace (getMonth t mod 12) with (getMonth t)
    by (Z.div_mod_to_equations; lia).
  rewrite Z.add_0_r. apply civil_of_days; lia.
Qed.

End CalendarFacts.

(** ** Due dates of a schedule *)

Section DueDates.

Import EmiApplication.

Lemma dueDateOf_fifth (start : Date) (i : Z) :
  getDate (dueDateOf start i) = 5
  ∧ TimeWithinDay (dueDateOf start i) = TimeWithinDay start.
Proof.
  unfold dueDateOf. cbv zeta.
  set (t := setMonth start (getMonth start + i)).
  destruct (setDate_civil t 5) as [Hc Ht]; [lia|].
  rewrite civil_fields in Hc. split; [congruence|].
  rewrite Ht. unfold t, setMonth.
  apply TimeWithinDay_MakeDate, TimeWithinDay_range.
Qed.

Lemma dueDateOf_intended (start : Date) (i : Z) :
  getDate start <= 28 →
  dueDateOf start i
  = (let '(y, m, d) := intendedDue start i in
     ofCivil y m d (TimeWithinDay start)).
Proof.
  intros Hd. unfold dueDateOf, intendedDue. cbv zeta.
  set (k := getMonth start + i).
  destruct (setMonth_civil start k Hd) as [Hc Ht].
  rewrite civil_fields in Hc. injection Hc as Hy Hm Hdd.
  unfold setDate. rewrite Hy, Ht.
  replace (getMonth (setMonth start k)) with (k mod 12) by lia.
  unfold ofCivil. f_equal. rewrite MakeDay_month.
  pose proof (month_index_range k).
  replace (k mod 12 / 12) with 0 by (Z.div_mod_to_equations; lia).
  replace (k mod 12 mod 12) with (k mod 12)
    by (Z.div_mod_to_equations; lia).
  rewrite Z.add_0_r. unfold k.
  replace (getFullYear start * 12 + getMonth start + i)
    with ((getMonth start + i) + getFullYear start * 12) by lia.
  rewrite Z.div_add, Z.mod_add by lia.
  f_equal; lia.
Qed.

Lemma dueDateOf_increasing (start : Date) (i : Z) :
  getDate start <= 28 →
  dueDateOf start i < dueDateOf start (i + 1).
Proof.
  intros Hd. rewrite !dueDateOf_intended by exact Hd.
  unfold intendedDue. cbv zeta.
  replace (getFullYear start * 12 + getMonth start + (i + 1))
    with (getFullYear start * 12 + getMonth start + i + 1) by lia.
  pose proof (daysFromCivil_next_month
                (getFullYear start * 12 + getMonth start + i) 5).
  unfold ofCivil, MakeDate. rewrite msPerDay_eq. lia.
Qed.

Lemma dueDateOf_civil (start : Date) (i : Z) :
  getDate start <= 28 →
  civil (dueDateOf start i) = intendedDue start i.
Proof.
  intros Hd. rewrite dueDateOf_intended by exact Hd.
  unfold intendedDue. cbv zeta. unfold ofCivil, civil.
  rewrite Day_MakeDate by apply TimeWithinDay_range.
  apply civil_of_days; [apply month_index_range | lia].
Qed.

End DueDates.

(** X1. For every generation instant and every tenure [N >= 1],
    [generateSchedule] returns with exactly [N] installments; the one at
    position [i] has ordinal [i + 1], is pending and unpaid, has the
    application's [monthlyEmi] as amount, and is due on a 5th at the time
    of day of the generation. *)
Theorem generateSchedule_shape (start : Date) (a : EmiApplication.t) :
  1 <= EmiApplication.tenure a →
  ∃ a',
    EmiApplication.generateSchedule start a = Some a'
    ∧ length (EmiApplication.installments a')
      = Z.to_nat (EmiApplication.tenure a)
    ∧ ∀ i inst,
        EmiApplication.installments a' !! i = Some inst →
        Installment.installmentNumber inst = Z.of_nat (S i)
        ∧ Installment.status inst = Installment.pending
        ∧ Installment.paidDate inst = None
        ∧ Installment.amount inst = EmiApplication.monthlyEmi a
        ∧ getDate (Installment.dueDate inst) = 5
        ∧ TimeWithinDay (Installment.dueDate inst) = TimeWithinDay start.
Proof.
  intros Hn. eexists. split; [apply generateSchedule_runs, Hn|].
  cbn [EmiApplication.installments EmiApplication.set_schedule].
  split; [apply scheduleOf_length|].
  intros i inst Hi.
  assert (Hlt : (i < Z.to_nat (EmiApplication.tenure a))%nat).
  { rewrite <- (scheduleOf_length a start). by eapply lookup_lt_Some. }
  rewrite scheduleOf_lookup in Hi by exact Hlt. injection Hi as <-.
  cbn [Installment.installmentNumber Installment.status Installment.paidDate
       Installment.amount Installment.dueDate].
  destruct (dueDateOf_fifth start (Z.of_nat (S i))) as [H5 Ht].
  done.
Qed.

Lemma generateSchedule_shape_witness :
  ∃ a',
    EmiApplication.generateSchedule (ofCivil 2025 1 31 36000000)
      demoApplication = Some a'
    ∧ length (EmiApplication.installments a') = 3%nat.
Proof.
  destruct (generateSchedule_shape (ofCivil 2025 1 31 36000000)
              demoApplication) as (a' & H1 & H2 & _).
  - vm_compute. discriminate.
  - exists a'. split; [exact H1 | exact H2].
Defined.

(** X2. When the schedule is generated on a day of the month up to the
    28th, the installment of ordinal [k] is due on the 5th of the [k]-th
    calendar month after the month of generation, and each installment is
    due strictly later than the one before it. *)
Theorem generateSchedule_consecutive_months (start : Date)
    (a : EmiApplication.t) :
  1 <= EmiApplication.tenure a →
  getDate start <= 28 →
  ∃ a',
    EmiApplication.generateSchedule start a = Some a'
    ∧ (∀ i inst,
         EmiApplication.installments a' !! i = Some inst →
         civil (Installment.dueDate inst)
         = intendedDue start (Z.of_nat (S i)))
    ∧ (∀ i inst next,
         EmiApplication.installments a' !! i = Some inst →
         EmiApplication.installments a' !! S i = Some next →
         Installment.dueDate inst < Installment.dueDate next).
Proof.
  intros Hn Hd. eexists. split; [apply generateSchedule_runs, Hn|].
  cbn [EmiApplication.installments EmiApplication.set_schedule].
  assert (Hlook : ∀ i inst,
            EmiApplication.scheduleOf a start !! i = Some inst →
            Installment.dueDate inst
            = EmiApplication.dueDateOf start (Z.of_nat (S i))).
  { intros i inst Hi.
    assert (Hlt : (i < Z.to_nat (EmiApplication.tenure a))%nat).
    { rewrite <- (scheduleOf_length a start). by eapply lookup_lt_Some. }
    rewrite scheduleOf_lookup in Hi by exact Hlt. by injection Hi as <-. }
  split.
  - intros i inst Hi. rewrite (Hlook i inst Hi).
    by apply dueDateOf_civil.
  - intros i inst next Hi Hs.
    rewrite (Hlook i inst Hi), (Hlook (S i) next Hs).
    replace (Z.of_nat (S (S i))) with (Z.of_nat (S i) + 1) by lia.
    by apply dueDateOf_increasing.
Qed.

Lemma generateSchedule_consecutive_months_witness :
  ∃ a',
    EmiApplication.generateSchedule (ofCivil 2025 1 10 36000000)
      demoApplication = Some a'
    ∧ ∀ i inst,
        EmiApplication.installments a' !! i = Some inst →
        civil (Installment.dueDate inst)
        = intendedDue (ofCivil 2025 1 10 36000000) (Z.of_nat (S i)).
Proof.
  destruct (generateSchedule_consecutive_months
              (ofCivil 2025 1 10 36000000) demoApplication)
    as (a' & H1 & H2 & _).
  - vm_compute. discriminate.
  - vm_compute. discriminate.
  - exists a'. split; [exact H1 | exact H2].
Defined.

(** ** What the rounding of the instalment costs *)

(** X4. Under a no-cost plan the rounding up of the instalment costs the
    customer less than one currency unit per month: [calculateEMI] times
    the tenure exceeds the principal by less than the tenure. *)
Theorem calculateEMI_overshoot (plan : EmiPlan.t) (P : Q) :
  1 <= EmiPlan.tenure plan →
  (EmiPlan.interestRate plan == 0)%Q →
  (inject_Z (EmiPlan.calculateEMI plan P * EmiPlan.tenure plan)
   < P + inject_Z (EmiPlan.tenure plan))%Q.
Proof.
  intros HN HR. unfold EmiPlan.calculateEMI. cbv zeta.
  assert (Hz : (EmiPlan.interestRate plan / 12 / 100 == 0)%Q)
    by (rewrite HR; reflexivity).
  apply Qeq_bool_iff in Hz. rewrite Hz.
  set (n := inject_Z (EmiPlan.tenure plan)).
  assert (Hn : (0 < n)%Q).
  { unfold n. change 0%Q with (inject_Z 0). rewrite <- Zlt_Qlt. lia. }
  pose proof (Qceiling_lt (P / n)) as Hc.
  rewrite inject_Z_mult. fold n.
  unfold Z.sub in Hc. rewrite inject_Z_plus in Hc.
  set (c := inject_Z (Qceiling (P / n))) in *.
  assert (Heq2 : ((P / n + 1) * n == P + n)%Q) by (field; lra).
  rewrite <- Heq2. set (x := (P / n)%Q) in *.
  apply Qmult_lt_compat_r; [exact Hn|].
  change (inject_Z (- (1))) with (-1 # 1)%Q in Hc. clearbody c x. lra.
Qed.

Lemma calculateEMI_overshoot_witness :
  (inject_Z (EmiPlan.calculateEMI demoPlan 3001 * 3) < 3001 + inject_Z 3)%Q.
Proof.
  apply (calculateEMI_overshoot demoPlan 3001).
  - vm_compute. discriminate.
  - reflexivity.
Defined.

(** ** The penalty of an entry over time *)

Section PenaltyOverTime.

Import PenaltyLedger.

Lemma round_nonneg (x : Q) : (0 <= x)%Q → 0 <= round x.
Proof.
  intros Hx. unfold round. change 0 with (Qfloor 0).
  apply Qfloor_resp_le. lra.
Qed.

Lemma round_mono (x y : Q) : (x <= y)%Q → round x <= round y.
Proof. intros Hxy. unfold round. apply Qfloor_resp_le. lra. Qed.

Lemma simple_interest_mono (amount : Z) (rate : Q) (d1 d2 : Z) :
  0 <= amount → (0 <= rate)%Q → 0 <= d1 <= d2 →
  (0 <= inject_Z amount * (rate / 100) * inject_Z d1
   <= inject_Z amount * (rate / 100) * inject_Z d2)%Q.
Proof.
  intros Ha Hr [H1 H2].
  assert (Ha' : (0 <= inject_Z amount)%Q)
    by (change 0%Q with (inject_Z 0); by rewrite <- Zle_Qle).
  assert (H1' : (0 <= inject_Z d1)%Q)
    by (change 0%Q with (inject_Z 0); by rewrite <- Zle_Qle).
  assert (H2' : (inject_Z d1 <= inject_Z d2)%Q) by (by rewrite <- Zle_Qle).
  assert (Hr' : (0 <= rate / 100)%Q)
    by (apply Qle_shift_div_l; [reflexivity | lra]).
  set (a := inject_Z amount) in *. set (r := (rate / 100)%Q) in *.
  set (x := inject_Z d1) in *. set (y := inject_Z d2) in *.
  clearbody a r x y.
  assert (Har : (0 <= a * r)%Q) by (by apply Qmult_le_0_compat).
  split.
  - by apply Qmult_le_0_compat.
  - rewrite (Qmult_comm (a * r) x), (Qmult_comm (a * r) y).
    by apply Qmult_le_compat_r.
Qed.

End PenaltyOverTime.

(** X5. Penalties do not compound.  The fields [calculatePenalty] leaves in
    an entry depend on the entry's amount, rate, due date and grace period
    and on the clock only: recomputing at a later instant gives the entry
    that a single computation at that instant gives, whatever was computed
    before. *)
Theorem calculatePenalty_no_compounding (now1 now2 : Date)
    (l : PenaltyLedger.t) :
  now1 <= now2 →
  PenaltyLedger.calculatePenalty now2 (PenaltyLedger.calculatePenalty now1 l)
  = PenaltyLedger.calculatePenalty now2 l.
Proof.
  intros Hle. unfold PenaltyLedger.calculatePenalty.
  destruct (PenaltyLedger.status l) eqn:Es; rewrite ?Es; try reflexivity;
    (destruct (now1 <=? _) eqn:E1;
     cbn [PenaltyLedger.status PenaltyLedger.set_penalty
          PenaltyLedger.dueDate PenaltyLedger.gracePeriodDays
          PenaltyLedger.originalAmount PenaltyLedger.penaltyRate
          PenaltyLedger.totalPayable];
     rewrite ?Es;
     destruct (now2 <=? _) eqn:E2; try reflexivity;
     apply Z.leb_gt in E1; apply Z.leb_le in E2; lia).
Qed.

Lemma calculatePenalty_no_compounding_witness :
  PenaltyLedger.calculatePenalty (ofCivil 2025 3 20 0)
    (PenaltyLedger.calculatePenalty (ofCivil 2025 3 11 0) overdueLedger)
  = PenaltyLedger.calculatePenalty (ofCivil 2025 3 20 0) overdueLedger.
Proof.
  apply (calculatePenalty_no_compounding (ofCivil 2025 3 11 0)
           (ofCivil 2025 3 20 0) overdueLedger).
  vm_compute. discriminate.
Defined.

(** X6. For an unsettled entry with a non-negative amount and rate, the
    penalty [calculatePenalty] stores is never negative and never goes
    down as the clock advances; while the clock is within the grace period
    it is zero, and past it the stored total is the amount plus the
    penalty. *)
Theorem calculatePenalty_monotone (now1 now2 : Date) (l : PenaltyLedger.t) :
  Cron.isOpen (PenaltyLedger.status l) = true →
  0 <= PenaltyLedger.originalAmount l →
  (0 <= PenaltyLedger.penaltyRate l)%Q →
  now1 <= now2 →
  0 <= PenaltyLedger.penaltyAmount (PenaltyLedger.calculatePenalty now1 l)
    <= PenaltyLedger.penaltyAmount (PenaltyLedger.calculatePenalty now2 l)
  ∧ (now1 <= addDays (PenaltyLedger.dueDate l)
               (PenaltyLedger.gracePeriodDays l) →
     PenaltyLedger.penaltyAmount (PenaltyLedger.calculatePenalty now1 l) = 0)
  ∧ (addDays (PenaltyLedger.dueDate l) (PenaltyLedger.gracePeriodDays l)
     < now1 →
     PenaltyLedger.totalPayable (PenaltyLedger.calculatePenalty now1 l)
     = Some (PenaltyLedger.originalAmount l
             + PenaltyLedger.penaltyAmount
                 (PenaltyLedger.calculatePenalty now1 l))).
Proof.
  intros Ho Ha Hr Hle. rewrite addDays_eq.
  set (g := PenaltyLedger.dueDate l
            + PenaltyLedger.gracePeriodDays l * msPerDay).
  assert (Hin : ∀ now, now <= g →
            PenaltyLedger.calculatePenalty now l
            = PenaltyLedger.set_penalty true 0 0
                (PenaltyLedger.totalPayable l) l)
    by (intros; by apply calculatePenalty_within).
  assert (Hout : ∀ now, g < now →
            PenaltyLedger.calculatePenalty now l
            = PenaltyLedger.set_penalty false ((now - g) / msPerDay)
                (PenaltyLedger.round
                   (inject_Z (PenaltyLedger.originalAmount l)
                    * (PenaltyLedger.penaltyRate l / 100)
                    * inject_Z ((now - g) / msPerDay))%Q)
                (Some (PenaltyLedger.originalAmount l
                       + PenaltyLedger.round
                           (inject_Z (PenaltyLedger.originalAmount l)
                            * (PenaltyLedger.penaltyRate l / 100)
                            * inject_Z ((now - g) / msPerDay))%Q)) l)
    by (intros; by apply calculatePenalty_past).
  assert (Hd : ∀ n1 n2, g < n1 → n1 <= n2 →
            0 <= (n1 - g) / msPerDay <= (n2 - g) / msPerDay).
  { intros n1 n2 H1 H2. rewrite msPerDay_eq.
    split; [apply Z.div_pos; lia | apply Z.div_le_mono; lia]. }
  split; [|split].
  - destruct (Z_le_gt_dec now1 g) as [H1|H1].
    + rewrite (Hin now1 H1). cbn [PenaltyLedger.penaltyAmount
        PenaltyLedger.set_penalty].
      split; [lia|].
      destruct (Z_le_gt_dec now2 g) as [H2|H2].
      * rewrite (Hin now2 H2). cbn. lia.
      * rewrite (Hout now2) by lia. cbn [PenaltyLedger.penaltyAmount
          PenaltyLedger.set_penalty].
        apply round_nonneg.
        apply (simple_interest_mono _ _ ((now2 - g) / msPerDay)
                 ((now2 - g) / msPerDay)); try assumption.
        destruct (Hd now2 now2); lia.
    + rewrite (Hout now1), (Hout now2) by lia.
      cbn [PenaltyLedger.penaltyAmount PenaltyLedger.set_penalty].
      destruct (Hd now1 now2) as [Hd1 Hd2]; [lia | lia |].
      destruct (simple_interest_mono (PenaltyLedger.originalAmount l)
                  (PenaltyLedger.penaltyRate l) _ _ Ha Hr (conj Hd1 Hd2))
        as [Hs1 Hs2].
      split; [by apply round_nonneg | by apply round_mono].
  - intros H1. by rewrite (Hin now1 H1).
  - intros H1. by rewrite (Hout now1 H1).
Qed.

Lemma calculatePenalty_monotone_witness :
  0 <= PenaltyLedger.penaltyAmount
         (PenaltyLedger.calculatePenalty (ofCivil 2025 3 11 0) overdueLedger)
    <= PenaltyLedger.penaltyAmount
         (PenaltyLedger.calculatePenalty (ofCivil 2025 3 20 0) overdueLedger).
Proof.
  refine (proj1 (calculatePenalty_monotone (ofCivil 2025 3 11 0)
                   (ofCivil 2025 3 20 0) overdueLedger _ _ _ _)).
  - reflexivity.
  - vm_compute. discriminate.
  - vm_compute. discriminate.
  - vm_compute. discriminate.
Defined.

(** ** What a run of the job can change *)

Section JobFrame.

Import PenaltyLedger.

Lemma overdueEntry_effect env today now i l w :
  let w' := (Cron.overdueEntry env today now (i, l) w).2 in
  plans w' = plans w ∧ kycs w' = kycs w
  ∧ (apps w' = apps w
     ∨ apps w' = alter (EmiApplication.set_status EmiApplication.defaulted)
                   (emiApplicationId l) (apps w))
  ∧ (ledgers w' = ledgers w
     ∨ ledgers w' = <[i := afterOverdue today now l]> (ledgers w)).
Proof.
  cbv zeta.
  unfold Cron.overdueEntry, afterOverdue.
  unfold graceEnds. unfold graceEnded. unfold dayOne.
  fold (daysSinceDue today l).
  destruct ((daysSinceDue today l =? 1)
            && negb (hasNotification overdue_1_day l)) eqn:E1;
    run_M; unfold Cron.sendNotification, Cron.markDefaulted; run_M;
    cbn [isInGracePeriod push_notification set_status dueDate userId
         emiApplicationId] in *.
  - destruct ((3 <=? daysSinceDue today l) && isInGracePeriod l) eqn:E2.
    + destruct (totalPayable _) as [tp|] eqn:Htp; run_M; [|simpl; tauto].
      unfold saveLedger.
      destruct (calculatePenalty_fields now
        (set_missedDate (Some (dueDate l))
           (set_status overdue
              (set_isInGracePeriod false
                 (push_notification overdue_1_day now
                    (set_status grace_period l))))))
        as (_ & Hu & Ha & _).
      cbn [userId emiApplicationId set_missedDate set_status
           set_isInGracePeriod push_notification] in Hu, Ha.
      rewrite Ha.
      destruct (ledgerSaveFails env i); simpl; tauto.
    + unfold saveLedger. destruct (ledgerSaveFails env i); simpl; tauto.
  - destruct ((3 <=? daysSinceDue today l) && isInGracePeriod l) eqn:E2.
    + destruct (totalPayable _) as [tp|] eqn:Htp; run_M; [|simpl; tauto].
      unfold saveLedger.
      destruct (calculatePenalty_fields now
        (set_missedDate (Some (dueDate l))
           (set_status overdue (set_isInGracePeriod false l))))
        as (_ & Hu & Ha & _).
      cbn [userId emiApplicationId set_missedDate set_status
           set_isInGracePeriod] in Hu, Ha.
      rewrite Ha.
      destruct (ledgerSaveFails env i); simpl; tauto.
    + unfold saveLedger. destruct (ledgerSaveFails env i); simpl; tauto.
Qed.

Lemma extends_refl l : extends l l.
Proof. unfold extends. by repeat split. Qed.

Lemma extends_trans l1 l2 l3 : extends l1 l2 → extends l2 l3 → extends l1 l3.
Proof.
  unfold extends.
  intros (A1 & A2 & A3 & A4 & A5 & A6 & A7 & A8 & A9 & A10 & A11 & A12)
         (B1 & B2 & B3 & B4 & B5 & B6 & B7 & B8 & B9 & B10 & B11 & B12).
  repeat split; try congruence. by etrans.
Qed.

Lemma extends_push ty at_ l : extends l (push_notification ty at_ l).
Proof.
  unfold extends. repeat split. cbn [notifications push_notification].
  by apply prefix_app_r.
Qed.

Lemma extends_calculatePenalty now l : extends l (calculatePenalty now l).
Proof.
  unfold extends, calculatePenalty.
  destruct (status l) eqn:E; try destruct (_ <=? _);
    cbn [emiApplicationId userId installmentNo originalAmount dueDate
         penaltyRate gracePeriodDays paidAmount paidDate paymentReference
         status notifications set_penalty]; by rewrite ?E.
Qed.

Lemma extends_dayOne today now l :
  Cron.isOpen (status l) = true → extends l (dayOne today now l).
Proof.
  intros Ho. unfold dayOne. destruct (_ && _); [|apply extends_refl].
  unfold extends. repeat split; try done.
  cbn [notifications push_notification set_status]. by apply prefix_app_r.
Qed.

Lemma extends_afterOverdue today now l :
  Cron.isOpen (status l) = true → extends l (afterOverdue today now l).
Proof.
  intros Ho. pose proof (extends_dayOne today now l Ho) as H1.
  assert (H2 : extends l
    (if graceEnds today now l
     then push_notification overdue_grace_ended now (graceEnded today now l)
     else dayOne today now l)).
  { destruct (graceEnds today now l); [|exact H1].
    eapply extends_trans; [|apply extends_push].
    unfold graceEnded.
    eapply extends_trans; [|apply extends_calculatePenalty].
    eapply extends_trans; [exact H1|].
    unfold extends. repeat split; try done.
    cbn [status set_missedDate set_status set_isInGracePeriod Cron.isOpen].
    destruct H1 as (_ & _ & _ & _ & _ & _ & _ & _ & _ & _ & -> & _).
    by rewrite Ho. }
  unfold afterOverdue. cbv zeta. destruct (negb _); [|exact H2].
  eapply extends_trans; [exact H2 | apply extends_calculatePenalty].
Qed.

Lemma upcomingEntry_effect env now id emi w :
  let w' := (Cron.upcomingEntry env now (id, emi) w).2 in
  plans w' = plans w ∧ kycs w' = kycs w ∧ apps w' = apps w
  ∧ (ledgers w' = ledgers w
     ∨ (∃ lid l, ledgers w !! lid = Some l
          ∧ ledgers w'
            = <[lid := push_notification reminder_3_days now l]> (ledgers w))
     ∨ (∃ new, ledgers w' = ledgers w ++ [new]
          ∧ ledgerKey new ∉ ledgerKey <$> ledgers w)).
Proof.
  cbv zeta. unfold Cron.upcomingEntry. run_M.
  destruct (list_find _ (ledgers w)) as [[lid0 l0]|]; [simpl; tauto|].
  unfold Cron.sendNotification. run_M. cbn [ledgers set_outbox].
  destruct (list_find _ (ledgers w)) as [[lid l]|] eqn:Hf.
  - apply list_find_Some in Hf as (Hl & _ & _).
    unfold saveLedger. destruct (ledgerSaveFails env lid); simpl; [tauto|].
    repeat split; try done. right. left. eauto.
  - destruct (EmiApplication.nextDueDate emi) as [due|]; [|simpl; tauto].
    unfold saveLedger. cbn [ledgers set_outbox].
    destruct (ledgerSaveFails env _); simpl; [tauto|].
    repeat split; try done. right. right. eexists. split; [reflexivity|].
    apply list_find_None in Hf. rewrite Forall_forall in Hf.
    intros Hin. apply list_elem_of_fmap in Hin as (l & Hk & Hin).
    apply list_elem_of_In in Hin. apply (Hf l Hin).
    unfold ledgerKey in Hk. cbn in Hk. injection Hk as Hid Hdue.
    unfold Cron.ledgerOf, Cron.dateIs. rewrite <- Hid, <- Hdue.
    rewrite Nat.eqb_refl, Z.eqb_refl. done.
Qed.

Lemma dueTodayEntry_effect env now id emi w :
  let w' := (Cron.dueTodayEntry env now (id, emi) w).2 in
  plans w' = plans w ∧ kycs w' = kycs w ∧ apps w' = apps w
  ∧ (ledgers w' = ledgers w
     ∨ (∃ lid l, ledgers w !! lid = Some l
          ∧ ledgers w'
            = <[lid := push_notification due_today now l]> (ledgers w))).
Proof.
  cbv zeta. unfold Cron.dueTodayEntry. run_M.
  destruct (list_find _ (ledgers w)) as [[lid l]|] eqn:Hf.
  - destruct (hasNotification due_today l); [simpl; tauto|].
    unfold Cron.sendNotification. run_M. cbn [ledgers set_outbox].
    apply list_find_Some in Hf as (Hl & _ & _).
    unfold saveLedger. destruct (ledgerSaveFails env lid); simpl; [tauto|].
    repeat split; try done. right. eauto.
  - unfold Cron.sendNotification. run_M. simpl. tauto.
Qed.

Lemma keeps_refl ls : keeps ls ls.
Proof.
  split; [|done]. intros j l Hj. exists l. split; [exact Hj|].
  apply extends_refl.
Qed.

Lemma keeps_trans l1 l2 l3 : keeps l1 l2 → keeps l2 l3 → keeps l1 l3.
Proof.
  intros [E1 N1] [E2 N2]. split; [|tauto].
  intros j l Hj. destruct (E1 j l Hj) as (l' & Hj' & He).
  destruct (E2 j l' Hj') as (l'' & Hj'' & He').
  exists l''. split; [exact Hj''|]. by apply extends_trans with l'.
Qed.

Lemma extends_key l l' : extends l l' → ledgerKey l' = ledgerKey l.
Proof.
  intros (Ha & _ & _ & _ & Hd & _). unfold ledgerKey. by rewrite Ha, Hd.
Qed.

Lemma keeps_insert ls i l x :
  ls !! i = Some l → extends l x → keeps ls (<[i := x]> ls).
Proof.
  intros Hi Hx. split.
  - intros j l0 Hj. destruct (decide (j = i)) as [->|Hne].
    + exists x. rewrite list_lookup_insert_eq
        by (by apply lookup_lt_Some in Hi).
      split; [done|]. congruence.
    + exists l0. rewrite list_lookup_insert_ne by done.
      split; [done | apply extends_refl].
  - rewrite list_fmap_insert. rewrite (extends_key l x Hx).
    rewrite list_insert_id; [done|].
    by rewrite list_lookup_fmap, Hi.
Qed.

Lemma keeps_append ls new :
  ledgerKey new ∉ ledgerKey <$> ls → keeps ls (ls ++ [new]).
Proof.
  intros Hnew. split.
  - intros j l Hj. exists l. split; [|apply extends_refl].
    by apply lookup_app_l_Some.
  - intros Hnd. rewrite fmap_app. apply list.NoDup_app. split; [done|].
    split; [|apply NoDup_singleton].
    intros k Hk Hk'. apply list_elem_of_singleton in Hk'. by subst.
Qed.

Lemma rewrites_keeps ls cur : rewrites ls cur → keeps ls cur.
Proof.
  intros [Hlen He]. split; [exact He|].
  assert (Hk : ledgerKey <$> cur = ledgerKey <$> ls); [|by rewrite Hk].
  apply list_eq. intros j. rewrite !list_lookup_fmap.
  destruct (ls !! j) as [l|] eqn:Hj.
  - destruct (He j l Hj) as (l' & -> & Hx). simpl.
    by rewrite (extends_key l l' Hx).
  - apply lookup_ge_None in Hj. rewrite <- Hlen in Hj.
    apply lookup_ge_None in Hj. by rewrite Hj.
Qed.

Lemma forOf_each {A} (P : World → Prop) (xs : list A) (body : A → M unit) :
  (∀ x, x ∈ xs → preserves P (body x)) → preserves P (forOf xs body).
Proof.
  induction xs as [|x xs IH]; intros Hb; simpl.
  - apply preserves_ret.
  - apply preserves_bind.
    + apply Hb. left.
    + intros _. apply IH. intros y Hy. apply Hb. by right.
Qed.

Lemma overduePass_keeps env now w :
  keeps (ledgers w) (ledgers (Cron.processOverdueEmis env now w).2).
Proof.
  apply rewrites_keeps.
  unfold Cron.processOverdueEmis. cbv zeta. run_M.
  set (docs := filter _ _).
  assert (Hdocs : ∀ d, d ∈ docs →
            Cron.overdueQuery (setHoursZero now) d.2 = true
            ∧ ledgers w !! d.1 = Some d.2)
    by (intros d Hd; by apply selected_document).
  assert (H0 : rewrites (ledgers w) (ledgers w))
    by (split; [done | apply keeps_refl]).
  refine (forOf_each (λ w', rewrites (ledgers w) (ledgers w')) docs _ _ w H0).
  intros [i l] Hd w1 [Hlen He]. destruct (Hdocs _ Hd) as [Hq Hi].
  cbn [fst snd] in *.
  destruct (overdueEntry_effect env (setHoursZero now) now i l w1)
    as (_ & _ & _ & [->| ->]); [done|].
  split; [by rewrite length_insert|].
  intros j l0 Hj. destruct (decide (j = i)) as [->|Hne].
  - exists (afterOverdue (setHoursZero now) now l).
    rewrite list_lookup_insert_eq
      by (rewrite Hlen; by apply lookup_lt_Some in Hi).
    split; [done|]. assert (l0 = l) as -> by congruence.
    apply extends_afterOverdue.
    unfold Cron.overdueQuery in Hq. by apply andb_prop in Hq as [_ Hq].
  - rewrite list_lookup_insert_ne by done. by apply He.
Qed.

Lemma upcomingPass_keeps env now w :
  keeps (ledgers w) (ledgers (Cron.processUpcomingReminders env now w).2).
Proof.
  unfold Cron.processUpcomingReminders. cbv zeta. run_M.
  set (docs := filter _ _).
  pose proof (keeps_refl (ledgers w)) as H0.
  refine (forOf_each (λ w', keeps (ledgers w) (ledgers w')) docs _ _ w H0).
  intros [id emi] _ w1 H1. eapply keeps_trans; [exact H1|].
  destruct (upcomingEntry_effect env now id emi w1)
    as (_ & _ & _ & [->|[(lid & l & Hl & ->)|(new & -> & Hnew)]]).
  - apply keeps_refl.
  - by apply keeps_insert with l, extends_push.
  - by apply keeps_append.
Qed.

Lemma dueTodayPass_keeps env now w :
  keeps (ledgers w) (ledgers (Cron.processDueDateReminders env now w).2).
Proof.
  unfold Cron.processDueDateReminders. cbv zeta. run_M.
  set (docs := filter _ _).
  pose proof (keeps_refl (ledgers w)) as H0.
  refine (forOf_each (λ w', keeps (ledgers w) (ledgers w')) docs _ _ w H0).
  intros [id emi] _ w1 H1. eapply keeps_trans; [exact H1|].
  destruct (dueTodayEntry_effect env now id emi w1)
    as (_ & _ & _ & [->|(lid & l & Hl & ->)]).
  - apply keeps_refl.
  - by apply keeps_insert with l, extends_push.
Qed.

(** A relation between the store before and after that every pass
    establishes is established by the job. *)
Lemma job_relates (R : World → World → Prop) env now :
  (∀ w, R w w) →
  (∀ w1 w2 w3, R w1 w2 → R w2 w3 → R w1 w3) →
  (∀ w, R w (Cron.processUpcomingReminders env now w).2) →
  (∀ w, R w (Cron.processDueDateReminders env now w).2) →
  (∀ w, R w (Cron.processOverdueEmis env now w).2) →
  ∀ w, R w (Cron.runPaymentReminderJob env now w).2.
Proof.
  intros Hrefl Htrans Hup Hdue Hover w.
  unfold Cron.runPaymentReminderJob, tryCatch. run_M.
  specialize (Hup w).
  destruct (Cron.processUpcomingReminders env now w) as [[[]|e] w1];
    cbn [snd] in *; [|exact Hup].
  specialize (Hdue w1).
  destruct (Cron.processDueDateReminders env now w1) as [[[]|e] w2];
    cbn [snd] in *; [|by apply Htrans with w1].
  specialize (Hover w2).
  destruct (Cron.processOverdueEmis env now w2) as [[[]|e] w3];
    cbn [snd] in *; apply Htrans with w1; try done;
    by apply Htrans with w2.
Qed.

Lemma job_keeps env now w :
  keeps (ledgers w) (ledgers (Cron.runPaymentReminderJob env now w).2).
Proof.
  apply (job_relates (λ w w', keeps (ledgers w) (ledgers w'))).
  - intros. apply keeps_refl.
  - intros w1 w2 w3. apply keeps_trans.
  - apply upcomingPass_keeps.
  - apply dueTodayPass_keeps.
  - apply overduePass_keeps.
Qed.

Lemma sameOrDefaulted_refl a : sameOrDefaulted a a.
Proof. by left. Qed.

Lemma sameOrDefaulted_trans a b c :
  sameOrDefaulted a b → sameOrDefaulted b c → sameOrDefaulted a c.
Proof.
  intros [->| ->] [->| ->]; unfold sameOrDefaulted; auto.
Qed.

Lemma onlyDefaults_refl w : onlyDefaults w w.
Proof.
  repeat split. apply Forall2_same_length_lookup. split; [done|].
  intros i a b Ha Hb. assert (a = b) as -> by congruence. by left.
Qed.

Lemma onlyDefaults_trans w1 w2 w3 :
  onlyDefaults w1 w2 → onlyDefaults w2 w3 → onlyDefaults w1 w3.
Proof.
  intros (P1 & K1 & A1) (P2 & K2 & A2). repeat split; try congruence.
  rewrite Forall2_same_length_lookup in *.
  destruct A1 as [L1 A1], A2 as [L2 A2]. split; [congruence|].
  intros i a c Ha Hc.
  destruct (apps w2 !! i) as [b|] eqn:Hb.
  - apply sameOrDefaulted_trans with b; eauto.
  - apply lookup_ge_None in Hb. apply lookup_lt_Some in Ha. lia.
Qed.

Lemma onlyDefaults_alter w w' id :
  plans w' = plans w → kycs w' = kycs w →
  apps w' = alter (EmiApplication.set_status EmiApplication.defaulted) id
              (apps w) →
  onlyDefaults w w'.
Proof.
  intros Hp Hk Ha. repeat split; try done. rewrite Ha.
  apply Forall2_same_length_lookup. split; [by rewrite length_alter|].
  intros i a b Hi. rewrite list_lookup_alter.
  destruct (decide (id = i)) as [->|Hne].
  - rewrite Hi. simpl. intros [= <-]. by right.
  - rewrite Hi. intros [= <-]. by left.
Qed.

Lemma onlyDefaults_same w w' :
  plans w' = plans w → kycs w' = kycs w → apps w' = apps w →
  onlyDefaults w w'.
Proof.
  intros Hp Hk Ha. destruct (onlyDefaults_refl w) as (_ & _ & H).
  repeat split; try done. by rewrite Ha.
Qed.

Lemma overduePass_onlyDefaults env now w :
  onlyDefaults w (Cron.processOverdueEmis env now w).2.
Proof.
  unfold Cron.processOverdueEmis. cbv zeta. run_M.
  refine (forOf_each (λ w', onlyDefaults w w') _ _ _ w
            (onlyDefaults_refl w)).
  intros [i l] _ w1 H1. eapply onlyDefaults_trans; [exact H1|].
  destruct (overdueEntry_effect env (setHoursZero now) now i l w1)
    as (Hp & Hk & [Ha|Ha] & _).
  - by apply onlyDefaults_same.
  - by apply onlyDefaults_alter with (emiApplicationId l).
Qed.

Lemma upcomingPass_onlyDefaults env now w :
  onlyDefaults w (Cron.processUpcomingReminders env now w).2.
Proof.
  unfold Cron.processUpcomingReminders. cbv zeta. run_M.
  refine (forOf_each (λ w', onlyDefaults w w') _ _ _ w
            (onlyDefaults_refl w)).
  intros [id emi] _ w1 H1. eapply onlyDefaults_trans; [exact H1|].
  destruct (upcomingEntry_effect env now id emi w1) as (Hp & Hk & Ha & _).
  by apply onlyDefaults_same.
Qed.

Lemma dueTodayPass_onlyDefaults env now w :
  onlyDefaults w (Cron.processDueDateReminders env now w).2.
Proof.
  unfold Cron.processDueDateReminders. cbv zeta. run_M.
  refine (forOf_each (λ w', onlyDefaults w w') _ _ _ w
            (onlyDefaults_refl w)).
  intros [id emi] _ w1 H1. eapply onlyDefaults_trans; [exact H1|].
  destruct (dueTodayEntry_effect env now id emi w1) as (Hp & Hk & Ha & _).
  by apply onlyDefaults_same.
Qed.

Lemma job_onlyDefaults env now w :
  onlyDefaults w (Cron.runPaymentReminderJob env now w).2.
Proof.
  apply (job_relates onlyDefaults).
  - apply onlyDefaults_refl.
  - apply onlyDefaults_trans.
  - apply upcomingPass_onlyDefaults.
  - apply dueTodayPass_onlyDefaults.
  - apply overduePass_onlyDefaults.
Qed.

End JobFrame.

(** X7. Whatever the datastore and the notification sink do, a run of the
    job leaves the plans and the KYC records as they were, adds and removes
    no application, and changes an application in one way only: its status
    set to defaulted. *)
Theorem job_only_defaults (env : Faults) (now : Date) (w : World) :
  let w' := (Cron.runPaymentReminderJob env now w).2 in
  plans w' = plans w ∧ kycs w' = kycs w
  ∧ length (apps w') = length (apps w)
  ∧ ∀ id a, apps w !! id = Some a →
      apps w' !! id = Some a
      ∨ apps w' !! id
        = Some (EmiApplication.set_status EmiApplication.defaulted a).
Proof.
  cbv zeta.
  destruct (job_onlyDefaults env now w) as (Hp & Hk & Ha).
  rewrite Forall2_same_length_lookup in Ha. destruct Ha as [Hlen Ha].
  repeat split; try done.
  intros id a Hid.
  destruct (apps (Cron.runPaymentReminderJob env now w).2 !! id) as [b|]
    eqn:Hb.
  - destruct (Ha id a b Hid Hb) as [->| ->]; auto.
  - apply lookup_ge_None in Hb. apply lookup_lt_Some in Hid. lia.
Qed.

(** X8. Whatever the datastore and the notification sink do, a run of the
    job deletes no ledger entry and keeps every entry under its [_id] with
    the same application, user, installment, amount, due date, rate, grace
    period and payment record; it neither settles an open entry nor reopens
    a settled one, and the notification log of an entry only grows. *)
Theorem job_extends_ledgers (env : Faults) (now : Date) (w : World) :
  ledgersExtend (ledgers w)
    (ledgers (Cron.runPaymentReminderJob env now w).2).
Proof. exact (proj1 (job_keeps env now w)). Qed.

(** X9. If no two ledger entries share their application and due date,
    the same holds after a run of the job, whatever the datastore and the
    notification sink do: the job creates an entry only for a key that has
    none, and rewrites an entry under the key it has. *)
Theorem job_keeps_keys_unique (env : Faults) (now : Date) (w : World) :
  NoDup (ledgerKey <$> ledgers w) →
  NoDup (ledgerKey <$> ledgers (Cron.runPaymentReminderJob env now w).2).
Proof. exact (proj2 (job_keeps env now w)). Qed.

Lemma job_keeps_keys_unique_witness :
  NoDup (ledgerKey <$>
           ledgers (Cron.runPaymentReminderJob noFaults
                      (ofCivil 2025 3 2 (9 * 3600000)) threeDue).2)
  ∧ ledgerKey <$>
      ledgers (Cron.runPaymentReminderJob noFaults
                 (ofCivil 2025 3 2 (9 * 3600000)) threeDue).2
    = [ (0%nat, ofCivil 2025 2 5 36000000);
        (0%nat, ofCivil 2025 3 5 36000000);
        (1%nat, ofCivil 2025 3 5 36000000);
        (2%nat, ofCivil 2025 3 5 36000000) ]
  ∧ PenaltyLedger.status <$>
      ledgers (Cron.runPaymentReminderJob noFaults
                 (ofCivil 2025 3 2 (9 * 3600000)) threeDue).2
    = [ PenaltyLedger.overdue; PenaltyLedger.pending;
        PenaltyLedger.pending; PenaltyLedger.pending ].
Proof.
  split; [|split; vm_compute; reflexivity].
  apply (job_keeps_keys_unique noFaults (ofCivil 2025 3 2 (9 * 3600000))
           threeDue).
  apply (bool_decide_unpack _). vm_compute. exact I.
Defined.

(** ** The overdue pass: what it skips and whom it defaults *)

(** X10. Whatever the datastore and the notification sink do, the overdue
    pass leaves a settled entry (paid or waived) and an entry whose due date
    is not before today's midnight exactly as it was; any other entry is
    either as it was or as the pass means to save it. *)
Theorem overdue_pass_skips (env : Faults) (now : Date) (w : World)
    (j : nat) (l : PenaltyLedger.t) :
  ledgers w !! j = Some l →
  let w' := (Cron.processOverdueEmis env now w).2 in
  (Cron.isOpen (PenaltyLedger.status l) = false
   ∨ setHoursZero now <= PenaltyLedger.dueDate l →
   ledgers w' !! j = Some l)
  ∧ (ledgers w' !! j = Some l
     ∨ ledgers w' !! j = Some (afterOverdue (setHoursZero now) now l)).
Proof.
  intros Hj. cbv zeta.
  unfold Cron.processOverdueEmis. cbv zeta. run_M.
  set (docs := filter _ _).
  assert (Hdocs : ∀ d, d ∈ docs →
            Cron.overdueQuery (setHoursZero now) d.2 = true
            ∧ ledgers w !! d.1 = Some d.2)
    by (intros d Hd; by apply selected_document).
  split.
  - intros Hskip.
    refine (forOf_each (λ w', ledgers w' !! j = Some l) docs _ _ w Hj).
    intros [i l'] Hd w1 H1. destruct (Hdocs _ Hd) as [Hq Hi].
    cbn [fst snd] in *.
    destruct (overdueEntry_effect env (setHoursZero now) now i l' w1)
      as (_ & _ & _ & [->| ->]); [done|].
    rewrite list_lookup_insert_ne; [done|].
    intros ->. assert (l' = l) as -> by congruence.
    unfold Cron.overdueQuery in Hq. apply andb_prop in Hq as [Hd' Ho].
    apply Z.ltb_lt in Hd'. destruct Hskip as [Hs|Hs]; [congruence | lia].
  - refine (forOf_each
              (λ w', ledgers w' !! j = Some l
                     ∨ ledgers w' !! j
                       = Some (afterOverdue (setHoursZero now) now l))
              docs _ _ w (or_introl Hj)).
    intros [i l'] Hd w1 H1. destruct (Hdocs _ Hd) as [Hq Hi].
    cbn [fst snd] in *.
    destruct (overdueEntry_effect env (setHoursZero now) now i l' w1)
      as (_ & _ & _ & [->| ->]); [done|].
    destruct (decide (i = j)) as [->|Hne].
    + assert (l' = l) as -> by congruence.
      right. apply list_lookup_insert_eq.
      destruct H1 as [H1|H1]; by apply lookup_lt_Some in H1.
    + by rewrite list_lookup_insert_ne.
Qed.

Lemma overdue_pass_skips_witness :
  ledgers (Cron.processOverdueEmis firstSaveFails
             (ofCivil 2025 3 5 (9 * 3600000)) freshLedgers).2 !! 1%nat
  = Some (PenaltyLedger.create 1%nat 8%nat 1 2000 (ofCivil 2025 3 5 0)).
Proof.
  refine (proj1 (overdue_pass_skips firstSaveFails
                   (ofCivil 2025 3 5 (9 * 3600000)) freshLedgers 1%nat
                   (PenaltyLedger.create 1%nat 8%nat 1 2000
                      (ofCivil 2025 3 5 0)) _) _).
  - reflexivity.
  - right. vm_compute. discriminate.
Defined.

Section Defaulting.

Import PenaltyLedger.

Variables today now : Date.

Lemma defaulted_twice a :
  EmiApplication.set_status EmiApplication.defaulted
    (EmiApplication.set_status EmiApplication.defaulted a)
  = EmiApplication.set_status EmiApplication.defaulted a.
Proof. reflexivity. Qed.

Lemma overdueApps_lookup (docs : list (nat * PenaltyLedger.t))
    (coll : list EmiApplication.t) (id : nat) :
  foldl (λ acc d, overdueApps today now d.2 acc) coll docs !! id
  = (λ a, if endsGraceOf today now id docs
          then EmiApplication.set_status EmiApplication.defaulted a
          else a) <$> coll !! id.
Proof.
  revert coll. induction docs as [|d docs IH]; intros coll.
  - simpl. by destruct (coll !! id).
  - cbn [foldl]. rewrite IH. unfold overdueApps at 1.
    unfold endsGraceOf. cbn [existsb]. fold (endsGraceOf today now id docs).
    destruct (graceEnds today now d.2) eqn:Hg; cbn [andb orb]; [|done].
    rewrite list_lookup_alter.
    destruct (decide (emiApplicationId d.2 = id)) as [->|Hne].
    + rewrite Nat.eqb_refl. cbn [orb].
      destruct (coll !! id) as [a|]; [|done]. simpl.
      by destruct (endsGraceOf _ _ _ _).
    + apply Nat.eqb_neq in Hne. by rewrite Hne.
Qed.

End Defaulting.

(** X11. Let the datastore work, the run start after the first
    millisecond of the local day, and every ledger entry be on the
    three-day grace period.  Then the overdue pass sets an application to
    defaulted exactly when one of the selected entries that refer to it
    ends its grace period in this pass (three or more whole days past its
    due date and still flagged as in grace), whatever the application's
    status was, completed included; every other application is left as it
    was.  (An entry on another grace period can end the pass in a
    TypeError.) *)
Theorem overdue_pass_defaults (env : Faults) (now : Date) (w : World)
    (id : ObjectId) (a : EmiApplication.t) :
  (∀ i, ledgerSaveFails env i = false) →
  afterMidnight now →
  regular w →
  apps w !! id = Some a →
  apps (Cron.processOverdueEmis env now w).2 !! id
  = Some (if endsGraceOf (setHoursZero now) now id
               (filter (λ d : nat * PenaltyLedger.t,
                          Cron.overdueQuery (setHoursZero now) d.2)
                  (documents (ledgers w)))
          then EmiApplication.set_status EmiApplication.defaulted a
          else a).
Proof.
  intros Hs Hn Hr Ha. unfold Cron.processOverdueEmis. cbv zeta. run_M.
  rewrite overdue_loop.
  - cbn [snd apps]. rewrite overdueApps_lookup. by rewrite Ha.
  - exact Hs.
  - apply Forall_forall. intros d Hd. apply list_elem_of_In in Hd.
    apply selected_document in Hd as [_ Hd].
    apply totalKnown_regular; [exact Hn|].
    unfold regular in Hr. rewrite Forall_lookup in Hr. eauto.
Qed.

Lemma overdue_pass_defaults_witness :
  apps (Cron.processOverdueEmis noFaults (ofCivil 2025 3 8 (9 * 3600000))
          graceWorld).2 !! 0%nat
  = Some (EmiApplication.set_status EmiApplication.defaulted partlyPaid).
Proof.
  refine (eq_trans
            (overdue_pass_defaults noFaults (ofCivil 2025 3 8 (9 * 3600000))
               graceWorld 0%nat partlyPaid _ _ _ _) _).
  - intros i. reflexivity.
  - unfold afterMidnight. vm_compute. reflexivity.
  - unfold regular. repeat constructor.
  - reflexivity.
  - vm_compute. reflexivity.
Defined.

(** ** Stores the handlers can produce *)

Section Counting.

Lemma countStatus_insert s (l : list Installment.t) k x y :
  l !! k = Some x →
  countStatus s (<[k := y]> l)
  = countStatus s l
    - (if Installment.Status_eqb (Installment.status x) s then 1 else 0)
    + (if Installment.Status_eqb (Installment.status y) s then 1 else 0).
Proof.
  intros Hk. unfold countStatus.
  rewrite insert_take_drop by (by apply lookup_lt_Some in Hk).
  rewrite <- (take_drop_middle l k x Hk) at 3.
  rewrite !list.filter_app, !length_app.
  rewrite !filter_cons.
  destruct (Installment.Status_eqb (Installment.status x) s);
    destruct (Installment.Status_eqb (Installment.status y) s);
    simpl; lia.
Qed.

Lemma countStatus_all_pending (l : list Installment.t) :
  Forall (λ i, Installment.status i = Installment.pending) l →
  countStatus Installment.pending l = Z.of_nat (length l)
  ∧ countStatus Installment.paid l = 0.
Proof.
  unfold countStatus. induction 1 as [|x l Hx _ [IH1 IH2]]; [done|].
  rewrite !filter_cons, Hx. simpl.
  split; [lia | exact IH2].
Qed.


Lemma countStatus_member s (l : list Installment.t) k x :
  l !! k = Some x → Installment.status x = s → 0 < countStatus s l.
Proof.
  intros Hk Hs. unfold countStatus.
  rewrite <- (take_drop_middle l k x Hk).
  rewrite list.filter_app, length_app.
  rewrite filter_cons, Hs. destruct s; simpl; lia.
Qed.

Lemma nextPending_none (l : list Installment.t) :
  countStatus Installment.pending l = 0 →
  Routes.nextPendingDueDate l = None.
Proof.
  unfold countStatus, Routes.nextPendingDueDate. intros H.
  destruct (filter _ l); [done | simpl in H; lia].
Qed.

Lemma nextPending_some (l : list Installment.t) :
  0 < countStatus Installment.pending l →
  is_Some (Routes.nextPendingDueDate l).
Proof.
  unfold countStatus, Routes.nextPendingDueDate. intros H.
  destruct (filter _ l); [simpl in H; lia | simpl; eauto].
Qed.

End Counting.

Section WellFormed.

Lemma wellFormed_created now userId orderId emiPlanId principalAmount plan a :
  EmiApplication.generateSchedule now
    (Routes.newApplication userId orderId emiPlanId principalAmount plan)
  = Some a →
  wellFormed (EmiApplication.set_approvedAt (Some now) a).
Proof.
  set (app := Routes.newApplication _ _ _ _ _). intros Hg.
  destruct (Z_lt_le_dec (EmiApplication.tenure app) 1) as [Hlt|Hge].
  { rewrite generateSchedule_throws in Hg by lia. done. }
  rewrite generateSchedule_runs in Hg by exact Hge. injection Hg as <-.
  pose proof (scheduleOf_pending app now) as Hp.
  destruct (countStatus_all_pending _ Hp) as [Hc1 Hc2].
  rewrite scheduleOf_length in Hc1.
  change (EmiApplication.tenure app) with (EmiPlan.tenure plan) in Hge, Hc1.
  split.
  - unfold accounted.
    cbn [EmiApplication.installments EmiApplication.tenure
         EmiApplication.paidInstallments
         EmiApplication.remainingInstallments
         EmiApplication.set_approvedAt EmiApplication.set_schedule].
    split; [|split; [|split]].
    + unfold EmiApplication.scheduleOf. rewrite <- list_fmap_compose.
      by apply list_fmap_ext.
    + eapply List.Forall_impl; [|exact Hp]. intros i Hi. by left.
    + rewrite Hc2. reflexivity.
    + rewrite Hc1. lia.
  - left.
    cbn [EmiApplication.status EmiApplication.nextDueDate
         EmiApplication.completedAt EmiApplication.remainingInstallments
         EmiApplication.set_approvedAt EmiApplication.set_schedule].
    repeat split; [lia | eauto].
Qed.

Lemma wellFormed_paid now transactionId paymentMethod k installment a :
  wellFormed a →
  EmiApplication.installments a !! k = Some installment →
  Installment.status installment ≠ Installment.paid →
  wellFormed
    (Routes.recordPayment now transactionId paymentMethod k installment a).
Proof.
  intros [(Hord & Hst & Hpaid & Hrem) Hlife] Hk Hnp.
  assert (Hpend : Installment.status installment = Installment.pending).
  { rewrite Forall_lookup in Hst. destruct (Hst k installment Hk); done. }
  set (insts := <[k := Routes.markPaid now transactionId paymentMethod
                         installment]> (EmiApplication.installments a)).
  assert (Hc1 : countStatus Installment.paid insts
                = EmiApplication.paidInstallments a + 1).
  { unfold insts. rewrite (countStatus_insert _ _ _ installment) by done.
    rewrite Hpend, Hpaid. simpl. lia. }
  assert (Hc2 : countStatus Installment.pending insts
                = EmiApplication.remainingInstallments a - 1).
  { unfold insts. rewrite (countStatus_insert _ _ _ installment) by done.
    rewrite Hpend, Hrem. simpl. lia. }
  assert (Hpos : 0 < EmiApplication.remainingInstallments a).
  { rewrite Hrem. by apply countStatus_member with k installment. }
  assert (Hacc : ∀ b,
            EmiApplication.installments b = insts →
            EmiApplication.tenure b = EmiApplication.tenure a →
            EmiApplication.paidInstallments b
            = EmiApplication.paidInstallments a + 1 →
            EmiApplication.remainingInstallments b
            = EmiApplication.remainingInstallments a - 1 →
            accounted b).
  { intros b Hi Ht Hp Hr. unfold accounted. rewrite Hi, Ht, Hp, Hr.
    split; [|split; [|split]]; try done.
    - unfold insts. rewrite list_fmap_insert. cbn.
      rewrite list_insert_id; [done|].
      by rewrite list_lookup_fmap, Hk.
    - unfold insts. apply Forall_insert; [done|]. by right. }
  unfold Routes.recordPayment. cbv zeta. fold insts.
  cbn [EmiApplication.remainingInstallments EmiApplication.set_summary].
  destruct (EmiApplication.remainingInstallments a - 1 =? 0) eqn:E.
  - apply Z.eqb_eq in E. split; [by apply Hacc|]. right.
    cbn [EmiApplication.status EmiApplication.nextDueDate
         EmiApplication.completedAt EmiApplication.remainingInstallments
         EmiApplication.set_summary EmiApplication.set_status
         EmiApplication.set_completedAt].
    repeat split; [done | | eauto].
    apply nextPending_none. lia.
  - apply Z.eqb_neq in E. split; [by apply Hacc|]. left.
    cbn [EmiApplication.status EmiApplication.nextDueDate
         EmiApplication.completedAt EmiApplication.remainingInstallments
         EmiApplication.set_summary].
    destruct Hlife as [(Hs & _ & _ & Hc)|(_ & Hz & _)]; [|lia].
    repeat split; [done | lia | | done].
    apply nextPending_some. lia.
Qed.

Lemma wellFormed_neverActive a : wellFormed a → neverActive a.
Proof.
  intros [_ [(Hs & _)|(Hs & _)]]; unfold neverActive; by rewrite Hs.
Qed.

Lemma wellFormed_pay now userId applicationId k transactionId paymentMethod :
  preserves (λ w, Forall wellFormed (apps w))
    (Routes.pay now userId applicationId k transactionId paymentMethod).
Proof.
  intros w H. unfold Routes.pay. run_M.
  destruct (apps w !! applicationId) as [app|] eqn:Ha; [|exact H].
  destruct (negb _); [exact H|].
  destruct (list_find _ _) as [[j inst]|] eqn:Hf; [|exact H].
  destruct (Installment.Status_eqb _ _) eqn:Hst; [exact H|].
  apply list_find_Some in Hf as (Hj & _ & _).
  assert (Ha' : wellFormed app).
  { rewrite Forall_lookup in H. eauto. }
  assert (Hnp : Installment.status inst ≠ Installment.paid).
  { intros Hp. rewrite Hp in Hst. done. }
  pose proof (wellFormed_paid now transactionId paymentMethod j inst app
                Ha' Hj Hnp) as Hw.
  unfold saveApplication. destruct (EmiApplication.inEnum _); [|exact H].
  run_M. cbn [snd apps set_apps].
  destruct (decide (applicationId < length (apps w))%nat).
  - apply Forall_insert; assumption.
  - rewrite list_insert_ge by lia. exact H.
Qed.

(** The handlers of [routes/emi.js] and the refund write applications
    only. *)
Lemma saveApplication_ledgers (L : list PenaltyLedger.t) id a :
  preserves (λ w, ledgers w = L) (saveApplication id a).
Proof.
  intros w H. unfold saveApplication.
  destruct (EmiApplication.inEnum _); [|exact H].
  destruct id; exact H.
Qed.

Lemma handlers_ledgers (L : list PenaltyLedger.t) :
  (∀ now userId orderId emiPlanId principalAmount,
     preserves (λ w, ledgers w = L)
       (Routes.apply now userId orderId emiPlanId principalAmount))
  ∧ (∀ now userId applicationId k transactionId paymentMethod,
       preserves (λ w, ledgers w = L)
         (Routes.pay now userId applicationId k transactionId
            paymentMethod))
  ∧ (∀ applicationId,
       preserves (λ w, ledgers w = L) (Routes.refund applicationId)).
Proof.
  split; [|split]; intros;
    unfold Routes.apply, Routes.pay, Routes.refund, saveOrder;
    repeat first [apply saveApplication_ledgers | preserve_step].
Qed.

Lemma job_idle env now w :
  ledgers w = [] →
  Forall neverActive (apps w) →
  Cron.runPaymentReminderJob env now w = (Done tt, w).
Proof.
  intros Hl Hn.
  unfold Cron.runPaymentReminderJob, tryCatch,
    Cron.processUpcomingReminders, Cron.processDueDateReminders,
    Cron.processOverdueEmis.
  run_M. rewrite !(no_active_selected w _ _ Hn). cbn [forOf]. run_M.
  rewrite (no_active_selected w _ _ Hn). cbn [forOf]. run_M.
  rewrite Hl. reflexivity.
Qed.

Lemma wellFormed_reachable w :
  Reachable w → ledgers w = [] ∧ Forall wellFormed (apps w).
Proof.
  induction 1 as [w Ha Hl|w w' _ [IHl IHa] Hs].
  - split; [exact Hl|]. rewrite Ha. constructor.
  - destruct (handlers_ledgers []) as (Lapply & Lpay & Lrefund).
    destruct Hs.
    + done.
    + done.
    + split; [by apply Lapply|].
      by apply (holds_apply wellFormed wellFormed_created).
    + split; [by apply Lpay | by apply wellFormed_pay].
    + split; [by apply Lrefund | by apply (holds_refund wellFormed)].
    + rewrite job_idle; [done | done |].
      eapply List.Forall_impl; [|exact IHa].
      apply wellFormed_neverActive.
Qed.

End WellFormed.


(** X12. In every store that the handlers and the job produce from one
    without applications and ledger entries, the ledger collection is
    empty, and a run of the job, whatever the datastore and the sink do,
    returns normally and leaves the store as it was: nothing is sent, no
    entry is created and no application is touched. *)
Theorem reachable_job_idle (w : World) :
  Reachable w →
  ledgers w = []
  ∧ ∀ env now, Cron.runPaymentReminderJob env now w = (Done tt, w).
Proof.
  intros Hr. destruct (wellFormed_reachable w Hr) as [Hl Ha].
  split; [exact Hl|]. intros env now. apply job_idle; [exact Hl|].
  eapply List.Forall_impl; [|exact Ha]. apply wellFormed_neverActive.
Qed.

Lemma reachable_job_idle_witness :
  Cron.runPaymentReminderJob sinkDown (ofCivil 2025 2 5 (9 * 3600000))
    demoHistory
  = (Done tt, demoHistory).
Proof.
  refine (proj2 (reachable_job_idle demoHistory _) sinkDown
            (ofCivil 2025 2 5 (9 * 3600000))).
  unfold demoHistory.
  apply reach_step with
    (w := (Routes.apply (ofCivil 2025 1 10 0) 1%nat 7%nat 0%nat 3000
             demoWorld).2);
    [|apply step_pay].
  apply reach_step with (w := demoWorld); [|apply step_apply].
  apply reach_init; reflexivity.
Defined.





(** ** Payments *)

Section Payments.

Lemma recordPayment_fields now tx pm k inst a :
  EmiApplication.userId (Routes.recordPayment now tx pm k inst a)
  = EmiApplication.userId a
  ∧ EmiApplication.installments (Routes.recordPayment now tx pm k inst a)
    = <[k := Routes.markPaid now tx pm inst]> (EmiApplication.installments a).
Proof.
  unfold Routes.recordPayment. cbv zeta. by destruct (_ =? 0).
Qed.

(** What a successful [/pay] has read and written. *)
Lemma pay_accepted now userId applicationId k tx pm w :
  (Routes.pay now userId applicationId k tx pm w).1 = Done 200 →
  ∃ a j inst,
    apps w !! applicationId = Some a
    ∧ EmiApplication.userId a = userId
    ∧ list_find (λ i, Installment.installmentNumber i = k)
        (EmiApplication.installments a) = Some (j, inst)
    ∧ Installment.status inst ≠ Installment.paid
    ∧ (Routes.pay now userId applicationId k tx pm w).2
      = set_apps (λ l, <[applicationId :=
                           Routes.recordPayment now tx pm j inst a]> l) w.
Proof.
  unfold Routes.pay. run_M.
  destruct (apps w !! applicationId) as [a|] eqn:Ha; [|done].
  destruct (Nat.eqb (EmiApplication.userId a) userId) eqn:Hu;
    cbn [negb]; [|done].
  destruct (list_find _ _) as [[j inst]|] eqn:Hf; [|done].
  destruct (Installment.Status_eqb _ _) eqn:Hs; [done|].
  unfold saveApplication.
  destruct (EmiApplication.inEnum _); [|done]. run_M. intros _.
  exists a, j, inst. apply Nat.eqb_eq in Hu.
  repeat split; try done. intros Hp. by rewrite Hp in Hs.
Qed.

Lemma pay_rejected now userId applicationId k tx pm w :
  (Routes.pay now userId applicationId k tx pm w).1 ≠ Done 200 →
  (Routes.pay now userId applicationId k tx pm w).2 = w.
Proof.
  unfold Routes.pay. run_M.
  destruct (apps w !! applicationId) as [a|]; [|done].
  destruct (negb _); [done|].
  destruct (list_find _ _) as [[j inst]|]; [|done].
  destruct (Installment.Status_eqb _ _); [done|].
  unfold saveApplication.
  destruct (EmiApplication.inEnum _); [|done]. run_M. done.
Qed.

End Payments.

(** X15. [/pay] answers 200 or leaves the store as it was.  Once it has
    answered 200 for an installment, a further request for the same
    installment, at any time and with any transaction, answers 400 and
    changes nothing: an installment cannot be paid twice. *)
Theorem pay_twice (now1 now2 : Date) (userId applicationId : ObjectId)
    (k : Z) (tx1 pm1 tx2 pm2 : option string) (w : World) :
  let w1 := (Routes.pay now1 userId applicationId k tx1 pm1 w).2 in
  ((Routes.pay now1 userId applicationId k tx1 pm1 w).1 ≠ Done 200 →
   w1 = w)
  ∧ ((Routes.pay now1 userId applicationId k tx1 pm1 w).1 = Done 200 →
     Routes.pay now2 userId applicationId k tx2 pm2 w1 = (Done 400, w1)).
Proof.
  cbv zeta. split; [apply pay_rejected|]. intros H200.
  destruct (pay_accepted _ _ _ _ _ _ _ H200)
    as (a & j & inst & Ha & Hu & Hf & Hnp & ->).
  destruct (recordPayment_fields now1 tx1 pm1 j inst a) as [Hu' Hi'].
  unfold Routes.pay. run_M. cbn [apps set_apps].
  rewrite list_lookup_insert_eq by (by apply lookup_lt_Some in Ha).
  rewrite Hu', Hu, Nat.eqb_refl. cbn [negb].
  rewrite Hi'.
  erewrite (list_find_insert_here _ _ _ _ inst); [done | done | exact Hf].
Qed.

Lemma pay_twice_witness :
  Routes.pay (ofCivil 2025 3 9 0) 1%nat 0%nat 2 None None demoHistory
  = (Done 400, demoHistory).
Proof.
  refine (proj2 (pay_twice (ofCivil 2025 3 2 0) (ofCivil 2025 3 9 0) 1%nat
                   0%nat 2 (Some "tx9"%string) (Some "card"%string)
                   None None
                   (Routes.apply (ofCivil 2025 1 10 0) 1%nat 7%nat 0%nat
                      3000 demoWorld).2) _).
  vm_compute. reflexivity.
Defined.

(** X16. A recorded payment is final: no request and no run of the job
    alters or removes a paid installment, its payment date, transaction
    or method. *)
Theorem payment_is_final (w w' : World) (id : ObjectId)
    (a : EmiApplication.t) (j : nat) (inst : Installment.t) :
  Step w w' →
  apps w !! id = Some a →
  EmiApplication.installments a !! j = Some inst →
  Installment.status inst = Installment.paid →
  ∃ a', apps w' !! id = Some a'
        ∧ EmiApplication.installments a' !! j = Some inst.
Proof.
  intros Hs Ha Hj Hp. destruct Hs.
  - eauto.
  - eauto.
  - (* /apply appends at most *)
    unfold Routes.apply. run_M.
    destruct (list_find _ (kycs w)) as [[i kyc]|]; [|eauto].
    destruct (negb (UserKyc.isVerified kyc)); [eauto|].
    destruct (negb (Qle_bool _ _)); [eauto|].
    destruct (plans w !! emiPlanId) as [plan|]; [|eauto].
    destruct (EmiApplication.generateSchedule _ _) as [b|]; [|eauto].
    unfold saveApplication.
    destruct (EmiApplication.inEnum _); [|eauto]. run_M.
    cbn [snd apps set_apps]. exists a. split; [|done].
    by apply lookup_app_l_Some.
  - (* /pay writes another installment *)
    destruct (Routes.pay now userId applicationId k transactionId
                paymentMethod w).1 as [r|e] eqn:E;
      [destruct (decide (r = 200)) as [->|Hr]|];
      [|rewrite pay_rejected by (rewrite E; congruence); eauto..].
    destruct (pay_accepted _ _ _ _ _ _ _ E)
      as (b & j' & inst' & Hb & _ & Hf & Hnp & ->).
    cbn [apps set_apps].
    destruct (decide (applicationId = id)) as [->|Hne].
    + assert (b = a) as -> by congruence.
      rewrite list_lookup_insert_eq by (by apply lookup_lt_Some in Ha).
      eexists. split; [reflexivity|].
      destruct (recordPayment_fields now transactionId paymentMethod j'
                  inst' a) as [_ ->].
      apply list_find_Some in Hf as (Hj' & _ & _).
      rewrite list_lookup_insert_ne; [done|].
      intros ->. congruence.
    + rewrite list_lookup_insert_ne by done. eauto.
  - (* the refund stops at the order's save *)
    unfold Routes.refund, Routes.answering500, saveOrder. run_M.
    cbn [Order.inEnum snd]. eauto.
  - (* the job at most sets the status *)
    destruct (job_onlyDefaults env now w) as (_ & _ & Hall).
    rewrite Forall2_same_length_lookup in Hall. destruct Hall as [Hlen Hall].
    destruct (apps (Cron.runPaymentReminderJob env now w).2 !! id) as [b|]
      eqn:Hb.
    + exists b. split; [done|].
      destruct (Hall id a b Ha Hb) as [->| ->]; done.
    + apply lookup_ge_None in Hb. apply lookup_lt_Some in Ha. lia.
Qed.

Lemma payment_is_final_witness :
  ∃ a', apps (Routes.pay (ofCivil 2025 4 1 0) 1%nat 0%nat 3 None None
                demoHistory).2 !! 0%nat = Some a'
        ∧ EmiApplication.installments a' !! 1%nat
          = Some (Installment.mk 2 (ofCivil 2025 3 5 0) 1000 Installment.paid
                    (Some (ofCivil 2025 3 2 0)) (Some "tx9"%string)
                    (Some "card"%string)).
Proof.
  refine (payment_is_final demoHistory _ 0%nat _ 1%nat _
            (step_pay (ofCivil 2025 4 1 0) 1%nat 0%nat 3 None None
               demoHistory) _ _ _).
  - vm_compute. reflexivity.
  - vm_compute. reflexivity.
  - reflexivity.
Defined.

(** ** KYC review and the credit limit *)

(** X17. After the admin handler has verified a user's KYC record, [/apply]
    by that user for an existing plan of at least one month answers 201
    when the principal is within the stored credit limit and 400 when it
    is above.  The stored limit is the one of the request, or 50000 when
    the request names none or names zero. *)
Theorem verify_then_apply (w : World) (kycId : ObjectId) (kyc : UserKyc.t)
    (creditLimit : option Q) (now : Date) (orderId emiPlanId : ObjectId)
    (plan : EmiPlan.t) (principalAmount : Q) :
  kycs w !! kycId = Some kyc →
  (∀ j k', (j < kycId)%nat → kycs w !! j = Some k' →
           UserKyc.userId k' ≠ UserKyc.userId kyc) →
  plans w !! emiPlanId = Some plan →
  1 <= EmiPlan.tenure plan →
  let w1 := (Kyc.verify kycId (Kyc.known UserKyc.verified) creditLimit w).2 in
  (Routes.apply now (UserKyc.userId kyc) orderId emiPlanId principalAmount
     w1).1
  = Done (if Qle_bool principalAmount (Kyc.orDefault creditLimit)
          then 201 else 400)
  ∧ (creditLimit = None ∨ creditLimit = Some 0%Q →
     Kyc.orDefault creditLimit = 50000%Q).
Proof.
  intros Hk Hfirst Hp Ht. cbv zeta. split.
  - unfold Kyc.verify, Kyc.saveKyc. run_M. rewrite Hk. run_M. cbn [snd].
    unfold Routes.apply. run_M. cbn [kycs plans].
    set (kyc' := UserKyc.mk (UserKyc.userId kyc) UserKyc.verified
                   (Kyc.orDefault creditLimit)).
    assert (Hf : list_find
                   (λ x : UserKyc.t,
                      Nat.eqb (UserKyc.userId x) (UserKyc.userId kyc))
                   (<[kycId := kyc']> (kycs w))
                 = Some (kycId, kyc')).
    { apply list_find_Some. split; [|split].
      - apply list_lookup_insert_eq. by apply lookup_lt_Some in Hk.
      - unfold kyc'. cbn. by rewrite Nat.eqb_refl.
      - intros j y Hj Hlt. rewrite list_lookup_insert_ne in Hj by lia.
        intros Hy. apply (Hfirst j y Hlt Hj).
        apply Nat.eqb_eq. by destruct (Nat.eqb _ _). }
    rewrite Hf. unfold kyc' at 1 2.
    cbn [UserKyc.isVerified UserKyc.verificationStatus UserKyc.creditLimit
         negb].
    change (negb (UserKyc.isVerified kyc')) with false. cbv beta iota.
    cbn [UserKyc.creditLimit kyc'].
    destruct (Qle_bool principalAmount (Kyc.orDefault creditLimit));
      cbn [negb]; [|done].
    cbn [plans]. rewrite Hp. rewrite generateSchedule_runs by exact Ht.
    rewrite saveApplication_new by reflexivity. done.
  - intros [->| ->]; reflexivity.
Qed.

Lemma verify_then_apply_witness :
  (Routes.apply (ofCivil 2025 1 10 0) 1%nat 7%nat 0%nat 50000
     (Kyc.verify 0%nat (Kyc.known UserKyc.verified) (Some 0%Q)
        demoWorld).2).1
  = Done 201.
Proof.
  refine (proj1 (verify_then_apply demoWorld 0%nat demoKyc (Some 0%Q)
                   (ofCivil 2025 1 10 0) 7%nat 0%nat demoPlan 50000
                   eq_refl _ eq_refl _)).
  - intros j k' Hj. lia.
  - vm_compute. discriminate.
Defined.

(** ** The upcoming pass: who is reminded *)

(** X18. With a working datastore, the upcoming pass returns normally and
    afterwards every active application whose next due date falls on the
    day three days ahead has a ledger entry, under its own id and that due
    date, which logs the 3-day reminder, whatever the notification sink
    does. *)
Theorem upcoming_pass_reminds (env : Faults) (now : Date) (w : World)
    (id : ObjectId) (a : EmiApplication.t) :
  (∀ i, ledgerSaveFails env i = false) →
  apps w !! id = Some a →
  Cron.activeDueWithin (setHoursZero (addDays now 3))
    (addDays (setHoursZero (addDays now 3)) 1) a = true →
  (Cron.processUpcomingReminders env now w).1 = Done tt
  ∧ Reminded id (EmiApplication.nextDueDate a)
      (ledgers (Cron.processUpcomingReminders env now w).2).
Proof.
  intros Hs Ha Hq. unfold Cron.processUpcomingReminders. cbv zeta. run_M.
  set (docs := filter _ _).
  assert (Hdocs : Forall (λ d : nat * EmiApplication.t,
                            is_Some (EmiApplication.nextDueDate d.2)) docs).
  { apply Forall_forall. intros d Hd. apply list_elem_of_In in Hd.
    apply selected_document in Hd as [Hd _].
    unfold Cron.activeDueWithin, Cron.dateWithin in Hd.
    apply andb_prop in Hd as [_ Hd].
    destruct (EmiApplication.nextDueDate d.2); [eauto | done]. }
  destruct (upcoming_loop_run env Hs now docs w Hdocs)
    as (w' & -> & _ & Hall & _).
  split; [done|]. cbn [snd].
  apply (Hall (id, a)). unfold docs.
  apply list_elem_of_filter. split; [cbn [snd]; by rewrite Hq|].
  apply elem_of_lookup_imap. eauto.
Qed.

Lemma upcoming_pass_reminds_witness :
  Reminded 0%nat (Some (ofCivil 2025 3 5 36000000))
    (ledgers (Cron.processUpcomingReminders sinkDown
                (ofCivil 2025 3 2 (9 * 3600000)) activeWorld).2).
Proof.
  refine (proj2 (upcoming_pass_reminds sinkDown
                   (ofCivil 2025 3 2 (9 * 3600000)) activeWorld 0%nat
                   activeApplication _ eq_refl _)).
  - intros i. reflexivity.
  - vm_compute. reflexivity.
Defined.

(** ** Edge cases of the two handlers *)

(** X19. A plan may carry a tenure of zero or less (the schema sets no
    minimum).  [/apply] under such a plan, by a verified user within the
    credit limit, ends in the TypeError of [installments[0].dueDate] on an
    empty schedule, and nothing is stored. *)
Theorem apply_without_tenure (now : Date) (userId orderId emiPlanId : ObjectId)
    (principalAmount : Q) (w : World) (i : nat) (kyc : UserKyc.t)
    (plan : EmiPlan.t) :
  list_find (λ k, Nat.eqb (UserKyc.userId k) userId) (kycs w)
  = Some (i, kyc) →
  UserKyc.isVerified kyc = true →
  (principalAmount <= UserKyc.creditLimit kyc)%Q →
  plans w !! emiPlanId = Some plan →
  EmiPlan.tenure plan <= 0 →
  Routes.apply now userId orderId emiPlanId principalAmount w
  = (Thrown TypeError, w).
Proof.
  intros Hk Hv Hc Hp Hn. apply Qle_bool_iff in Hc.
  unfold Routes.apply. run_M. rewrite Hk, Hv, Hc.
  cbn [negb]. cbv beta iota. rewrite Hp.
  rewrite generateSchedule_throws by exact Hn. reflexivity.
Qed.

Lemma apply_without_tenure_witness :
  Routes.apply (ofCivil 2025 1 10 0) 1%nat 7%nat 0%nat 3000
    (mkWorld [EmiPlan.mk EmptyString 0 0 0 0 None true] [demoKyc] [] [] [])
  = (Thrown TypeError,
     mkWorld [EmiPlan.mk EmptyString 0 0 0 0 None true] [demoKyc] [] [] []).
Proof.
  apply (apply_without_tenure (ofCivil 2025 1 10 0) 1%nat 7%nat 0%nat 3000
           (mkWorld [EmiPlan.mk EmptyString 0 0 0 0 None true] [demoKyc]
              [] [] [])
           0%nat demoKyc (EmiPlan.mk EmptyString 0 0 0 0 None true)).
  - reflexivity.
  - reflexivity.
  - vm_compute. discriminate.
  - reflexivity.
  - vm_compute. discriminate.
Defined.

Section PayInRange.

(** In an accounted schedule, ordinal [k] sits at position [k - 1]. *)
Lemma accounted_find (a : EmiApplication.t) (k : Z) :
  accounted a →
  1 <= k <= EmiApplication.tenure a →
  ∃ inst,
    list_find (λ i, Installment.installmentNumber i = k)
      (EmiApplication.installments a)
    = Some (Z.to_nat (k - 1), inst).
Proof.
  intros (Hord & _) Hk.
  assert (Hnum : ∀ j y, EmiApplication.installments a !! j = Some y →
            Installment.installmentNumber y = Z.of_nat (S j)).
  { intros j y Hj.
    assert (H : (Installment.installmentNumber
                   <$> EmiApplication.installments a) !! j
                = Some (Installment.installmentNumber y))
      by (by rewrite list_lookup_fmap, Hj).
    rewrite Hord, list_lookup_fmap in H.
    destruct (seq 1 (Z.to_nat (EmiApplication.tenure a)) !! j) as [n|]
      eqn:Hs; [|done].
    apply lookup_seq in Hs as [-> _]. simpl in H. congruence. }
  assert (Hlen : length (EmiApplication.installments a)
                 = Z.to_nat (EmiApplication.tenure a)).
  { rewrite <- (length_fmap Installment.installmentNumber), Hord.
    by rewrite length_fmap, length_seq. }
  destruct (EmiApplication.installments a !! Z.to_nat (k - 1)) as [inst|]
    eqn:Hi.
  - exists inst. apply list_find_Some. split; [exact Hi|]. split.
    + rewrite (Hnum _ _ Hi). lia.
    + intros j y Hj Hlt. rewrite (Hnum _ _ Hj). lia.
  - apply lookup_ge_None in Hi. lia.
Qed.

End PayInRange.

(** X20. In every store the handlers and the job produce from an empty
    one, the owner's [/pay] for an ordinal between 1 and the tenure never
    answers 404 and never fails: it answers 200 and marks exactly that
    installment paid, dated [now], if the installment is pending, and it
    answers 400 and changes nothing if the installment is paid already. *)
Theorem pay_in_range (w : World) (id : ObjectId) (a : EmiApplication.t)
    (now : Date) (k : Z) (transactionId paymentMethod : option string) :
  Reachable w →
  apps w !! id = Some a →
  1 <= k <= EmiApplication.tenure a →
  ∃ inst,
    EmiApplication.installments a !! Z.to_nat (k - 1) = Some inst
    ∧ Installment.installmentNumber inst = k
    ∧ (Installment.status inst = Installment.paid →
       Routes.pay now (EmiApplication.userId a) id k transactionId
         paymentMethod w
       = (Done 400, w))
    ∧ (Installment.status inst = Installment.pending →
       ∃ a',
         Routes.pay now (EmiApplication.userId a) id k transactionId
           paymentMethod w
         = (Done 200, set_apps (λ l, <[id := a']> l) w)
         ∧ EmiApplication.installments a'
           = <[Z.to_nat (k - 1) :=
                 Routes.markPaid now transactionId paymentMethod inst]>
               (EmiApplication.installments a)).
Proof.
  intros Hr Ha Hk. destruct (wellFormed_reachable w Hr) as [_ Hw].
  rewrite Forall_lookup in Hw. destruct (Hw id a Ha) as [Hacc Hlife].
  destruct (accounted_find a k Hacc Hk) as [inst Hf]. exists inst.
  pose proof Hf as Hf'. apply list_find_Some in Hf' as (Hi & Hn & _).
  split; [exact Hi|]. split; [exact Hn|]. split.
  - intros Hp. unfold Routes.pay. run_M. rewrite Ha, Nat.eqb_refl.
    cbn [negb]. rewrite Hf, Hp. reflexivity.
  - intros Hp. unfold Routes.pay. run_M. rewrite Ha, Nat.eqb_refl.
    cbn [negb]. rewrite Hf, Hp. cbn [Installment.Status_eqb].
    destruct (recordPayment_fields now transactionId paymentMethod
                (Z.to_nat (k - 1)) inst a) as [_ Hrec].
    rewrite saveApplication_at.
    + eexists. split; [reflexivity | exact Hrec].
    + unfold Routes.recordPayment. cbv zeta.
      destruct (_ =? 0); [reflexivity|].
      cbn [EmiApplication.status EmiApplication.set_summary].
      destruct Hlife as [(-> & _)|(-> & _)]; reflexivity.
Qed.

Lemma pay_in_range_witness :
  ∃ a',
    Routes.pay (ofCivil 2025 4 1 0) 1%nat 0%nat 3 None None demoHistory
    = (Done 200, set_apps (λ l, <[0%nat := a']> l) demoHistory).
Proof.
  assert (Hr : Reachable demoHistory).
  { unfold demoHistory.
    apply reach_step with
      (w := (Routes.apply (ofCivil 2025 1 10 0) 1%nat 7%nat 0%nat 3000
               demoWorld).2);
      [|apply step_pay].
    apply reach_step with (w := demoWorld); [|apply step_apply].
    apply reach_init; reflexivity. }
  destruct (pay_in_range demoHistory 0%nat _ (ofCivil 2025 4 1 0) 3 None None
              Hr eq_refl) as (inst & Hi & _ & _ & Hp).
  - vm_compute. split; discriminate.
  - vm_compute in Hi. injection Hi as <-.
    destruct (Hp eq_refl) as (a' & Ha' & _). exists a'. exact Ha'.
Defined.
